(** * Verification of the Ultravox prediction endpoint

    A shallow embedding of [ultravox-backend/predict.py]: the request
    handler [Predictor.predict] and the loader [Predictor.setup],
    together with the pieces of the Python runtime they rely on
    ([str.split], [str.strip], [dict.get], subscripting, attribute
    lookup, [json.loads] and [json.dumps]).

    Python strings are sequences of Unicode code points; they are
    modelled as lists of [N].  Exceptions are values of an error monad.
    The base64 decoder, the audio loader, the model pipeline and the
    two loaders of [setup] are parameters.  Two limits of the
    interpreter reach the handler through [json.loads] and are
    modelled: the recursion limit, which bounds the nesting of the
    text it reads, and the limit on the digits of an integer.  Memory
    is not modelled. *)

From Stdlib Require Import NArith ZArith Lia Bool Ascii String.
From Stdlib Require Import DecimalFacts DecimalPos.
From stdpp Require Import base tactics option list numbers.

Set Default Proof Using "Type".
Local Open Scope N_scope.

(** ** Python strings *)

Module PyStr.

Definition pychar := N.
Definition pystr := list N.

(** A literal of the source, as a sequence of code points. *)
Definition py (s : string) : pystr :=
  List.map N_of_ascii (list_ascii_of_string s).

Definition char_eqb (a b : N) : bool := N.eqb a b.

Fixpoint str_eqb (s t : pystr) : bool :=
  match s, t with
  | [], [] => true
  | a :: s', b :: t' => char_eqb a b && str_eqb s' t'
  | _, _ => false
  end.

(** [match_at p s]: when [s] starts with [p], what follows [p]. *)
Fixpoint match_at (p s : pystr) : option pystr :=
  match p with
  | [] => Some s
  | a :: p' =>
      match s with
      | [] => None
      | b :: s' => if char_eqb a b then match_at p' s' else None
      end
  end.

(** [find_first sep s]: the leftmost occurrence of [sep] in [s], as the
    text before it and the text after it. *)
Fixpoint find_first (sep s : pystr) : option (pystr * pystr) :=
  match match_at sep s with
  | Some after => Some ([], after)
  | None =>
      match s with
      | [] => None
      | c :: s' =>
          match find_first sep s' with
          | Some (before, after) => Some (c :: before, after)
          | None => None
          end
      end
  end.

(** The loop of [str.split(sep)] for a non-empty separator: cut at the
    leftmost occurrence and go on with what follows it.  Every cut
    removes at least one character, so [length s] rounds are enough. *)
Fixpoint split_loop (fuel : nat) (sep s : pystr) : list pystr :=
  match find_first sep s with
  | None => [s]
  | Some (before, after) =>
      match fuel with
      | O => [s]
      | S fuel' => before :: split_loop fuel' sep after
      end
  end.

(** [s.split(sep)]; [None] stands for the [ValueError] that Python
    raises on an empty separator. *)
Definition str_split (sep s : pystr) : option (list pystr) :=
  match sep with
  | [] => None
  | _ => Some (split_loop (length s) sep s)
  end.

(** [str.isspace] on one code point (the Unicode white-space set of
    CPython). *)
Definition isspace (c : N) : bool :=
  ((0x09 <=? c) && (c <=? 0x0D)) || ((0x1C <=? c) && (c <=? 0x20))
  || (c =? 0x85) || (c =? 0xA0) || (c =? 0x1680)
  || ((0x2000 <=? c) && (c <=? 0x200A))
  || (c =? 0x2028) || (c =? 0x2029) || (c =? 0x202F) || (c =? 0x205F)
  || (c =? 0x3000).

Fixpoint lstrip (s : pystr) : pystr :=
  match s with
  | c :: s' => if isspace c then lstrip s' else s
  | [] => []
  end.

Definition rstrip (s : pystr) : pystr := rev (lstrip (rev s)).

(** [s.strip()] *)
Definition str_strip (s : pystr) : pystr := rstrip (lstrip s).

End PyStr.
Export PyStr.

(** ** Python values, exceptions and the operations of the handler *)

Module PyVal.

(** A float is only ever decoded and printed by this program: it is
    carried as the literal it was decoded from. *)
Definition pyfloat := pystr.

(** The values that reach the handler: what [json.loads] builds, which
    is also taken as the universe of what the pipeline returns.  A
    dictionary keeps its items in insertion order and has strings for
    keys.  Other objects a pipeline could return (a tuple, a dictionary
    with other keys, an object with a subscript method of its own) are
    outside this universe: nothing is stated about them. *)
#[local] Unset Elimination Schemes.
Inductive pyval :=
| PNone
| PBool (b : bool)
| PInt (z : Z)
| PFloat (x : pyfloat)
| PStr (s : pystr)
| PList (l : list pyval)
| PDict (d : list (pystr * pyval)).
#[local] Set Elimination Schemes.

(** Instances of [Exception], with the text [str(e)]. *)
Inductive exn_class :=
| JSONDecodeError | ValueError | TypeError | KeyError | IndexError
| AttributeError | RecursionError | OtherError (name : pystr).

Record pyexn := mk_exn { exn_cls : exn_class; exn_text : pystr }.

Inductive result (A : Type) :=
| Ok (a : A)
| Raise (e : pyexn).
Arguments Ok {A} a.
Arguments Raise {A} e.

Definition bind {A B} (m : result A) (k : A -> result B) : result B :=
  match m with
  | Ok a => k a
  | Raise e => Raise e
  end.

Definition is_JSONDecodeError (e : pyexn) : bool :=
  match exn_cls e with JSONDecodeError => true | _ => false end.

(** [try: body / except cls: handler] *)
Definition try_except {A} (body : result A) (caught : pyexn -> bool)
    (handler : pyexn -> result A) : result A :=
  match body with
  | Ok a => Ok a
  | Raise e => if caught e then handler e else Raise e
  end.

Definition type_name (v : pyval) : pystr :=
  match v with
  | PNone => py "NoneType"
  | PBool _ => py "bool"
  | PInt _ => py "int"
  | PFloat _ => py "float"
  | PStr _ => py "str"
  | PList _ => py "list"
  | PDict _ => py "dict"
  end.

Definition no_attribute (v : pyval) (attr : string) : pyexn :=
  mk_exn AttributeError
    (py "'" ++ type_name v ++ py "' object has no attribute '"
       ++ py attr ++ py "'").

Definition not_subscriptable (v : pyval) : pyexn :=
  mk_exn TypeError
    (py "'" ++ type_name v ++ py "' object is not subscriptable").

Fixpoint dict_lookup (k : pystr) (d : list (pystr * pyval)) : option pyval :=
  match d with
  | [] => None
  | (k', v) :: d' => if str_eqb k k' then Some v else dict_lookup k d'
  end.

(** [d[k] = v]: a present key keeps its place, a new key goes last. *)
Fixpoint dict_set (k : pystr) (v : pyval) (d : list (pystr * pyval))
    : list (pystr * pyval) :=
  match d with
  | [] => [(k, v)]
  | (k', v') :: d' =>
      if str_eqb k k' then (k, v) :: d' else (k', v') :: dict_set k v d'
  end.

(** [obj.get(key, default)] *)
Definition py_get (obj : pyval) (key : pystr) (default : pyval)
    : result pyval :=
  match obj with
  | PDict d =>
      match dict_lookup key d with
      | Some v => Ok v
      | None => Ok default
      end
  | _ => Raise (no_attribute obj "get")
  end.

(** [obj[0]] *)
Definition getitem_0 (obj : pyval) : result pyval :=
  match obj with
  | PList (v :: _) => Ok v
  | PList [] => Raise (mk_exn IndexError (py "list index out of range"))
  | PStr (c :: _) => Ok (PStr [c])
  | PStr [] => Raise (mk_exn IndexError (py "string index out of range"))
  | PDict _ => Raise (mk_exn KeyError (py "0"))
  | _ => Raise (not_subscriptable obj)
  end.

(** [obj['generated_text']] *)
Definition getitem_generated_text (obj : pyval) : result pyval :=
  match obj with
  | PDict d =>
      match dict_lookup (py "generated_text") d with
      | Some v => Ok v
      | None => Raise (mk_exn KeyError (py "'generated_text'"))
      end
  | PList _ =>
      Raise (mk_exn TypeError
               (py "list indices must be integers or slices, not str"))
  | PStr _ =>
      Raise (mk_exn TypeError
               (py "string indices must be integers, not 'str'"))
  | _ => Raise (not_subscriptable obj)
  end.

(** [obj.split(sep)] *)
Definition py_split (obj : pyval) (sep : pystr) : result (list pystr) :=
  match obj with
  | PStr s =>
      match str_split sep s with
      | Some parts => Ok parts
      | None => Raise (mk_exn ValueError (py "empty separator"))
      end
  | _ => Raise (no_attribute obj "split")
  end.

(** [parts[-1]] *)
Definition getitem_last (parts : list pystr) : result pystr :=
  match list.last parts with
  | Some s => Ok s
  | None => Raise (mk_exn IndexError (py "list index out of range"))
  end.

End PyVal.
Export PyVal.

(** ** The JSON encoder: [json.dumps] with its default options *)

Module JsonEncode.

Definition hex_digit (n : N) : N := if n <? 10 then 48 + n else 87 + n.

(** ['{0:04x}'.format(n)] for [n < 0x10000] *)
Definition hex4 (n : N) : pystr :=
  [hex_digit (n / 4096 mod 16); hex_digit (n / 256 mod 16);
   hex_digit (n / 16 mod 16); hex_digit (n mod 16)].

Definition u_escape (n : N) : pystr := [92; 117] ++ hex4 n.

(** One character of a string under [ensure_ascii=True]: the short
    escapes, printable ASCII as it is, [\uXXXX] for the rest of the
    basic plane and a surrogate pair above it. *)
Definition escape_char (c : N) : pystr :=
  if c =? 34 then [92; 34]
  else if c =? 92 then [92; 92]
  else if c =? 10 then [92; 110]
  else if c =? 13 then [92; 114]
  else if c =? 9 then [92; 116]
  else if c =? 8 then [92; 98]
  else if c =? 12 then [92; 102]
  else if (32 <=? c) && (c <=? 126) then [c]
  else if c <? 0x10000 then u_escape c
  else
    let n := c - 0x10000 in
    u_escape (N.lor 0xD800 (N.land (N.shiftr n 10) 0x3FF))
      ++ u_escape (N.lor 0xDC00 (N.land n 0x3FF)).

Definition escape_string (s : pystr) : pystr := flat_map escape_char s.

Definition encode_string (s : pystr) : pystr :=
  [34] ++ escape_string s ++ [34].

Definition digit_char (d : N) : N := 48 + d.

Fixpoint uint_chars (d : Decimal.uint) : pystr :=
  match d with
  | Decimal.Nil => []
  | Decimal.D0 d' => digit_char 0 :: uint_chars d'
  | Decimal.D1 d' => digit_char 1 :: uint_chars d'
  | Decimal.D2 d' => digit_char 2 :: uint_chars d'
  | Decimal.D3 d' => digit_char 3 :: uint_chars d'
  | Decimal.D4 d' => digit_char 4 :: uint_chars d'
  | Decimal.D5 d' => digit_char 5 :: uint_chars d'
  | Decimal.D6 d' => digit_char 6 :: uint_chars d'
  | Decimal.D7 d' => digit_char 7 :: uint_chars d'
  | Decimal.D8 d' => digit_char 8 :: uint_chars d'
  | Decimal.D9 d' => digit_char 9 :: uint_chars d'
  end.

(** [int.__repr__] *)
Definition int_repr (z : Z) : pystr :=
  match z with
  | Z0 => [digit_char 0]
  | Zpos p => uint_chars (Pos.to_uint p)
  | Zneg p => 45 :: uint_chars (Pos.to_uint p)
  end.

Fixpoint join (sep : pystr) (parts : list pystr) : pystr :=
  match parts with
  | [] => []
  | [x] => x
  | x :: rest => x ++ sep ++ join sep rest
  end.

Section Dumps.
(** What the encoder prints for a float: [float.__repr__] of its
    value, or [NaN], [Infinity], [-Infinity]. *)
Variable float_repr : pyfloat -> pystr.

Fixpoint json_dumps (v : pyval) : pystr :=
  match v with
  | PNone => py "null"
  | PBool true => py "true"
  | PBool false => py "false"
  | PInt z => int_repr z
  | PFloat x => float_repr x
  | PStr s => encode_string s
  | PList l => py "[" ++ join (py ", ") (List.map json_dumps l) ++ py "]"
  | PDict d =>
      py "{"
        ++ join (py ", ")
             (List.map (fun kv => encode_string (fst kv) ++ py ": "
                                    ++ json_dumps (snd kv)) d)
        ++ py "}"
  end.
End Dumps.

End JsonEncode.
Export JsonEncode.

(** ** The JSON decoder: the value a text denotes

    The grammar [json.loads] reads with its default options, as a
    function from a text to the value it denotes.  The limits of the
    interpreter are left to [json_loads] below. *)

Module JsonDecode.

Definition is_ws (c : N) : bool :=
  (c =? 32) || (c =? 9) || (c =? 10) || (c =? 13).

Fixpoint skip_ws (s : pystr) : pystr :=
  match s with
  | c :: s' => if is_ws c then skip_ws s' else s
  | [] => []
  end.

Definition hex_val (c : N) : option N :=
  if (48 <=? c) && (c <=? 57) then Some (c - 48)
  else if (97 <=? c) && (c <=? 102) then Some (c - 87)
  else if (65 <=? c) && (c <=? 70) then Some (c - 55)
  else None.

Definition hex4_val (a b c d : N) : option N :=
  match hex_val a, hex_val b, hex_val c, hex_val d with
  | Some x, Some y, Some z, Some w => Some (((x * 16 + y) * 16 + z) * 16 + w)
  | _, _, _, _ => None
  end.

Definition is_high_surrogate (u : N) : bool := (0xD800 <=? u) && (u <=? 0xDBFF).
Definition is_low_surrogate (u : N) : bool := (0xDC00 <=? u) && (u <=? 0xDFFF).

Definition join_surrogates (hi lo : N) : N :=
  0x10000 + N.lor (N.shiftl (hi - 0xD800) 10) (lo - 0xDC00).

(** The character a one-letter escape stands for. *)
Definition simple_escape (e : N) : option N :=
  if e =? 34 then Some 34
  else if e =? 92 then Some 92
  else if e =? 47 then Some 47
  else if e =? 98 then Some 8
  else if e =? 102 then Some 12
  else if e =? 110 then Some 10
  else if e =? 114 then Some 13
  else if e =? 116 then Some 9
  else None.

Definition push (c : N) (r : option (pystr * pystr)) : option (pystr * pystr) :=
  match r with
  | Some (s, rest) => Some (c :: s, rest)
  | None => None
  end.

(** Four hexadecimal digits at the head of [s]: go on with their value
    and what follows them, or fail. *)
Definition read_hex4 {T} (s : pystr) (k : N -> pystr -> T) (bad : T) : T :=
  match s with
  | h1 :: h2 :: h3 :: h4 :: r =>
      match hex4_val h1 h2 h3 h4 with
      | Some u => k u r
      | None => bad
      end
  | _ => bad
  end.

(** The body of a string, after its opening quote, in strict mode: the
    decoded text and what follows the closing quote.  A high surrogate
    escape directly followed by a low surrogate escape is one
    character. *)
Fixpoint scanstring (s : pystr) : option (pystr * pystr) :=
  match s with
  | [] => None
  | c :: r =>
      if c =? 34 then Some ([], r)
      else if c =? 92 then
        match r with
        | [] => None
        | e :: r1 =>
            if e =? 117 then
              read_hex4 r1
                (fun uni r2 =>
                   if is_high_surrogate uni then
                     match r2 with
                     | b :: u :: r2' =>
                         if (b =? 92) && (u =? 117) then
                           read_hex4 r2'
                             (fun uni2 r3 =>
                                if is_low_surrogate uni2
                                then push (join_surrogates uni uni2)
                                          (scanstring r3)
                                else push uni (scanstring r2))
                             None
                         else push uni (scanstring r2)
                     | _ => push uni (scanstring r2)
                     end
                   else push uni (scanstring r2))
                None
            else
              match simple_escape e with
              | Some ch => push ch (scanstring r1)
              | None => None
              end
        end
      else if c <? 32 then None
      else push c (scanstring r)
  end.

Definition is_digit (c : N) : bool := (48 <=? c) && (c <=? 57).

Fixpoint span_digits (s : pystr) : pystr * pystr :=
  match s with
  | c :: r =>
      if is_digit c
      then let '(ds, rest) := span_digits r in (c :: ds, rest)
      else ([], s)
  | [] => ([], [])
  end.

(** The digits of an integer: [0], or a non-zero digit and the digits
    after it. *)
Definition scan_unsigned (s : pystr) : option (pystr * pystr) :=
  match s with
  | c :: r =>
      if c =? 48 then Some ([c], r)
      else if is_digit c
      then let '(ds, rest) := span_digits r in Some (c :: ds, rest)
      else None
  | [] => None
  end.

(** The integer part of a number: an optional minus sign and digits. *)
Definition scan_integer (s : pystr) : option (pystr * pystr) :=
  match s with
  | c :: r =>
      if c =? 45
      then match scan_unsigned r with
           | Some (ds, rest) => Some (c :: ds, rest)
           | None => None
           end
      else scan_unsigned s
  | [] => None
  end.

(** The optional fraction, a dot and at least one digit: the text
    matched, empty when there is none. *)
Definition scan_frac (s : pystr) : pystr * pystr :=
  match s with
  | c :: r =>
      if c =? 46
      then match span_digits r with
           | ([], _) => ([], s)
           | (ds, rest) => (c :: ds, rest)
           end
      else ([], s)
  | [] => ([], [])
  end.

(** The optional exponent: [e] or [E], an optional sign, at least one
    digit. *)
Definition scan_exp (s : pystr) : pystr * pystr :=
  match s with
  | c :: r =>
      if (c =? 101) || (c =? 69)
      then match r with
           | sg :: r' =>
               if (sg =? 45) || (sg =? 43)
               then match span_digits r' with
                    | ([], _) => ([], s)
                    | (ds, rest) => (c :: sg :: ds, rest)
                    end
               else match span_digits r with
                    | ([], _) => ([], s)
                    | (ds, rest) => (c :: ds, rest)
                    end
           | [] => ([], s)
           end
      else ([], s)
  | [] => ([], [])
  end.

Definition nat_of_digits (ds : pystr) : N :=
  fold_left (fun acc c => acc * 10 + (c - 48)) ds 0.

(** [int(text)] on the text of an integer token *)
Definition int_of_chars (s : pystr) : Z :=
  match s with
  | c :: r => if c =? 45 then Z.opp (Z.of_N (nat_of_digits r))
              else Z.of_N (nat_of_digits s)
  | [] => 0%Z
  end.

(** A number token: an [int] without fraction and exponent, a [float]
    with either. *)
Definition scan_number (s : pystr) : option (pyval * pystr) :=
  match scan_integer s with
  | None => None
  | Some (ip, r0) =>
      let '(fp, r1) := scan_frac r0 in
      let '(ep, r2) := scan_exp r1 in
      match fp, ep with
      | [], [] => Some (PInt (int_of_chars ip), r2)
      | _, _ => Some (PFloat (ip ++ fp ++ ep), r2)
      end
  end.

(** The literals, among them the three non-standard float constants
    the decoder accepts. *)
Definition scan_literal (s : pystr) : option (pyval * pystr) :=
  match match_at (py "null") s with
  | Some r => Some (PNone, r)
  | None =>
  match match_at (py "true") s with
  | Some r => Some (PBool true, r)
  | None =>
  match match_at (py "false") s with
  | Some r => Some (PBool false, r)
  | None =>
  match match_at (py "NaN") s with
  | Some r => Some (PFloat (py "NaN"), r)
  | None =>
  match match_at (py "Infinity") s with
  | Some r => Some (PFloat (py "Infinity"), r)
  | None =>
  match match_at (py "-Infinity") s with
  | Some r => Some (PFloat (py "-Infinity"), r)
  | None => None
  end end end end end end.

(** Items are stored one after the other: a repeated key keeps the
    place of its first item and the value of its last. *)
Definition dict_of_items (items : list (pystr * pyval)) : list (pystr * pyval) :=
  fold_left (fun d kv => dict_set (fst kv) (snd kv) d) items [].

(** [scan_once]: one value at the head of [s].  [parse_items] reads the
    items of an array up to its bracket, [parse_members] the members of
    an object up to its brace; both start on the first character of an
    item.  The recursion of the decoder is bounded by [fuel]. *)
Fixpoint scan_once (fuel : nat) (s : pystr) {struct fuel}
    : option (pyval * pystr) :=
  match fuel with
  | O => None
  | S fuel' =>
      match s with
      | [] => None
      | c :: r =>
          if c =? 34 then
            match scanstring r with
            | Some (str, rest) => Some (PStr str, rest)
            | None => None
            end
          else if c =? 123 then
            match skip_ws r with
            | [] => None
            | c1 :: r1 =>
                if c1 =? 125 then Some (PDict [], r1)
                else
                  match parse_members fuel' (c1 :: r1) with
                  | Some (items, rest) => Some (PDict (dict_of_items items), rest)
                  | None => None
                  end
            end
          else if c =? 91 then
            match skip_ws r with
            | [] => None
            | c1 :: r1 =>
                if c1 =? 93 then Some (PList [], r1)
                else
                  match parse_items fuel' (c1 :: r1) with
                  | Some (vs, rest) => Some (PList vs, rest)
                  | None => None
                  end
            end
          else
            match scan_literal s with
            | Some res => Some res
            | None => scan_number s
            end
      end
  end
with parse_items (fuel : nat) (s : pystr) {struct fuel}
    : option (list pyval * pystr) :=
  match fuel with
  | O => None
  | S fuel' =>
      match scan_once fuel' s with
      | None => None
      | Some (v, r) =>
          match skip_ws r with
          | [] => None
          | c :: r1 =>
              if c =? 93 then Some ([v], r1)
              else if c =? 44 then
                match parse_items fuel' (skip_ws r1) with
                | Some (vs, rest) => Some (v :: vs, rest)
                | None => None
                end
              else None
          end
      end
  end
with parse_members (fuel : nat) (s : pystr) {struct fuel}
    : option (list (pystr * pyval) * pystr) :=
  match fuel with
  | O => None
  | S fuel' =>
      match s with
      | [] => None
      | q :: r =>
          if q =? 34 then
            match scanstring r with
            | None => None
            | Some (k, r0) =>
                match skip_ws r0 with
                | [] => None
                | c0 :: r1 =>
                    if c0 =? 58 then
                      match scan_once fuel' (skip_ws r1) with
                      | None => None
                      | Some (v, r2) =>
                          match skip_ws r2 with
                          | [] => None
                          | c :: r3 =>
                              if c =? 125 then Some ([(k, v)], r3)
                              else if c =? 44 then
                                match parse_members fuel' (skip_ws r3) with
                                | Some (items, rest) => Some ((k, v) :: items, rest)
                                | None => None
                                end
                              else None
                          end
                      end
                    else None
                end
            end
          else None
      end
  end.

Definition decode_fuel (s : pystr) : nat := 2 * length s + 2.

(** [s.startswith('\ufeff')] *)
Definition has_bom (s : pystr) : bool :=
  match s with
  | c :: _ => c =? 0xFEFF
  | [] => false
  end.

(** The value a text denotes for [JSONDecoder.decode]: one value,
    white space around it, nothing else; a leading byte-order mark is
    refused.  [None]: the text is not JSON.  The limits of the
    interpreter play no part here; [json_loads] below has them. *)
Definition json_decode (s : pystr) : option pyval :=
  if has_bom s then None
  else
    match scan_once (decode_fuel s) (skip_ws s) with
    | Some (v, rest) =>
        match skip_ws rest with
        | [] => Some v
        | _ :: _ => None
        end
    | None => None
    end.

(** [t] is the text of one float for the decoder: a number with a
    fraction or an exponent, or one of the three constants. *)
Definition is_float_token (t : pystr) : bool :=
  match scan_literal t with
  | Some (PFloat _, []) => true
  | Some _ => false
  | None =>
      match scan_number t with
      | Some (PFloat _, []) => true
      | _ => false
      end
  end.

End JsonDecode.
Export JsonDecode.

(** ** [json.loads] within the limits of the interpreter

    The scanner of [json.loads] (CPython 3.11, with its C
    accelerator) enters the recursion guard of the interpreter at
    every array and every object it opens, and converts the text of an
    integer with [int], which refuses a text of more digits than the
    interpreter allows.  Besides [JSONDecodeError] it thus raises
    [RecursionError] and [ValueError].  The scan goes from left to
    right and stops at the first failure.

    [room] is the number of arrays and objects that may still be
    entered, one inside the other, and [maxd] the limit on the digits
    ([0]: none).  Close to the recursion limit a syntax error itself
    turns into a [RecursionError]: the errors the scanner raises on the
    spot ([fail_here]) are built by a call that takes three levels,
    and the three constants are looked up by a call that takes one.
    The error for a missing value is raised once the scanner has
    returned ([Stop]) and is not affected. *)

Module JsonLoads.

Inductive outcome (A : Type) :=
| Done (a : A) (rest : pystr)
| Stop
| Failed (e : pyexn).
Arguments Done {A} a rest.
Arguments Stop {A}.
Arguments Failed {A} e.

Definition decode_error : pyexn := mk_exn JSONDecodeError [].

Definition recursion_error (what : string) : pyexn :=
  mk_exn RecursionError (py "maximum recursion depth exceeded" ++ py what).

(** A syntax error raised where it is found, with [room] levels left. *)
Definition fail_here (room : nat) : pyexn :=
  match room with
  | 0%nat | 2%nat => recursion_error " while calling a Python object"
  | 1%nat => recursion_error ""
  | _ => decode_error
  end.

Definition int_too_long (maxd n : nat) : pyexn :=
  mk_exn ValueError
    (py "Exceeds the limit (" ++ int_repr (Z.of_nat maxd)
       ++ py " digits) for integer string conversion: value has "
       ++ int_repr (Z.of_nat n)
       ++ py " digits; use sys.set_int_max_str_digits() to increase the limit").

(** The number of digits of the integer at the head of [s]. *)
Definition int_digits (s : pystr) : nat :=
  match scan_integer s with
  | Some (ip, _) => length (List.filter is_digit ip)
  | None => O
  end.

(** [int] checks the limit only above 640 digits; the interpreter
    admits no limit below that but [0]. *)
Definition over_int_limit (maxd n : nat) : bool :=
  (640 <? n)%nat && (0 <? maxd)%nat && (maxd <? n)%nat.

Definition scan_number_l (maxd : nat) (s : pystr) : outcome pyval :=
  match scan_number s with
  | None => Stop
  | Some (PInt z, r) =>
      if over_int_limit maxd (int_digits s)
      then Failed (int_too_long maxd (int_digits s))
      else Done (PInt z) r
  | Some (v, r) => Done v r
  end.

Definition scan_literal_l (room : nat) (s : pystr) : option (outcome pyval) :=
  match scan_literal s with
  | Some (PFloat x, rest) =>
      match room with
      | O => Some (Failed (recursion_error " while calling a Python object"))
      | S _ => Some (Done (PFloat x) rest)
      end
  | Some (v, rest) => Some (Done v rest)
  | None => None
  end.

(** [scan_once] with the two limits. *)
Fixpoint scan_once_l (fuel room maxd : nat) (s : pystr) {struct fuel}
    : outcome pyval :=
  match fuel with
  | O => Stop
  | S fuel' =>
      match s with
      | [] => Stop
      | c :: r =>
          if c =? 34 then
            match scanstring r with
            | Some (str, rest) => Done (PStr str) rest
            | None => Failed (fail_here room)
            end
          else if c =? 123 then
            match room with
            | O => Failed (recursion_error
                             " while decoding a JSON object from a unicode string")
            | S room' =>
                match skip_ws r with
                | [] => Failed (fail_here room')
                | c1 :: r1 =>
                    if c1 =? 125 then Done (PDict []) r1
                    else
                      match parse_members_l fuel' room' maxd (c1 :: r1) with
                      | Done items rest => Done (PDict (dict_of_items items)) rest
                      | Stop => Stop
                      | Failed e => Failed e
                      end
                end
            end
          else if c =? 91 then
            match room with
            | O => Failed (recursion_error
                             " while decoding a JSON array from a unicode string")
            | S room' =>
                match skip_ws r with
                | [] => Stop
                | c1 :: r1 =>
                    if c1 =? 93 then Done (PList []) r1
                    else
                      match parse_items_l fuel' room' maxd (c1 :: r1) with
                      | Done vs rest => Done (PList vs) rest
                      | Stop => Stop
                      | Failed e => Failed e
                      end
                end
            end
          else
            match scan_literal_l room s with
            | Some res => res
            | None => scan_number_l maxd s
            end
      end
  end
with parse_items_l (fuel room maxd : nat) (s : pystr) {struct fuel}
    : outcome (list pyval) :=
  match fuel with
  | O => Stop
  | S fuel' =>
      match scan_once_l fuel' room maxd s with
      | Stop => Stop
      | Failed e => Failed e
      | Done v r =>
          match skip_ws r with
          | [] => Failed (fail_here room)
          | c :: r1 =>
              if c =? 93 then Done [v] r1
              else if c =? 44 then
                match parse_items_l fuel' room maxd (skip_ws r1) with
                | Done vs rest => Done (v :: vs) rest
                | Stop => Stop
                | Failed e => Failed e
                end
              else Failed (fail_here room)
          end
      end
  end
with parse_members_l (fuel room maxd : nat) (s : pystr) {struct fuel}
    : outcome (list (pystr * pyval)) :=
  match fuel with
  | O => Stop
  | S fuel' =>
      match s with
      | [] => Failed (fail_here room)
      | q :: r =>
          if q =? 34 then
            match scanstring r with
            | None => Failed (fail_here room)
            | Some (k, r0) =>
                match skip_ws r0 with
                | [] => Failed (fail_here room)
                | c0 :: r1 =>
                    if c0 =? 58 then
                      match scan_once_l fuel' room maxd (skip_ws r1) with
                      | Stop => Stop
                      | Failed e => Failed e
                      | Done v r2 =>
                          match skip_ws r2 with
                          | [] => Failed (fail_here room)
                          | c :: r3 =>
                              if c =? 125 then Done [(k, v)] r3
                              else if c =? 44 then
                                match parse_members_l fuel' room maxd (skip_ws r3) with
                                | Done items rest => Done ((k, v) :: items) rest
                                | Stop => Stop
                                | Failed e => Failed e
                                end
                              else Failed (fail_here room)
                          end
                      end
                    else Failed (fail_here room)
                end
            end
          else Failed (fail_here room)
      end
  end.

(** [json.loads(s)].  The text of a [JSONDecodeError] is left empty:
    the handler that catches it discards it. *)
Definition json_loads (room maxd : nat) (s : pystr) : result pyval :=
  if has_bom s then Raise decode_error
  else
    match scan_once_l (decode_fuel s) room maxd (skip_ws s) with
    | Done v rest =>
        match skip_ws rest with
        | [] => Ok v
        | _ :: _ => Raise decode_error
        end
    | Stop => Raise decode_error
    | Failed e => Raise e
    end.

End JsonLoads.
Export JsonLoads.

(** ** The predictor *)

Module Predictor.

(** One message of the conversation given to the model. *)
Record turn := { role : pystr; content : pystr }.

(** The first argument of the pipeline call. *)
Record pipeline_input (W : Type) :=
  { audio : W; turns : list turn; sampling_rate : Z }.
Arguments audio {W} _.
Arguments turns {W} _.
Arguments sampling_rate {W} _.

(** The keyword arguments of the pipeline call. *)
Record generation_kwargs :=
  { max_new_tokens : Z;
    do_sample : bool;
    top_k : Z;
    top_p : pyfloat;
    num_return_sequences : Z;
    batch_size : Z }.

(** The collaborators of the handler: the base64 and audio decoders,
    the pipeline built by [setup], whose answer may depend on a hidden
    state of its own (the random generator it samples from) and change
    it, the printing of floats by [json.dumps], which gives
    [float.__repr__] of a finite float and [NaN], [Infinity] or
    [-Infinity] otherwise, each the text of one float, and the two
    limits of the interpreter that [json.loads] meets.

    Where [predict] is called, the [json] module may enter
    [json_nesting + 4] arrays and objects, one inside the other,
    before the recursion limit is reached.  Four levels are taken to
    be there: they are what it takes to refuse, with a
    [JSONDecodeError], an object that is not JSON; with fewer, calls
    of the handler itself can fail.  [json.dumps] runs under the same
    guard, at the same depth of calls, on values no deeper than the
    one [json.loads] has just built: its guard does not fire and is
    not modelled. *)
Record runtime :=
  { waveform : Type;
    world : Type;
    b64decode : pystr -> result (list N);
    librosa_load : list N -> Z -> result (waveform * Z);
    pipeline : world -> pipeline_input waveform -> generation_kwargs
               -> result pyval * world;
    float_repr : pyfloat -> pystr;
    float_repr_token : forall x, is_float_token (float_repr x) = true;
    json_nesting : nat;
    int_max_str_digits : nat }.

(** The state a call runs in: the hidden state of the pipeline and, as
    a ghost field, the log of the pipeline calls made so far. *)
Record state (rt : runtime) :=
  { hidden : world rt;
    calls : list (pipeline_input (waveform rt) * generation_kwargs) }.
Arguments hidden {rt} _.
Arguments calls {rt} _.

Definition M (rt : runtime) (A : Type) : Type :=
  state rt -> result A * state rt.

Definition mbind_M {rt A B} (m : M rt A) (k : A -> M rt B) : M rt B :=
  fun st =>
    match m st with
    | (Ok a, st') => k a st'
    | (Raise e, st') => (Raise e, st')
    end.

Definition lift {rt A} (r : result A) : M rt A := fun st => (r, st).

Definition call_pipeline (rt : runtime)
    (inp : pipeline_input (waveform rt)) (kw : generation_kwargs)
    : M rt pyval :=
  fun st =>
    let '(r, h) := pipeline rt (hidden st) inp kw in
    (r, {| hidden := h; calls := calls st ++ [(inp, kw)] |}).

Notation "x <- m ;; k" := (mbind_M m (fun x => k))
  (at level 100, m at next level, right associativity).
Notation "x <~ m ;; k" := (bind m (fun x => k))
  (at level 100, m at next level, right associativity).

Definition system_prompt : pystr :=
  py "You are a helpful shopping assistant. Output JSON: {'message': '...', 'action': 'search'|'collection'|'none', 'query'?..., 'handle'?...}".

Definition assistant_marker : pystr := py "<|assistant|>".

Definition generation : generation_kwargs :=
  {| max_new_tokens := 100;
     do_sample := true;
     top_k := 50;
     top_p := py "0.95";
     num_return_sequences := 1;
     batch_size := 1 |}.

Definition conversation (command : pystr) : list turn :=
  [ {| role := py "system"; content := system_prompt |};
    {| role := py "user"; content := command |} ].

(** Lines 42 to 70: decode the audio, call the pipeline, take
    [[0]['generated_text']] of its answer. *)
Definition run_model (rt : runtime) (command audio : pystr) : M rt pyval :=
  audio_data <- lift (b64decode rt audio) ;;
  loaded <- lift (librosa_load rt audio_data 16000) ;;
  out <- call_pipeline rt
           {| audio := fst loaded;
              turns := conversation command;
              sampling_rate := snd loaded |}
           generation ;;
  first <- lift (getitem_0 out) ;;
  lift (getitem_generated_text first).

(** Line 73: [response.split("<|assistant|>")[-1].strip()] *)
Definition assistant_segment (response : pyval) : result pystr :=
  parts <~ py_split response assistant_marker ;;
  seg <~ getitem_last parts ;;
  Ok (str_strip seg).

(** [json.loads] where the handler calls it. *)
Definition loads (rt : runtime) (s : pystr) : result pyval :=
  json_loads (json_nesting rt + 4) (int_max_str_digits rt) s.

(** Lines 76 to 86: the fields of the answer, from the parsed segment
    or, when [json.loads] refuses it as not JSON, from the segment
    itself. *)
Definition parse_fields (rt : runtime) (assistant_response : pystr)
    : result (pyval * pyval * pyval * pyval) :=
  try_except
    (response_data <~ loads rt assistant_response ;;
     message <~ py_get response_data (py "message") (PStr assistant_response) ;;
     action <~ py_get response_data (py "action") (PStr (py "none")) ;;
     query <~ py_get response_data (py "query") PNone ;;
     handle <~ py_get response_data (py "handle") PNone ;;
     Ok (message, action, query, handle))
    is_JSONDecodeError
    (fun _ => Ok (PStr assistant_response, PStr (py "none"), PNone, PNone)).

(** The dictionary of lines 88 to 93. *)
Definition response_dict (message action query handle : pyval) : pyval :=
  PDict [ (py "message", message); (py "action", action);
          (py "query", query); (py "handle", handle) ].

(** Lines 73 to 93. *)
Definition respond (rt : runtime) (response : pyval) : result pystr :=
  assistant_response <~ assistant_segment response ;;
  fields <~ parse_fields rt assistant_response ;;
  let '(message, action, query, handle) := fields in
  Ok (json_dumps (float_repr rt) (response_dict message action query handle)).

(** The body of the outer [try]. *)
Definition predict_body (rt : runtime) (command audio : pystr) : M rt pystr :=
  response <- run_model rt command audio ;;
  lift (respond rt response).

(** The dictionary of line 96. *)
Definition error_dict (e : pyexn) : pyval :=
  PDict [ (py "message", PStr (py "Error: " ++ exn_text e)) ].

(** [Predictor.predict]: the body, and the handler of line 95 for
    whatever it raises. *)
Definition predict (rt : runtime) (st : state rt)
    (command audio shop_domain : pystr) : pystr * state rt :=
  match predict_body rt command audio st with
  | (Ok out, st') => (out, st')
  | (Raise e, st') => (json_dumps (float_repr rt) (error_dict e), st')
  end.

End Predictor.
Export Predictor.

(** ** Notions the statements are written in *)

Module Spec.

(** The text after the last occurrence of [m] in [s]: an occurrence
    further to the right wins over one that starts here.  [None] when
    [m] does not occur. *)
Fixpoint after_last_occurrence (m s : pystr) : option pystr :=
  match s with
  | [] => match_at m []
  | _ :: s' =>
      match after_last_occurrence m s' with
      | Some t => Some t
      | None => match_at m s
      end
  end.

(** The white-space characters of Unicode, which [str.strip] takes
    off: the ASCII controls 9 to 13 and 28 to 31, the space, and the
    separators above ASCII. *)
Definition white_space : list N :=
  [9; 10; 11; 12; 13; 28; 29; 30; 31; 32; 133; 160; 5760;
   8192; 8193; 8194; 8195; 8196; 8197; 8198; 8199; 8200; 8201; 8202;
   8232; 8233; 8239; 8287; 12288].

(** The candidate answer as the specification words it: what follows
    the last assistant marker, or the whole text without a marker,
    trimmed. *)
Definition candidate_answer (text : pystr) : pystr :=
  str_strip
    match after_last_occurrence assistant_marker text with
    | Some t => t
    | None => text
    end.

(** [m] overlaps itself by [k] characters: its last [k] characters are
    its first [k]. *)
Definition border (m : pystr) (k : nat) : bool :=
  str_eqb (drop (length m - k) m) (take k m).

Definition unbordered (m : pystr) : bool :=
  forallb (fun k => negb (border m k)) (seq 1 (length m - 1)).

(** Unicode scalar values: code points that are not surrogates. *)
Definition is_scalar (c : N) : bool :=
  (c <? 0xD800) || ((0xE000 <=? c) && (c <? 0x110000)).

(** What may follow a value in a JSON text: nothing, a comma or a
    closing bracket or brace. *)
Definition delimited (rest : pystr) : bool :=
  match rest with
  | [] => true
  | c :: _ => (c =? 44) || (c =? 93) || (c =? 125)
  end.

(** Every float inside [v] prints as the text of one float. *)
Fixpoint floats_print (fr : pyfloat -> pystr) (v : pyval) : bool :=
  match v with
  | PFloat x => is_float_token (fr x)
  | PList l => forallb (floats_print fr) l
  | PDict d => forallb (fun kv => floats_print fr (snd kv)) d
  | _ => true
  end.

(** What a character above the basic plane is read back as, after it
    was written as a surrogate pair. *)
Definition astral_reread (c : N) : N :=
  let n := c - 0x10000 in
  join_surrogates (N.lor 0xD800 (N.land (N.shiftr n 10) 0x3FF))
                  (N.lor 0xDC00 (N.land n 0x3FF)).

(** The text read back from the encoding of [s]: a high surrogate and
    the low surrogate after it come back as one character. *)
Fixpoint restring (s : pystr) : pystr :=
  match s with
  | [] => []
  | c :: r =>
      if c <? 0x10000 then
        if is_high_surrogate c then
          match r with
          | lo :: r' =>
              if is_low_surrogate lo
              then join_surrogates c lo :: restring r'
              else c :: restring r
          | [] => [c]
          end
        else c :: restring r
      else astral_reread c :: restring r
  end.

(** The value read back from the encoding of [v]. *)
Fixpoint reread (fr : pyfloat -> pystr) (v : pyval) : pyval :=
  match v with
  | PFloat x => PFloat (fr x)
  | PStr s => PStr (restring s)
  | PList l => PList (List.map (reread fr) l)
  | PDict d =>
      PDict (dict_of_items
               (List.map (fun kv => (restring (fst kv), reread fr (snd kv))) d))
  | _ => v
  end.

(** The keys of the object a JSON text denotes; [None] when the text
    is not JSON or not an object. *)
Definition json_keys (s : pystr) : option (list pystr) :=
  match json_decode s with
  | Some (PDict d) => Some (List.map fst d)
  | _ => None
  end.

(** A field of the object a JSON text denotes. *)
Definition json_field (s : pystr) (k : string) : option pyval :=
  match json_decode s with
  | Some (PDict d) => dict_lookup (py k) d
  | _ => None
  end.

(** The three float constants [json.loads] accepts and [json.dumps]
    prints, which the JSON grammar does not have. *)
Definition is_constant_token (t : pystr) : bool :=
  str_eqb t (py "NaN") || str_eqb t (py "Infinity") || str_eqb t (py "-Infinity").

Fixpoint strict_value (v : pyval) : bool :=
  match v with
  | PFloat x => negb (is_constant_token x)
  | PList l => forallb strict_value l
  | PDict d => forallb (fun kv => strict_value (snd kv)) d
  | _ => true
  end.

(** Valid JSON in the strict sense: a text the decoder reads without
    meeting one of the three constants. *)
Definition strict_json (s : pystr) : bool :=
  match json_decode s with
  | Some v => strict_value v
  | None => false
  end.

(** No float inside [v] prints as one of the three constants. *)
Fixpoint prints_numbers (fr : pyfloat -> pystr) (v : pyval) : bool :=
  match v with
  | PFloat x => negb (is_constant_token (fr x))
  | PList l => forallb (prints_numbers fr) l
  | PDict d => forallb (fun kv => prints_numbers fr (snd kv)) d
  | _ => true
  end.

End Spec.
Export Spec.

(** ** A runtime to run the handler on

    The base64 decoder refuses a text whose length is not a multiple of
    four, the audio loader returns the bytes as the waveform, and the
    pipeline answers with the user's turn as generated text and counts
    its calls.  A float prints as the token it was read from. *)

Module Echo.

Definition echo_b64decode (a : pystr) : result (list N) :=
  if (N.of_nat (length a) mod 4 =? 0)
  then Ok a
  else Raise (mk_exn ValueError (py "Incorrect padding")).

Definition echo_pipeline (n : nat) (inp : pipeline_input (list N))
    (kw : generation_kwargs) : result pyval * nat :=
  match turns inp with
  | [_; user] =>
      (Ok (PList [PDict [(py "generated_text", PStr (content user))]]), S n)
  | _ => (Raise (mk_exn ValueError (py "bad conversation")), S n)
  end.

(** A float token or [NaN] is a float token. *)
Definition token_or_NaN_is_token (x : pyfloat)
    : is_float_token (if is_float_token x then x else py "NaN") = true :=
  match is_float_token x as b
    return is_float_token x = b
           -> is_float_token (if b then x else py "NaN") = true
  with
  | true => fun H => H
  | false => fun _ => eq_refl
  end eq_refl.

(** The limits are those of an interpreter with its default settings:
    a recursion limit of 1000, of which a few levels are in use, so
    that 993 arrays may be open at once, and 4300 digits. *)
Definition echo : runtime :=
  {| waveform := list N;
     world := nat;
     b64decode := echo_b64decode;
     librosa_load := fun data sr => Ok (data, sr);
     pipeline := echo_pipeline;
     float_repr := fun x => if is_float_token x then x else py "NaN";
     float_repr_token := token_or_NaN_is_token;
     json_nesting := 989;
     int_max_str_digits := 4300 |}.

Definition start : state echo := Build_state echo 0%nat [].

(** A pipeline that samples: its answer tells the number of calls made
    before, which its hidden state counts. *)
Definition counting_pipeline (n : nat) (inp : pipeline_input (list N))
    (kw : generation_kwargs) : result pyval * nat :=
  (Ok (PList [PDict [(py "generated_text",
                      PStr (py "answer " ++ int_repr (Z.of_nat n)))]]), S n).

Definition counting : runtime :=
  {| waveform := list N;
     world := nat;
     b64decode := echo_b64decode;
     librosa_load := fun data sr => Ok (data, sr);
     pipeline := counting_pipeline;
     float_repr := fun x => if is_float_token x then x else py "NaN";
     float_repr_token := token_or_NaN_is_token;
     json_nesting := 989;
     int_max_str_digits := 4300 |}.

(** Texts that meet the limits: [n] arrays one inside the other, and
    an integer of [n] digits. *)
Definition nested_arrays (n : nat) : pystr := repeat 91 n ++ repeat 93 n.

Definition long_integer (n : nat) : pystr := repeat 49 n.

(** A text with the quotation marks of JSON written as [`]. *)
Definition js (s : string) : pystr :=
  List.map (fun c => if c =? 96 then 34 else c) (py s).

End Echo.
Export Echo.

(** ** The predictor object and its set-up *)

Module Setup.

Definition MODEL : pystr := py "fixie-ai/ultravox-v0_5-llama-3_1-8b".

Inductive torch_dtype := bfloat16 | float16 | float32.

(** The arguments of [transformers.BitsAndBytesConfig] that [setup]
    gives. *)
Record BitsAndBytesConfig :=
  { load_in_4bit : bool;
    bnb_4bit_use_double_quant : bool;
    bnb_4bit_quant_type : pystr;
    bnb_4bit_compute_dtype : torch_dtype }.

(** The keyword arguments of [transformers.pipeline]. *)
Record pipeline_kwargs (Tok : Type) :=
  { pk_model : pystr;
    pk_tokenizer : Tok;
    pk_torch_dtype : torch_dtype;
    pk_trust_remote_code : bool;
    pk_device_map : pystr;
    pk_quantization_config : BitsAndBytesConfig }.
Arguments pk_model {Tok} _.
Arguments pk_tokenizer {Tok} _.
Arguments pk_torch_dtype {Tok} _.
Arguments pk_trust_remote_code {Tok} _.
Arguments pk_device_map {Tok} _.
Arguments pk_quantization_config {Tok} _.

(** A pipeline object, as [predict] calls it. *)
Definition pipeline_fn (rt : runtime) : Type :=
  world rt -> pipeline_input (waveform rt) -> generation_kwargs
  -> result pyval * world rt.

(** The two loaders of [setup]:
    [AutoTokenizer.from_pretrained(model, trust_remote_code)] and
    [transformers.pipeline(...)]. *)
Record loaders (rt : runtime) (Tok : Type) :=
  { from_pretrained : pystr -> bool -> result Tok;
    make_pipeline : pipeline_kwargs Tok -> result (pipeline_fn rt) }.
Arguments from_pretrained {rt Tok} _ _ _.
Arguments make_pipeline {rt Tok} _ _.

(** The attributes of a [Predictor]; [None] is an attribute that was
    never assigned. *)
Record predictor (rt : runtime) (Tok : Type) :=
  { attr_tokenizer : option Tok;
    attr_pipeline : option (pipeline_fn rt) }.
Arguments attr_tokenizer {rt Tok} _.
Arguments attr_pipeline {rt Tok} _.

(** A predictor on which [setup] was never run. *)
Definition fresh (rt : runtime) (Tok : Type) : predictor rt Tok :=
  {| attr_tokenizer := None; attr_pipeline := None |}.

Definition bnb_config : BitsAndBytesConfig :=
  {| load_in_4bit := true;
     bnb_4bit_use_double_quant := true;
     bnb_4bit_quant_type := py "nf4";
     bnb_4bit_compute_dtype := bfloat16 |}.

(** The arguments [setup] builds the pipeline with, for the tokenizer
    it has just stored. *)
Definition setup_kwargs {Tok} (tok : Tok) : pipeline_kwargs Tok :=
  {| pk_model := MODEL;
     pk_tokenizer := tok;
     pk_torch_dtype := bfloat16;
     pk_trust_remote_code := true;
     pk_device_map := py "auto";
     pk_quantization_config := bnb_config |}.

(** [Predictor.setup]: what it raises or returns, and the predictor
    it leaves.  Nothing is caught: an exception of a loader leaves the
    attributes assigned so far.  Building the quantization
    configuration from its four constants is taken not to raise. *)
Definition setup {rt Tok} (ld : loaders rt Tok) (self : predictor rt Tok)
    : result unit * predictor rt Tok :=
  match from_pretrained ld MODEL true with
  | Raise e => (Raise e, self)
  | Ok tok =>
      let self1 := {| attr_tokenizer := Some tok;
                      attr_pipeline := attr_pipeline self |} in
      match make_pipeline ld (setup_kwargs tok) with
      | Raise e => (Raise e, self1)
      | Ok p => (Ok tt, {| attr_tokenizer := Some tok;
                           attr_pipeline := Some p |})
      end
  end.

(** [self.pipeline] *)
Definition getattr_pipeline {rt Tok} (self : predictor rt Tok)
    : result (pipeline_fn rt) :=
  match attr_pipeline self with
  | Some p => Ok p
  | None =>
      Raise (mk_exn AttributeError
               (py "'Predictor' object has no attribute 'pipeline'"))
  end.

Definition call_with (rt : runtime) (p : pipeline_fn rt)
    (inp : pipeline_input (waveform rt)) (kw : generation_kwargs)
    : M rt pyval :=
  fun st =>
    let '(r, h) := p (hidden st) inp kw in
    (r, {| hidden := h; calls := calls st ++ [(inp, kw)] |}).

(** Lines 42 to 70 on a predictor object: the pipeline is the
    attribute of the object, looked up once the audio is loaded. *)
Definition method_run_model {rt Tok} (self : predictor rt Tok)
    (command audio : pystr) : M rt pyval :=
  audio_data <- lift (b64decode rt audio) ;;
  loaded <- lift (librosa_load rt audio_data 16000) ;;
  p <- lift (getattr_pipeline self) ;;
  out <- call_with rt p
           {| audio := fst loaded;
              turns := conversation command;
              sampling_rate := snd loaded |}
           generation ;;
  first <- lift (getitem_0 out) ;;
  lift (getitem_generated_text first).

(** [Predictor.predict] as a method: the runtime gives the decoders
    and the printing of floats, the object gives the pipeline. *)
Definition method_predict {rt Tok} (self : predictor rt Tok) (st : state rt)
    (command audio shop_domain : pystr) : pystr * state rt :=
  match (response <- method_run_model self command audio ;;
         lift (respond rt response)) st with
  | (Ok out, st') => (out, st')
  | (Raise e, st') => (json_dumps (float_repr rt) (error_dict e), st')
  end.

(** Loaders to run [setup] on: one pair that loads the pipeline of
    [echo], one whose pipeline does not load. *)
Definition echo_loaders : loaders echo unit :=
  {| from_pretrained := fun _ _ => Ok tt;
     make_pipeline := fun _ => Ok (pipeline echo) |}.


End Setup.
Export Setup.

(** ** Notions for the shape of the answer *)

Module Shape.

Definition printable (c : N) : bool := (32 <=? c) && (c <=? 126).

Fixpoint has_key (k : pystr) (d : list (pystr * pyval)) : bool :=
  match d with
  | [] => false
  | (k', _) :: d' => str_eqb k k' || has_key k d'
  end.

(** No key occurs twice among the items. *)
Fixpoint distinct_keys (d : list (pystr * pyval)) : bool :=
  match d with
  | [] => true
  | (k, _) :: d' => negb (has_key k d') && distinct_keys d'
  end.

(** A value that is read back as it is: its strings hold no surrogate
    code points, its floats print as the token they carry, and no
    dictionary in it repeats a key. *)
Fixpoint stable (fr : pyfloat -> pystr) (v : pyval) : bool :=
  match v with
  | PFloat x => is_float_token x && str_eqb (fr x) x
  | PStr s => forallb is_scalar s
  | PList l => forallb (stable fr) l
  | PDict d =>
      forallb (fun kv => forallb is_scalar (fst kv) && stable fr (snd kv)) d
      && distinct_keys d
  | _ => true
  end.

End Shape.
Export Shape.

(** * Properties *)

(** ** Running the handler *)

Example predict_search :
  fst (predict echo start
         (js "<|user|>find me a red jacket<|assistant|>{`message`: `Here are some jackets`, `action`: `search`, `query`: `red jacket`}")
         (py "QUJD") (py "shop.example"))
  = js "{`message`: `Here are some jackets`, `action`: `search`, `query`: `red jacket`, `handle`: null}".
Proof. vm_compute. reflexivity. Qed.

Example predict_plain_text :
  fst (predict echo start
         (js "<|assistant|>I'm not sure what you mean. ") (py "QUJD") [])
  = js "{`message`: `I'm not sure what you mean.`, `action`: `none`, `query`: null, `handle`: null}".
Proof. vm_compute. reflexivity. Qed.

Example predict_bad_audio :
  fst (predict echo start (py "hello") (py "not-base64!!!") [])
  = js "{`message`: `Error: Incorrect padding`}".
Proof. vm_compute. reflexivity. Qed.

Example predict_bare_number :
  fst (predict echo start (js "<|assistant|> 42 ") (py "QUJD") [])
  = js "{`message`: `Error: 'int' object has no attribute 'get'`}".
Proof. vm_compute. reflexivity. Qed.

(** Beyond the limits of the interpreter it is [json.loads] that
    raises, and what it raises is not a [JSONDecodeError]. *)
Example predict_nested_too_deep :
  fst (predict echo start (js "<|assistant|>" ++ nested_arrays 1000) (py "QUJD") [])
  = js "{`message`: `Error: maximum recursion depth exceeded while decoding a JSON array from a unicode string`}".
Proof. vm_compute. reflexivity. Qed.

Example predict_integer_too_long :
  fst (predict echo start (js "{`message`: " ++ long_integer 4301 ++ py "}")
         (py "QUJD") [])
  = js "{`message`: `Error: Exceeds the limit (4300 digits) for integer string conversion: value has 4301 digits; use sys.set_int_max_str_digits() to increase the limit`}".
Proof. vm_compute. reflexivity. Qed.

(** The encoder writes a character above the basic plane as a
    surrogate pair, and so it writes two surrogate code points that
    stand next to each other in a Python string; the decoder reads
    both back as one character. *)
Example surrogate_pair_is_joined :
  json_dumps (float_repr echo) (PStr [0x1F600]) = js "`\ud83d\ude00`" /\
  json_dumps (float_repr echo) (PStr [0xD83D; 0xDE00]) = js "`\ud83d\ude00`" /\
  json_decode (js "`\ud83d\ude00`") = Some (PStr [0x1F600]).
Proof. vm_compute. repeat split; reflexivity. Qed.

(** A repeated key keeps the value of its last item. *)
Example repeated_key_last_wins :
  json_decode (js "{`a`: 1, `b`: 2, `a`: 3}")
  = Some (PDict [(py "a", PInt 3); (py "b", PInt 2)]).
Proof. vm_compute. reflexivity. Qed.

(** ** Strings: splitting on the marker *)

Lemma char_eqb_eq a b : char_eqb a b = true <-> a = b.
Proof. apply N.eqb_eq. Qed.

Lemma str_eqb_eq s t : str_eqb s t = true <-> s = t.
Proof.
  revert t; induction s as [|a s IH]; intros [|b t]; simpl; try (split; congruence).
  rewrite andb_true_iff, char_eqb_eq, IH. split; [intros [-> ->]|intros [= -> ->]]; done.
Qed.

Lemma match_at_Some p s r : match_at p s = Some r <-> s = p ++ r.
Proof.
  revert s; induction p as [|a p IH]; intros s; simpl.
  - split; congruence.
  - destruct s as [|b s]; [split; congruence|].
    destruct (char_eqb a b) eqn:E.
    + apply char_eqb_eq in E as ->. rewrite IH. split; congruence.
    + split; [congruence|]. intros [= -> _].
      assert (char_eqb a a = true) by (by apply char_eqb_eq). congruence.
Qed.

Lemma match_at_None p s : match_at p s = None <-> forall r, s <> p ++ r.
Proof.
  split.
  - intros H r ->. assert (match_at p (p ++ r) = Some r) by (by apply match_at_Some).
    congruence.
  - intros H. destruct (match_at p s) as [r|] eqn:E; [|done].
    apply match_at_Some in E. by destruct (H r).
Qed.

(** [find_first] returns the leftmost occurrence. *)
Lemma find_first_Some sep s b a :
  find_first sep s = Some (b, a) ->
  s = b ++ sep ++ a /\
  forall b' a', s = b' ++ sep ++ a' -> (length b <= length b')%nat.
Proof.
  revert b a; induction s as [|c s IH]; intros b a; simpl.
  - destruct (match_at sep []) as [r|] eqn:E; [|done].
    intros [= <- <-]. apply match_at_Some in E. split; [done|]. simpl; lia.
  - destruct (match_at sep (c :: s)) as [r|] eqn:E.
    + intros [= <- <-]. apply match_at_Some in E. split; [done|]. simpl; lia.
    + destruct (find_first sep s) as [[b0 a0]|] eqn:F; [|done].
      intros [= <- <-]. destruct (IH _ _ eq_refl) as [-> Hmin]. split; [done|].
      intros [|c' b'] a' Heq.
      * exfalso. eapply match_at_None in E. apply E. exact Heq.
      * injection Heq as -> Heq. apply Hmin in Heq. simpl; lia.
Qed.

Lemma find_first_None sep s :
  find_first sep s = None -> forall b a, s <> b ++ sep ++ a.
Proof.
  induction s as [|c s IH]; simpl.
  - destruct (match_at sep []) eqn:E; [done|]. intros _ b a Heq.
    destruct b; [|done]. eapply match_at_None in E. apply E. exact Heq.
  - destruct (match_at sep (c :: s)) eqn:E; [done|].
    destruct (find_first sep s) as [[b0 a0]|] eqn:F; [done|].
    intros _ [|c' b] a Heq.
    + eapply match_at_None in E. apply E. exact Heq.
    + injection Heq as -> Heq. by eapply IH.
Qed.

(** [after_last_occurrence] returns what follows the rightmost
    occurrence. *)
Lemma after_last_occurrence_Some m s t :
  after_last_occurrence m s = Some t ->
  exists b, s = b ++ m ++ t /\
    forall b' t', s = b' ++ m ++ t' -> (length b' <= length b)%nat.
Proof.
  revert t; induction s as [|c s IH]; intros t; simpl.
  - intros E. apply match_at_Some in E. exists []. split; [done|].
    intros [|c' b'] t' Heq; [simpl; lia|done].
  - destruct (after_last_occurrence m s) as [t0|] eqn:F.
    + intros [= <-]. destruct (IH _ eq_refl) as (b & -> & Hmax).
      exists (c :: b). split; [done|].
      intros [|c' b'] t' Heq; [simpl; lia|].
      injection Heq as -> Heq. apply Hmax in Heq. simpl; lia.
    + intros E. apply match_at_Some in E. exists []. split; [done|].
      intros [|c' b'] t' Heq; [simpl; lia|]. exfalso.
      injection Heq as -> Heq. clear E IH.
      revert b' t' Heq F. induction s as [|d s IHs]; intros b' t' Heq F.
      * simpl in F. eapply match_at_None in F. apply F.
        destruct b'; [exact Heq|done].
      * simpl in F. destruct (after_last_occurrence m s) eqn:G; [done|].
        destruct b' as [|d' b'].
        -- eapply match_at_None in F. apply F. exact Heq.
        -- injection Heq as -> Heq. by eapply IHs.
Qed.

Lemma after_last_occurrence_None m s :
  after_last_occurrence m s = None -> forall b t, s <> b ++ m ++ t.
Proof.
  induction s as [|d s IHs]; simpl; intros F b t Heq.
  - eapply match_at_None in F. apply F. destruct b; [exact Heq|done].
  - destruct (after_last_occurrence m s) eqn:G; [done|].
    destruct b as [|d' b].
    + eapply match_at_None in F. apply F. exact Heq.
    + injection Heq as -> Heq. by eapply IHs.
Qed.

Lemma after_last_occurrence_complete m s b t :
  s = b ++ m ++ t ->
  (forall b' t', s = b' ++ m ++ t' -> (length b' <= length b)%nat) ->
  after_last_occurrence m s = Some t.
Proof.
  intros Heq Hmax. destruct (after_last_occurrence m s) as [t0|] eqn:E.
  - apply after_last_occurrence_Some in E as (b0 & Heq0 & Hmax0).
    pose proof (Hmax _ _ Heq0). pose proof (Hmax0 _ _ Heq).
    assert (b0 = b) as ->.
    { rewrite Heq0 in Heq. apply (f_equal (take (length b0))) in Heq.
      rewrite take_app_length in Heq.
      rewrite take_app_le in Heq by lia. rewrite Heq. apply take_ge. lia. }
    rewrite Heq0 in Heq. by simplify_list_eq.
  - exfalso. by eapply after_last_occurrence_None.
Qed.

Lemma app_eq_app_le {A} (x y u v : list A) :
  x ++ y = u ++ v -> (length x <= length u)%nat ->
  exists l, u = x ++ l /\ y = l ++ v.
Proof.
  intros Heq Hle. exists (drop (length x) u). split.
  - rewrite <- (take_drop (length x) u) at 1. f_equal.
    apply (f_equal (take (length x))) in Heq.
    rewrite take_app_length, take_app_le in Heq by done. done.
  - apply (f_equal (drop (length x))) in Heq.
    rewrite drop_app_length, drop_app_le in Heq by done. done.
Qed.

(** Two occurrences of [m] that overlap show a border of [m]. *)
Lemma overlap_border m b a b' a' :
  b ++ m ++ a = b' ++ m ++ a' ->
  (length b < length b')%nat -> (length b' < length b + length m)%nat ->
  border m (length b + length m - length b') = true.
Proof.
  intros Heq Hlt1 Hlt2.
  apply app_eq_app_le in Heq as (l & -> & Heq); [|lia].
  rewrite length_app in Hlt1, Hlt2.
  symmetry in Heq. apply app_eq_app_le in Heq as (l2 & Hm & Heq); [|lia].
  assert (length m = length l + length l2)%nat as Hlen
    by (by rewrite Hm, length_app).
  symmetry in Heq. apply app_eq_app_le in Heq as (l3 & Hm' & _); [|lia].
  unfold border. apply str_eqb_eq. rewrite length_app.
  replace (length b + length m - (length b + length l))%nat
    with (length l2) by lia.
  replace (length m - length l2)%nat with (length l) by lia.
  rewrite Hm at 1. rewrite drop_app_length.
  by rewrite Hm', take_app_length.
Qed.

Lemma unbordered_no_border m k :
  unbordered m = true -> (0 < k)%nat -> (k < length m)%nat -> border m k = false.
Proof.
  unfold unbordered. rewrite forallb_forall. intros H Hk1 Hk2.
  apply negb_true_iff, H, in_seq. lia.
Qed.

Lemma split_loop_nonempty fuel sep s : split_loop fuel sep s <> [].
Proof.
  destruct fuel; simpl; destruct (find_first sep s) as [[]|]; done.
Qed.

Lemma last_cons_nonempty {A} (x : A) l : l <> [] -> list.last (x :: l) = list.last l.
Proof. by destruct l. Qed.

(** The last piece of the split is what follows the rightmost
    occurrence, for a separator that cannot overlap itself. *)
Lemma split_loop_last sep fuel s :
  sep <> [] -> unbordered sep = true -> (length s <= fuel)%nat ->
  list.last (split_loop fuel sep s)
  = Some (default s (after_last_occurrence sep s)).
Proof.
  intros Hne Hub. revert s. induction fuel as [|fuel IH]; intros s Hlen.
  - destruct s; [|simpl in Hlen; lia]. simpl.
    destruct (match_at sep []) as [r|] eqn:E.
    + apply match_at_Some in E. by destruct sep.
    + done.
  - simpl. destruct (find_first sep s) as [[b a]|] eqn:F.
    + apply find_first_Some in F as [-> Hmin].
      rewrite last_cons_nonempty by apply split_loop_nonempty.
      rewrite IH.
      2:{ rewrite !length_app in Hlen. destruct sep; [done|]. simpl in Hlen. lia. }
      f_equal. destruct (after_last_occurrence sep a) as [t|] eqn:E; simpl.
      * apply after_last_occurrence_Some in E as (b2 & -> & Hmax).
        erewrite (after_last_occurrence_complete _ _ (b ++ sep ++ b2) t); [done|by rewrite <- !app_assoc|].
        intros b' t' Heq. rewrite !length_app.
        destruct (decide (length b + length sep <= length b')%nat) as [Hge|]; [|lia].
        rewrite !(app_assoc b) in Heq.
        apply app_eq_app_le in Heq as (l & -> & Heq);
          [|by rewrite length_app].
        apply Hmax in Heq. rewrite !length_app. lia.
      * erewrite (after_last_occurrence_complete _ _ b a); [done|done|].
        intros b' t' Heq. pose proof (Hmin _ _ Heq) as Hle.
        destruct (decide (length b' <= length b)%nat) as [|Hgt]; [done|exfalso].
        destruct (decide (length b + length sep <= length b')%nat) as [Hge|Hov].
        -- rewrite (app_assoc b) in Heq.
           apply app_eq_app_le in Heq as (l & -> & Heq);
             [|by rewrite length_app].
           by eapply after_last_occurrence_None in E.
        -- pose proof (overlap_border _ _ _ _ _ Heq ltac:(lia) ltac:(lia)) as Hb.
           rewrite unbordered_no_border in Hb; [done|done|lia|lia].
    + f_equal. destruct (after_last_occurrence sep s) as [t|] eqn:E; [|done].
      apply after_last_occurrence_Some in E as (b & Heq & _).
      by eapply find_first_None in F.
Qed.

Lemma str_split_nonempty_sep sep s :
  sep <> [] -> str_split sep s = Some (split_loop (length s) sep s).
Proof. by destruct sep. Qed.

Lemma assistant_marker_nonempty : assistant_marker <> [].
Proof. done. Qed.

(** The marker begins with a character that occurs nowhere else in it,
    so two occurrences of it never overlap. *)
Lemma assistant_marker_unbordered : unbordered assistant_marker = true.
Proof. vm_compute. reflexivity. Qed.

(** ** Strings: trimming *)

Lemma lstrip_spec s :
  exists ws, s = ws ++ lstrip s /\ forallb isspace ws = true /\
    match lstrip s with [] => True | c :: _ => isspace c = false end.
Proof.
  induction s as [|c s (ws & Heq & Hws & Hhd)]; simpl.
  - by exists [].
  - destruct (isspace c) eqn:E.
    + exists (c :: ws). simpl. rewrite E, Hws. by rewrite Heq at 1.
    + by exists [].
Qed.

(** [strip] removes white space, and only white space, from both ends:
    what it returns neither starts nor ends with a white-space
    character. *)
Lemma str_strip_spec s :
  exists l r, s = l ++ str_strip s ++ r /\
    forallb isspace l = true /\ forallb isspace r = true /\
    match str_strip s with [] => True | c :: _ => isspace c = false end /\
    match rev (str_strip s) with [] => True | c :: _ => isspace c = false end.
Proof.
  unfold str_strip, rstrip.
  destruct (lstrip_spec s) as (l & Hl & Hws & Hhd).
  destruct (lstrip_spec (rev (lstrip s))) as (r & Hr & Hwr & Hhr).
  exists l, (rev r). rewrite rev_involutive.
  assert (lstrip s = rev (lstrip (rev (lstrip s))) ++ rev r) as Hs.
  { rewrite <- rev_app_distr, <- Hr. by rewrite rev_involutive. }
  split; [by rewrite <- Hs|].
  split; [done|]. split.
  { rewrite forallb_forall in *. intros x Hx. apply Hwr. by apply in_rev. }
  split; [|done].
  destruct (rev (lstrip (rev (lstrip s)))) as [|c t] eqn:E; [done|].
  rewrite Hs in Hhd. done.
Qed.

(** ** The candidate answer *)

(** Line 73 computes the candidate answer of the specification. *)
Lemma assistant_segment_candidate (text : pystr) :
  assistant_segment (PStr text) = Ok (candidate_answer text).
Proof.
  unfold assistant_segment, py_split, candidate_answer.
  rewrite str_split_nonempty_sep by apply assistant_marker_nonempty.
  simpl. unfold getitem_last.
  rewrite split_loop_last;
    [|apply assistant_marker_nonempty|apply assistant_marker_unbordered|done].
  simpl. by destruct (after_last_occurrence assistant_marker text).
Qed.

(** ** The decoder reads back what the encoder writes: strings *)

Lemma hex_val_digit d : d < 16 -> hex_val (hex_digit d) = Some d.
Proof.
  intros H. unfold hex_val, hex_digit.
  destruct (N.ltb_spec d 10).
  - replace ((48 <=? 48 + d) && (48 + d <=? 57)) with true
      by (symmetry; apply andb_true_iff; split; apply N.leb_le; lia).
    f_equal. lia.
  - replace ((48 <=? 87 + d) && (87 + d <=? 57)) with false
      by (symmetry; apply andb_false_iff; right; apply N.leb_gt; lia).
    replace ((97 <=? 87 + d) && (87 + d <=? 102)) with true
      by (symmetry; apply andb_true_iff; split; apply N.leb_le; lia).
    f_equal. lia.
Qed.

Lemma hex4_val_hex4 n :
  n < 0x10000 ->
  hex4_val (hex_digit (n / 4096 mod 16)) (hex_digit (n / 256 mod 16))
           (hex_digit (n / 16 mod 16)) (hex_digit (n mod 16)) = Some n.
Proof.
  intros H. unfold hex4_val.
  rewrite !hex_val_digit by (apply N.mod_lt; done).
  f_equal.
  replace (n / 4096) with (n / 16 / 16 / 16) by (rewrite !N.Div0.div_div; done).
  replace (n / 256) with (n / 16 / 16) by (rewrite !N.Div0.div_div; done).
  assert (n / 16 / 16 / 16 < 16) by (rewrite !N.Div0.div_div; apply N.div_lt_upper_bound; [done|lia]).
  pose proof (N.div_mod n 16). pose proof (N.div_mod (n / 16) 16).
  pose proof (N.div_mod (n / 16 / 16) 16).
  rewrite (N.mod_small (n / 16 / 16 / 16)) by done. lia.
Qed.

Lemma read_hex4_hex4 {T} n s (k : N -> pystr -> T) bad :
  n < 0x10000 -> read_hex4 (hex4 n ++ s) k bad = k n s.
Proof. intros H. unfold hex4. simpl. by rewrite hex4_val_hex4. Qed.

(** Settle the comparisons of the goal that the context decides. *)
Ltac settle :=
  repeat match goal with
  | |- context [N.eqb ?a ?b] =>
      first [ rewrite (proj2 (N.eqb_eq a b)) by lia
            | rewrite (proj2 (N.eqb_neq a b)) by lia ]
  | |- context [N.ltb ?a ?b] =>
      first [ rewrite (proj2 (N.ltb_lt a b)) by lia
            | rewrite (proj2 (N.ltb_ge a b)) by lia ]
  | |- context [N.leb ?a ?b] =>
      first [ rewrite (proj2 (N.leb_le a b)) by lia
            | rewrite (proj2 (N.leb_gt a b)) by lia ]
  end.

Lemma lor_low_bits base q :
  (base = 0xD800 \/ base = 0xDC00) -> q < 1024 -> N.lor base q = base + q.
Proof.
  intros Hb Hq.
  assert (forallb (fun q => (N.lor 0xD800 q =? 0xD800 + q) && (N.lor 0xDC00 q =? 0xDC00 + q))
            (List.map N.of_nat (seq 0 1024)) = true) as Hall by (vm_compute; reflexivity).
  rewrite forallb_forall in Hall.
  specialize (Hall q). rewrite andb_true_iff, !N.eqb_eq in Hall.
  destruct Hall as [H1 H2].
  { apply in_map_iff. exists (N.to_nat q). split; [lia|]. apply in_seq. lia. }
  by destruct Hb as [-> | ->].
Qed.

Lemma surrogate_high_range x :
  let h := N.lor 0xD800 (N.land x 0x3FF) in 0xD800 <= h /\ h <= 0xDBFF.
Proof.
  simpl. change 0x3FF with (N.ones 10). rewrite N.land_ones.
  pose proof (N.mod_lt x (2 ^ 10) ltac:(done)) as Hlt. change (2 ^ 10) with 1024 in *.
  generalize dependent (x `mod` 1024). intros q Hq.
  rewrite lor_low_bits by auto. lia.
Qed.

Lemma surrogate_low_range x :
  let l := N.lor 0xDC00 (N.land x 0x3FF) in 0xDC00 <= l /\ l <= 0xDFFF.
Proof.
  simpl. change 0x3FF with (N.ones 10). rewrite N.land_ones.
  pose proof (N.mod_lt x (2 ^ 10) ltac:(done)) as Hlt. change (2 ^ 10) with 1024 in *.
  generalize dependent (x `mod` 1024). intros q Hq.
  rewrite lor_low_bits by auto. lia.
Qed.

Lemma escape_string_cons c r :
  escape_string (c :: r) = escape_char c ++ escape_string r.
Proof. done. Qed.

Lemma scanstring_u_escape c t :
  c < 0x10000 ->
  scanstring (u_escape c ++ t)
  = if is_high_surrogate c then
      match t with
      | b :: u :: r2' =>
          if (b =? 92) && (u =? 117) then
            read_hex4 r2'
              (fun uni2 r3 =>
                 if is_low_surrogate uni2
                 then push (join_surrogates c uni2) (scanstring r3)
                 else push c (scanstring t))
              None
          else push c (scanstring t)
      | _ => push c (scanstring t)
      end
    else push c (scanstring t).
Proof.
  intros Hc. unfold u_escape. cbn [app scanstring]. cbn [N.eqb Pos.eqb].
  by rewrite read_hex4_hex4.
Qed.

(** After a high surrogate the decoder looks for a low surrogate
    escape; the encoding of a character that is not a low surrogate
    never looks like one. *)
Lemma no_low_surrogate_ahead {T} c t (paired : N -> pystr -> T) (single bad : T) :
  is_low_surrogate c = false ->
  match escape_char c ++ t with
  | b :: u :: r2' =>
      if (b =? 92) && (u =? 117) then
        read_hex4 r2'
          (fun uni2 r3 => if is_low_surrogate uni2 then paired uni2 r3 else single)
          bad
      else single
  | _ => single
  end = single.
Proof.
  intros Hlow. unfold escape_char.
  destruct (N.eqb_spec c 34) as [->|]; [done|].
  destruct (N.eqb_spec c 92) as [->|]; [done|].
  destruct (N.eqb_spec c 10) as [->|]; [done|].
  destruct (N.eqb_spec c 13) as [->|]; [done|].
  destruct (N.eqb_spec c 9) as [->|]; [done|].
  destruct (N.eqb_spec c 8) as [->|]; [done|].
  destruct (N.eqb_spec c 12) as [->|]; [done|].
  destruct ((32 <=? c) && (c <=? 126)) eqn:Hp.
  { cbn [app]. destruct t as [|u t]; [done|]. by settle. }
  destruct (N.ltb_spec c 0x10000).
  - unfold u_escape. cbn [app]. cbn [N.eqb Pos.eqb andb].
    rewrite read_hex4_hex4 by done. by rewrite Hlow.
  - rewrite <- app_assoc. unfold u_escape at 1. cbn [app]. cbn [N.eqb Pos.eqb andb].
    destruct (surrogate_high_range (N.shiftr (c - 65536) 10)).
    rewrite read_hex4_hex4 by lia.
    unfold is_low_surrogate. by settle.
Qed.

(** Reading back an encoded string. *)
Lemma scanstring_escape_string s rest :
  scanstring (escape_string s ++ 34 :: rest) = Some (restring s, rest).
Proof.
  remember (length s) as n eqn:Hn. revert s Hn rest.
  induction n as [n IH] using lt_wf_ind. intros s Hn rest.
  destruct s as [|c r]; [done|].
  assert (forall rest, scanstring (escape_string r ++ 34 :: rest) = Some (restring r, rest)) as IHr.
  { intros. eapply IH; [|done]. simpl in Hn. lia. }
  rewrite escape_string_cons, <- app_assoc.
  unfold escape_char.
  destruct (N.eqb_spec c 34) as [->|]; [simpl; by rewrite IHr|].
  destruct (N.eqb_spec c 92) as [->|]; [simpl; by rewrite IHr|].
  destruct (N.eqb_spec c 10) as [->|]; [simpl; by rewrite IHr|].
  destruct (N.eqb_spec c 13) as [->|]; [simpl; by rewrite IHr|].
  destruct (N.eqb_spec c 9) as [->|]; [simpl; by rewrite IHr|].
  destruct (N.eqb_spec c 8) as [->|]; [simpl; by rewrite IHr|].
  destruct (N.eqb_spec c 12) as [->|]; [simpl; by rewrite IHr|].
  destruct ((32 <=? c) && (c <=? 126)) eqn:Hp.
  { (* printable *)
    apply andb_true_iff in Hp as [?%N.leb_le ?%N.leb_le].
    cbn [app scanstring restring]. unfold is_high_surrogate. settle.
    by rewrite IHr. }
  destruct (N.ltb_spec c 0x10000) as [Hc|Hc].
  - (* one escape *)
    rewrite scanstring_u_escape by done. cbn [restring].
    settle. destruct (is_high_surrogate c) eqn:Hhigh; [|by rewrite IHr].
    destruct r as [|c2 r2].
    + cbn [escape_string flat_map app]. destruct rest as [|u rest]; done.
    + rewrite escape_string_cons, <- app_assoc.
      destruct (is_low_surrogate c2) eqn:Hlow.
      * assert (escape_char c2 = u_escape c2) as ->.
        { unfold is_low_surrogate in Hlow.
          apply andb_true_iff in Hlow as [?%N.leb_le ?%N.leb_le].
          unfold escape_char. by settle. }
        unfold u_escape at 1. cbn [app]. cbn [N.eqb Pos.eqb andb].
        rewrite read_hex4_hex4.
        2:{ unfold is_low_surrogate in Hlow.
            apply andb_true_iff in Hlow as [?%N.leb_le ?%N.leb_le]. lia. }
        rewrite Hlow. erewrite IH; [done| |done]. simpl in Hn. lia.
      * rewrite no_low_surrogate_ahead by done.
        rewrite app_assoc, <- escape_string_cons. by rewrite IHr.
  - (* a surrogate pair *)
    rewrite <- app_assoc.
    destruct (surrogate_high_range (N.shiftr (c - 65536) 10)).
    destruct (surrogate_low_range (c - 65536)).
    rewrite scanstring_u_escape by lia. unfold is_high_surrogate at 1. settle.
    cbn [andb]. unfold u_escape at 1. cbn [app]. cbn [N.eqb Pos.eqb andb].
    rewrite read_hex4_hex4 by lia. unfold is_low_surrogate at 1. settle. cbn [andb].
    rewrite IHr. cbn [restring]. by settle.
Qed.

Lemma lor_shifted q r :
  r < 1024 -> N.lor (N.shiftl q 10) r = q * 1024 + r.
Proof.
  intros Hr.
  assert (N.land (N.shiftl q 10) r = 0) as Hdisj.
  { rewrite <- (N.mod_small r (2 ^ 10)) by done.
    rewrite <- N.land_ones, N.land_assoc, (N.land_comm _ r), <- N.land_assoc.
    rewrite (N.land_ones (N.shiftl q 10)), N.shiftl_mul_pow2, N.Div0.mod_mul.
    apply N.land_0_r. }
  rewrite <- N.lxor_lor, <- N.add_nocarry_lxor by done.
  by rewrite N.shiftl_mul_pow2.
Qed.

(** A character above the basic plane survives the surrogate pair. *)
Lemma astral_reread_id c :
  0x10000 <= c -> c < 0x110000 -> astral_reread c = c.
Proof.
  intros Hlo Hhi. unfold astral_reread, join_surrogates. cbv zeta.
  change 0x3FF with (N.ones 10). rewrite !N.land_ones, N.shiftr_div_pow2.
  change (2 ^ 10) with 1024.
  pose proof (N.div_mod (c - 65536) 1024 ltac:(done)) as Hdm.
  pose proof (N.mod_lt (c - 65536) 1024 ltac:(done)) as Hr.
  assert ((c - 65536) / 1024 < 1024) as Hq
    by (apply N.div_lt_upper_bound; [done|lia]).
  rewrite (N.mod_small _ 1024 Hq).
  generalize dependent ((c - 65536) `mod` 1024). intros r Hdm Hr.
  generalize dependent ((c - 65536) / 1024). intros q Hq Hdm.
  rewrite (lor_low_bits 55296 q), (lor_low_bits 56320 r) by auto.
  replace (55296 + q - 55296) with q by lia.
  replace (56320 + r - 56320) with r by lia.
  rewrite lor_shifted by done. lia.
Qed.

(** Text without surrogates is read back as it is. *)
Lemma restring_scalar s : forallb is_scalar s = true -> restring s = s.
Proof.
  induction s as [|c r IH]; [done|]. cbn [forallb restring].
  rewrite andb_true_iff. intros [Hc Hr]. rewrite (IH Hr).
  unfold is_scalar in Hc. unfold is_high_surrogate.
  apply orb_true_iff in Hc as [Hc%N.ltb_lt|[Hc1%N.leb_le Hc2%N.ltb_lt]%andb_true_iff].
  - by settle.
  - destruct (N.ltb_spec c 0x10000).
    + by settle.
    + by rewrite astral_reread_id.
Qed.

Lemma restring_app_ascii p s :
  forallb (fun c => c <? 128) p = true -> restring (p ++ s) = p ++ restring s.
Proof.
  induction p as [|c p IH]; [done|]. cbn [forallb app restring].
  rewrite andb_true_iff. intros [Hc%N.ltb_lt Hp]. rewrite (IH Hp).
  unfold is_high_surrogate. by settle.
Qed.

(** ** The decoder reads back what the encoder writes: numbers *)

Lemma span_digits_app ds rest :
  forallb is_digit ds = true ->
  match rest with [] => true | c :: _ => negb (is_digit c) end = true ->
  span_digits (ds ++ rest) = (ds, rest).
Proof.
  intros Hds Hrest. induction ds as [|d ds IH]; simpl in *.
  - destruct rest as [|c rest]; [done|]. simpl.
    by apply negb_true_iff in Hrest as ->.
  - apply andb_true_iff in Hds as [-> Hds]. by rewrite IH.
Qed.

Lemma uint_chars_digits d : forallb is_digit (uint_chars d) = true.
Proof. induction d; simpl; try done. Qed.

Lemma nat_of_digits_acc ds acc :
  fold_left (fun a c => a * 10 + (c - 48)) ds acc
  = acc * 10 ^ N.of_nat (length ds) + nat_of_digits ds.
Proof.
  unfold nat_of_digits. revert acc. induction ds as [|d ds IH]; intros acc.
  - simpl. lia.
  - cbn [fold_left length]. rewrite IH, (IH (0 * 10 + (d - 48))).
    rewrite Nat2N.inj_succ, N.pow_succ_r'. lia.
Qed.

Lemma nat_of_digits_cons c ds :
  nat_of_digits (c :: ds)
  = (c - 48) * 10 ^ N.of_nat (length ds) + nat_of_digits ds.
Proof.
  unfold nat_of_digits at 1. cbn [fold_left]. rewrite nat_of_digits_acc. lia.
Qed.

Lemma of_uint_acc_chars d acc :
  Npos (Pos.of_uint_acc d acc)
  = Npos acc * 10 ^ N.of_nat (length (uint_chars d)) + nat_of_digits (uint_chars d).
Proof.
  revert acc. induction d; intros acc; cbn [Pos.of_uint_acc uint_chars length];
    [unfold nat_of_digits; simpl; lia|..].
  all: rewrite IHd, nat_of_digits_cons, Nat2N.inj_succ, N.pow_succ_r';
    unfold digit_char;
    generalize (10 ^ N.of_nat (length (uint_chars d)));
    generalize (nat_of_digits (uint_chars d)); intros; lia.
Qed.

Lemma of_uint_chars d : Pos.of_uint d = nat_of_digits (uint_chars d).
Proof.
  induction d; cbn [Pos.of_uint uint_chars]; [done|..].
  all: rewrite nat_of_digits_cons; unfold digit_char;
    rewrite ?of_uint_acc_chars, ?IHd;
    generalize (10 ^ N.of_nat (length (uint_chars d)));
    generalize (nat_of_digits (uint_chars d)); intros; lia.
Qed.

Lemma nat_of_digits_to_uint p : nat_of_digits (uint_chars (Pos.to_uint p)) = Npos p.
Proof. rewrite <- of_uint_chars. apply DecimalPos.Unsigned.of_to. Qed.

(** The decimal digits of a positive number start with a digit other
    than zero. *)
Lemma to_uint_head p :
  exists c ds, uint_chars (Pos.to_uint p) = c :: ds /\
    c <> 48 /\ is_digit c = true /\ forallb is_digit ds = true.
Proof.
  pose proof (uint_chars_digits (Pos.to_uint p)) as Hdig.
  assert (Pos.to_uint p = Decimal.unorm (Pos.to_uint p)) as Hnorm.
  { rewrite <- (DecimalPos.Unsigned.to_of (Pos.to_uint p)).
    by rewrite DecimalPos.Unsigned.of_to. }
  pose proof (DecimalPos.Unsigned.to_uint_nonnil p) as Hnil.
  pose proof (DecimalPos.Unsigned.to_uint_nonzero p) as Hzero.
  destruct (Pos.to_uint p) as [|d|d|d|d|d|d|d|d|d|d] eqn:E; [done|..].
  2-10: cbn [uint_chars] in *; cbn [forallb] in Hdig;
    apply andb_true_iff in Hdig as [Hc Hds]; do 2 eexists;
    split; [reflexivity|]; split; [done|]; split; assumption.
  exfalso. rewrite DecimalFacts.unorm_D0 in Hnorm.
  assert (d <> Decimal.Nil) as Hd by (by intros ->).
  pose proof (DecimalFacts.nb_digits_unorm d Hd) as Hle.
  rewrite <- Hnorm in Hle. simpl in Hle. lia.
Qed.

Lemma span_digits_split s ds r : span_digits s = (ds, r) -> s = ds ++ r.
Proof.
  revert ds r. induction s as [|c s IH]; intros ds r; simpl.
  - by intros [= <- <-].
  - destruct (is_digit c); [|by intros [= <- <-]].
    destruct (span_digits s) as [ds' r'] eqn:E. intros [= <- <-].
    by rewrite (IH _ _ eq_refl).
Qed.

(** What may follow a value does not continue a number. *)
Lemma delimited_not_digit rest :
  delimited rest = true ->
  match rest with [] => true | c :: _ => negb (is_digit c) end = true.
Proof.
  destruct rest as [|c rest]; [done|]. simpl. unfold is_digit.
  rewrite !orb_true_iff, !N.eqb_eq. intros [[->| ->]| ->]; done.
Qed.

Lemma span_digits_more s ds r rest :
  span_digits s = (ds, r) -> delimited rest = true ->
  span_digits (s ++ rest) = (ds, r ++ rest).
Proof.
  intros Hs Hrest. revert ds r Hs. induction s as [|c s IH]; intros ds r; simpl.
  - intros [= <- <-]. apply delimited_not_digit in Hrest.
    destruct rest as [|c rest]; [done|]. simpl.
    by apply negb_true_iff in Hrest as ->.
  - destruct (is_digit c); [|by intros [= <- <-]].
    destruct (span_digits s) as [ds' r'] eqn:E. intros [= <- <-].
    by rewrite (IH _ _ eq_refl).
Qed.

Lemma scan_unsigned_more s ds r rest :
  scan_unsigned s = Some (ds, r) -> delimited rest = true ->
  scan_unsigned (s ++ rest) = Some (ds, r ++ rest).
Proof.
  intros Hs Hrest. destruct s as [|c s]; [done|]. simpl in *.
  destruct (c =? 48); [by injection Hs as <- <-|].
  destruct (is_digit c); [|done].
  destruct (span_digits s) as [ds' r'] eqn:E. injection Hs as <- <-.
  by rewrite (span_digits_more _ _ _ _ E Hrest).
Qed.

Lemma scan_integer_more s ds r rest :
  scan_integer s = Some (ds, r) -> delimited rest = true ->
  scan_integer (s ++ rest) = Some (ds, r ++ rest).
Proof.
  intros Hs Hrest. destruct s as [|c s]; [done|].
  cbn [scan_integer app] in *. destruct (c =? 45).
  - destruct (scan_unsigned s) as [[ds' r']|] eqn:E; [|done].
    injection Hs as <- <-. by rewrite (scan_unsigned_more _ _ _ _ E Hrest).
  - by apply (scan_unsigned_more (c :: s)).
Qed.

Lemma scan_frac_more s fp r rest :
  scan_frac s = (fp, r) -> delimited rest = true ->
  scan_frac (s ++ rest) = (fp, r ++ rest).
Proof.
  intros Hs Hrest. destruct s as [|c s].
  - injection Hs as <- <-. destruct rest as [|c rest]; [done|]. simpl in *.
    rewrite !orb_true_iff, !N.eqb_eq in Hrest.
    by destruct Hrest as [[->| ->]| ->].
  - cbn [scan_frac app] in *. destruct (c =? 46); [|by injection Hs as <- <-].
    destruct (span_digits s) as [ds' r'] eqn:E.
    rewrite (span_digits_more _ _ _ _ E Hrest).
    destruct ds'; by injection Hs as <- <-.
Qed.

Lemma scan_exp_more s ep r rest :
  scan_exp s = (ep, r) -> delimited rest = true ->
  scan_exp (s ++ rest) = (ep, r ++ rest).
Proof.
  intros Hs Hrest. destruct s as [|c s].
  - injection Hs as <- <-. destruct rest as [|c rest]; [done|]. simpl in *.
    rewrite !orb_true_iff, !N.eqb_eq in Hrest.
    by destruct Hrest as [[->| ->]| ->].
  - cbn [scan_exp app] in *.
    destruct ((c =? 101) || (c =? 69)); [|by injection Hs as <- <-].
    destruct s as [|sg s].
    + injection Hs as <- <-. destruct rest as [|c' rest]; [done|]. simpl in *.
      rewrite !orb_true_iff, !N.eqb_eq in Hrest.
      by destruct Hrest as [[->| ->]| ->].
    + cbn [app]. destruct ((sg =? 45) || (sg =? 43)).
      * destruct (span_digits s) as [ds' r'] eqn:E.
        rewrite (span_digits_more _ _ _ _ E Hrest).
        destruct ds'; by injection Hs as <- <-.
      * destruct (span_digits (sg :: s)) as [ds' r'] eqn:E.
        change (sg :: s ++ rest) with ((sg :: s) ++ rest).
        rewrite (span_digits_more (sg :: s) _ _ _ E Hrest).
        destruct ds'; by injection Hs as <- <-.
Qed.

(** A number token stays the same token when what may follow a value
    is put after it. *)
Lemma scan_number_more s v r rest :
  scan_number s = Some (v, r) -> delimited rest = true ->
  scan_number (s ++ rest) = Some (v, r ++ rest).
Proof.
  unfold scan_number. intros Hs Hrest.
  destruct (scan_integer s) as [[ip r0]|] eqn:Ei; [|done].
  rewrite (scan_integer_more _ _ _ _ Ei Hrest).
  destruct (scan_frac r0) as [fp r1] eqn:Ef.
  rewrite (scan_frac_more _ _ _ _ Ef Hrest).
  destruct (scan_exp r1) as [ep r2] eqn:Ee.
  rewrite (scan_exp_more _ _ _ _ Ee Hrest).
  destruct fp, ep; by injection Hs as <- <-.
Qed.

Lemma scan_unsigned_split s ds r : scan_unsigned s = Some (ds, r) -> s = ds ++ r.
Proof.
  destruct s as [|c s]; [done|]. simpl.
  destruct (c =? 48); [by intros [= <- <-]|].
  destruct (is_digit c); [|done].
  destruct (span_digits s) as [ds' r'] eqn:E. intros [= <- <-].
  by rewrite (span_digits_split _ _ _ E).
Qed.

Lemma scan_integer_split s ds r : scan_integer s = Some (ds, r) -> s = ds ++ r.
Proof.
  destruct s as [|c s]; [done|]. cbn [scan_integer]. destruct (c =? 45).
  - destruct (scan_unsigned s) as [[ds' r']|] eqn:E; [|done].
    intros [= <- <-]. by rewrite (scan_unsigned_split _ _ _ E).
  - apply scan_unsigned_split.
Qed.

Lemma scan_frac_split s fp r : scan_frac s = (fp, r) -> s = fp ++ r.
Proof.
  destruct s as [|c s]; [by intros [= <- <-]|]. cbn [scan_frac].
  destruct (c =? 46); [|by intros [= <- <-]].
  destruct (span_digits s) as [ds' r'] eqn:E.
  apply span_digits_split in E as ->. destruct ds'; by intros [= <- <-].
Qed.

Lemma scan_exp_split s ep r : scan_exp s = (ep, r) -> s = ep ++ r.
Proof.
  destruct s as [|c s]; [by intros [= <- <-]|]. cbn [scan_exp].
  destruct ((c =? 101) || (c =? 69)); [|by intros [= <- <-]].
  destruct s as [|sg s]; [by intros [= <- <-]|].
  destruct ((sg =? 45) || (sg =? 43)).
  - destruct (span_digits s) as [ds' r'] eqn:E.
    apply span_digits_split in E as ->. destruct ds'; by intros [= <- <-].
  - destruct (span_digits (sg :: s)) as [ds' r'] eqn:E.
    apply span_digits_split in E. destruct ds'; intros [= <- <-]; [done|].
    by rewrite E.
Qed.

(** The float a number token is read as carries the text consumed. *)
Lemma scan_number_float_text s x r :
  scan_number s = Some (PFloat x, r) -> s = x ++ r.
Proof.
  unfold scan_number.
  destruct (scan_integer s) as [[ip r0]|] eqn:Ei; [|done].
  destruct (scan_frac r0) as [fp r1] eqn:Ef.
  destruct (scan_exp r1) as [ep r2] eqn:Ee.
  apply scan_integer_split in Ei as ->. apply scan_frac_split in Ef as ->.
  apply scan_exp_split in Ee as ->.
  destruct fp, ep; intros H; simplify_eq; by simplify_list_eq.
Qed.

(** A number token starts with a digit or a minus sign. *)
Lemma scan_number_head s v r :
  scan_number s = Some (v, r) ->
  exists c s', s = c :: s' /\
    ((is_digit c = true) \/ (c = 45 /\ exists d s'', s' = d :: s'' /\ is_digit d = true)).
Proof.
  unfold scan_number.
  destruct (scan_integer s) as [[ip r0]|] eqn:Ei; [|done]. intros _.
  destruct s as [|c s]; [done|]. exists c, s. split; [done|].
  cbn [scan_integer] in Ei. destruct (N.eqb_spec c 45) as [->|].
  - right. split; [done|]. destruct s as [|d s]; [done|]. exists d, s.
    split; [done|]. simpl in Ei.
    destruct (N.eqb_spec d 48) as [->|]; [done|]. by destruct (is_digit d).
  - left. simpl in Ei. destruct (N.eqb_spec c 48) as [->|]; [done|].
    by destruct (is_digit c).
Qed.

Lemma scan_literal_digit c s : is_digit c = true -> scan_literal (c :: s) = None.
Proof.
  unfold is_digit. intros [?%N.leb_le ?%N.leb_le]%andb_true_iff.
  unfold scan_literal. cbn. unfold char_eqb. by settle.
Qed.

Lemma scan_literal_minus_digit d s :
  is_digit d = true -> scan_literal (45 :: d :: s) = None.
Proof.
  unfold is_digit. intros [?%N.leb_le ?%N.leb_le]%andb_true_iff.
  unfold scan_literal. cbn. unfold char_eqb. by settle.
Qed.

Lemma span_digits_all ds :
  forallb is_digit ds = true -> span_digits ds = (ds, []).
Proof.
  intros H. rewrite <- (app_nil_r ds) at 1. by apply span_digits_app.
Qed.

Lemma scan_unsigned_to_uint p :
  scan_unsigned (uint_chars (Pos.to_uint p))
  = Some (uint_chars (Pos.to_uint p), []).
Proof.
  destruct (to_uint_head p) as (c & ds & -> & Hc & Hd & Hds). simpl.
  rewrite (proj2 (N.eqb_neq c 48) Hc), Hd. by rewrite span_digits_all.
Qed.

(** An integer is read back from its decimal text. *)
Lemma scan_number_int_repr z : scan_number (int_repr z) = Some (PInt z, []).
Proof.
  unfold scan_number. destruct z as [|p|p]; cbn [int_repr].
  - done.
  - destruct (to_uint_head p) as (c & ds & E & Hc & Hd & Hds).
    assert (scan_integer (uint_chars (Pos.to_uint p))
            = Some (uint_chars (Pos.to_uint p), [])) as ->.
    { rewrite E. cbn [scan_integer]. unfold is_digit in Hd.
      apply andb_true_iff in Hd as [?%N.leb_le ?%N.leb_le].
      rewrite (proj2 (N.eqb_neq c 45)) by lia.
      rewrite <- E. apply scan_unsigned_to_uint. }
    cbn. do 2 f_equal. unfold int_of_chars. rewrite E.
    unfold is_digit in Hd. apply andb_true_iff in Hd as [?%N.leb_le ?%N.leb_le].
    rewrite (proj2 (N.eqb_neq c 45)) by lia.
    by rewrite <- E, nat_of_digits_to_uint.
  - cbn [scan_integer]. cbn [N.eqb Pos.eqb]. rewrite scan_unsigned_to_uint.
    cbn. do 2 f_equal. by rewrite nat_of_digits_to_uint.
Qed.

(** The six literals. *)
Lemma scan_literal_full t v :
  scan_literal t = Some (v, []) ->
  (t = py "null" /\ v = PNone) \/ (t = py "true" /\ v = PBool true) \/
  (t = py "false" /\ v = PBool false) \/
  ((t = py "NaN" \/ t = py "Infinity" \/ t = py "-Infinity") /\ v = PFloat t).
Proof.
  unfold scan_literal.
  destruct (match_at (py "null") t) as [r|] eqn:E1.
  { intros [= <- ->]. apply match_at_Some in E1. rewrite app_nil_r in E1. auto. }
  destruct (match_at (py "true") t) as [r|] eqn:E2.
  { intros [= <- ->]. apply match_at_Some in E2. rewrite app_nil_r in E2. auto. }
  destruct (match_at (py "false") t) as [r|] eqn:E3.
  { intros [= <- ->]. apply match_at_Some in E3. rewrite app_nil_r in E3. auto 6. }
  destruct (match_at (py "NaN") t) as [r|] eqn:E4.
  { intros [= <- ->]. apply match_at_Some in E4. rewrite app_nil_r in E4.
    subst t. auto 8. }
  destruct (match_at (py "Infinity") t) as [r|] eqn:E5.
  { intros [= <- ->]. apply match_at_Some in E5. rewrite app_nil_r in E5.
    subst t. auto 8. }
  destruct (match_at (py "-Infinity") t) as [r|] eqn:E6; [|done].
  intros [= <- ->]. apply match_at_Some in E6. rewrite app_nil_r in E6.
  subst t. auto 8.
Qed.

(** The head of [scan_once] on a token that is neither a string, nor
    an array, nor an object. *)
Lemma scan_once_token fuel c s :
  c <> 34 -> c <> 123 -> c <> 91 ->
  scan_once (S fuel) (c :: s)
  = match scan_literal (c :: s) with
    | Some res => Some res
    | None => scan_number (c :: s)
    end.
Proof. intros. cbn [scan_once]. by settle. Qed.

(** One float token, followed by what may follow a value, is read as
    the float that carries the token. *)
Lemma scan_once_float fuel t rest :
  is_float_token t = true -> delimited rest = true ->
  scan_once (S fuel) (t ++ rest) = Some (PFloat t, rest).
Proof.
  unfold is_float_token. intros Ht Hrest.
  destruct (scan_literal t) as [[v r]|] eqn:El.
  - destruct v; try done. destruct r; [|done].
    apply scan_literal_full in El
      as [[_ [=]]|[[_ [=]]|[[_ [=]]|[[->|[->| ->]] _]]]]; done.
  - destruct (scan_number t) as [[v r]|] eqn:En; [|done].
    destruct v; try done. destruct r; [|done].
    pose proof (scan_number_float_text _ _ _ En) as Hx.
    rewrite app_nil_r in Hx. subst x.
    pose proof (scan_number_more _ _ _ _ En Hrest) as Hmore.
    destruct (scan_number_head _ _ _ En) as (c & s' & -> & Hc).
    change ((c :: s') ++ rest) with (c :: (s' ++ rest)) in *.
    destruct Hc as [Hc|[-> (d & s'' & -> & Hd)]].
    + assert (c <> 34 /\ c <> 123 /\ c <> 91) as (? & ? & ?).
      { unfold is_digit in Hc.
        apply andb_true_iff in Hc as [?%N.leb_le ?%N.leb_le]. lia. }
      rewrite scan_once_token by done. by rewrite scan_literal_digit.
    + rewrite scan_once_token by done.
      change ((d :: s'') ++ rest) with (d :: (s'' ++ rest)).
      by rewrite scan_literal_minus_digit.
Qed.

(** The same for the decimal text of an integer. *)
Lemma scan_once_int fuel z rest :
  delimited rest = true ->
  scan_once (S fuel) (int_repr z ++ rest) = Some (PInt z, rest).
Proof.
  intros Hrest.
  pose proof (scan_number_more _ _ _ _ (scan_number_int_repr z) Hrest) as Hmore.
  destruct (scan_number_head _ _ _ (scan_number_int_repr z)) as (c & s' & E & Hc).
  rewrite E in *. change ((c :: s') ++ rest) with (c :: (s' ++ rest)) in *.
  destruct Hc as [Hc|[-> (d & s'' & -> & Hd)]].
  - assert (c <> 34 /\ c <> 123 /\ c <> 91) as (? & ? & ?).
    { unfold is_digit in Hc.
      apply andb_true_iff in Hc as [?%N.leb_le ?%N.leb_le]. lia. }
    rewrite scan_once_token by done. by rewrite scan_literal_digit.
  - rewrite scan_once_token by done.
    change ((d :: s'') ++ rest) with (d :: (s'' ++ rest)).
    by rewrite scan_literal_minus_digit.
Qed.

(** ** The decoder reads back what the encoder writes: values *)

Lemma pyval_ind (P : pyval -> Prop) :
  P PNone -> (forall b, P (PBool b)) -> (forall z, P (PInt z)) ->
  (forall x, P (PFloat x)) -> (forall s, P (PStr s)) ->
  (forall l, Forall P l -> P (PList l)) ->
  (forall d, Forall (fun kv => P (snd kv)) d -> P (PDict d)) ->
  forall v, P v.
Proof.
  intros HN HB HI HF HS HL HD. fix IH 1. intros [|b|z|x|s|l|d].
  - exact HN.
  - apply HB.
  - apply HI.
  - apply HF.
  - apply HS.
  - apply HL. induction l as [|v l IHl]; constructor; [apply IH|exact IHl].
  - apply HD. induction d as [|[k v] d IHd]; constructor; [apply IH|exact IHd].
Qed.

Lemma skip_ws_head c s : is_ws c = false -> skip_ws (c :: s) = c :: s.
Proof. intros H. simpl. by rewrite H. Qed.

Lemma is_float_token_head t :
  is_float_token t = true ->
  exists c s, t = c :: s /\ is_ws c = false /\ c <> 93 /\ c <> 125 /\ c < 128.
Proof.
  unfold is_float_token. intros Ht.
  destruct (scan_literal t) as [[v r]|] eqn:El.
  - destruct v; try done. destruct r; [|done].
    apply scan_literal_full in El
      as [[_ [=]]|[[_ [=]]|[[_ [=]]|[[->|[->| ->]] _]]]]; by do 2 eexists.
  - destruct (scan_number t) as [[v r]|] eqn:En; [|done].
    destruct (scan_number_head _ _ _ En) as (c & s' & -> & Hc).
    exists c, s'. split; [done|].
    destruct Hc as [Hc|[-> _]]; [|done].
    unfold is_digit in Hc. apply andb_true_iff in Hc as [?%N.leb_le ?%N.leb_le].
    unfold is_ws. settle. repeat split; [lia..].
Qed.

Section ReadBack.
Variable fr : pyfloat -> pystr.

(** The text of a value starts with a character that is neither
    white space nor a closing bracket or brace. *)
Lemma json_dumps_head v :
  floats_print fr v = true ->
  exists c s, json_dumps fr v = c :: s /\
    is_ws c = false /\ c <> 93 /\ c <> 125 /\ c < 128.
Proof.
  destruct v as [|[]|z|x|s|l|d]; cbn [json_dumps floats_print]; intros Hf;
    try (by do 2 eexists).
  - pose proof (scan_number_int_repr z) as Hz.
    destruct (scan_number_head _ _ _ Hz) as (c & s' & -> & Hc).
    exists c, s'. split; [done|].
    destruct Hc as [Hc|[-> _]]; [|done].
    unfold is_digit in Hc. apply andb_true_iff in Hc as [?%N.leb_le ?%N.leb_le].
    unfold is_ws. settle. repeat split; [lia..].
  - by apply is_float_token_head.
Qed.

Lemma skip_ws_json_dumps v rest :
  floats_print fr v = true ->
  skip_ws (json_dumps fr v ++ rest) = json_dumps fr v ++ rest.
Proof.
  intros Hf. destruct (json_dumps_head v Hf) as (c & s & -> & Hc & _).
  by apply skip_ws_head.
Qed.

Lemma join_cons2 sep (x y : pystr) l :
  join sep (x :: y :: l) = x ++ sep ++ join sep (y :: l).
Proof. done. Qed.

(** The items of an array, up to its closing bracket. *)
Lemma parse_items_dumps l rest :
  l <> [] ->
  Forall (fun v => floats_print fr v = true -> forall rest,
            delimited rest = true ->
            exists n, forall fuel, (n <= fuel)%nat ->
              scan_once fuel (json_dumps fr v ++ rest) = Some (reread fr v, rest)) l ->
  forallb (floats_print fr) l = true ->
  exists n, forall fuel, (n <= fuel)%nat ->
    parse_items fuel (join (py ", ") (List.map (json_dumps fr) l) ++ 93 :: rest)
    = Some (List.map (reread fr) l, rest).
Proof.
  intros Hne Hall Hf. induction l as [|v l IHl]; [done|]. clear Hne.
  inversion Hall as [|? ? Hv Hall']; subst. clear Hall. rename Hall' into Hall.
  cbn [forallb] in Hf. apply andb_true_iff in Hf as [Hfv Hfl].
  destruct l as [|v2 l].
  - destruct (Hv Hfv (93 :: rest) eq_refl) as [n Hn].
    exists (S n). intros [|fuel] Hfuel; [lia|].
    cbn [List.map join parse_items]. rewrite Hn by lia. done.
  - destruct (IHl ltac:(done) Hall Hfl) as [m Hm].
    cbn [List.map]. rewrite join_cons2. change (py ", ") with [44; 32] in *.
    rewrite <- !app_assoc.
    destruct (Hv Hfv ([44; 32] ++ join [44; 32] (List.map (json_dumps fr) (v2 :: l)) ++ 93 :: rest) eq_refl)
      as [n Hn].
    exists (S (max n m)). intros [|fuel] Hfuel; [lia|].
    cbn [parse_items]. rewrite Hn by lia.
    cbn [app skip_ws is_ws N.eqb Pos.eqb orb].
    assert (skip_ws (join [44; 32] (List.map (json_dumps fr) (v2 :: l)) ++ 93 :: rest)
            = join [44; 32] (List.map (json_dumps fr) (v2 :: l)) ++ 93 :: rest) as ->.
    { cbn [forallb] in Hfl. apply andb_true_iff in Hfl as [Hf2 _].
      destruct (json_dumps_head v2 Hf2) as (c & s & E & Hc & _).
      cbn [List.map]. destruct l; cbn [List.map join]; rewrite E;
        by apply skip_ws_head. }
    rewrite (Hm fuel) by lia. done.
Qed.

(** The members of an object, up to its closing brace. *)
Lemma parse_members_dumps (d : list (pystr * pyval)) rest :
  d <> [] ->
  Forall (fun kv => floats_print fr (snd kv) = true -> forall rest,
            delimited rest = true ->
            exists n, forall fuel, (n <= fuel)%nat ->
              scan_once fuel (json_dumps fr (snd kv) ++ rest)
              = Some (reread fr (snd kv), rest)) d ->
  forallb (fun kv => floats_print fr (snd kv)) d = true ->
  exists n, forall fuel, (n <= fuel)%nat ->
    parse_members fuel
      (join (py ", ")
         (List.map (fun kv => encode_string (fst kv) ++ py ": "
                                ++ json_dumps fr (snd kv)) d)
         ++ 125 :: rest)
    = Some (List.map (fun kv => (restring (fst kv), reread fr (snd kv))) d, rest).
Proof.
  intros Hne Hall Hf. induction d as [|[k v] d IHd]; [done|]. clear Hne.
  inversion Hall as [|? ? Hv Hall']; subst. clear Hall. rename Hall' into Hall.
  cbn [forallb fst snd] in Hf, Hv. apply andb_true_iff in Hf as [Hfv Hfd].
  change (py ", ") with [44; 32] in *. change (py ": ") with [58; 32] in *.
  unfold encode_string in *.
  destruct d as [|[k2 v2] d].
  - destruct (Hv Hfv (125 :: rest) eq_refl) as [n Hn].
    exists (S n). intros [|fuel] Hfuel; [lia|].
    cbn [List.map join fst snd]. rewrite <- !app_assoc.
    cbn [app parse_members N.eqb Pos.eqb].
    rewrite scanstring_escape_string.
    cbn [skip_ws is_ws N.eqb Pos.eqb orb].
    rewrite skip_ws_json_dumps by done. rewrite Hn by lia. done.
  - destruct (IHd ltac:(done) Hall Hfd) as [m Hm].
    cbn [List.map fst snd] in *. rewrite join_cons2.
    match goal with
    | |- context [[44; 32] ++ ?J0] =>
        set (J := J0);
        assert (exists s, J = 34 :: s) as [s HJ]
          by (subst J; destruct d; cbn [join app]; by eexists);
        assert (forall fuel, (m <= fuel)%nat ->
                  parse_members fuel (J ++ 125 :: rest)
                  = Some ((restring k2, reread fr v2)
                            :: List.map (fun kv => (restring (fst kv), reread fr (snd kv))) d,
                          rest)) as HmJ by exact Hm;
        clear Hm; clearbody J
    end.
    rewrite <- !app_assoc.
    match goal with
    | |- context [json_dumps fr v ++ ?X] =>
        destruct (Hv Hfv X eq_refl) as [n Hn]
    end.
    exists (S (max n m)). intros [|fuel] Hfuel; [lia|].
    cbn [app parse_members N.eqb Pos.eqb].
    rewrite scanstring_escape_string.
    cbn [skip_ws is_ws N.eqb Pos.eqb orb].
    rewrite skip_ws_json_dumps by done. rewrite Hn by lia.
    cbn [app skip_ws is_ws N.eqb Pos.eqb orb].
    assert (skip_ws (J ++ 125 :: rest) = J ++ 125 :: rest) as ->
      by (by rewrite HJ).
    rewrite (HmJ fuel) by lia. done.
Qed.

(** With enough fuel, the decoder reads a value back from its text,
    whatever may follow a value comes after it. *)
Lemma scan_once_dumps v :
  floats_print fr v = true -> forall rest, delimited rest = true ->
  exists n, forall fuel, (n <= fuel)%nat ->
    scan_once fuel (json_dumps fr v ++ rest) = Some (reread fr v, rest).
Proof.
  induction v as [|b|z|x|s|l IHl|d IHd] using pyval_ind; intros Hf rest Hrest.
  - exists 1%nat. intros [|fuel] ?; [lia|]. done.
  - exists 1%nat. intros [|fuel] ?; [lia|]. by destruct b.
  - exists 1%nat. intros [|fuel] ?; [lia|]. by apply scan_once_int.
  - exists 1%nat. intros [|fuel] ?; [lia|]. by apply scan_once_float.
  - exists 1%nat. intros [|fuel] ?; [lia|].
    cbn [json_dumps reread]. unfold encode_string. rewrite <- !app_assoc.
    cbn [app scan_once N.eqb Pos.eqb]. by rewrite scanstring_escape_string.
  - cbn [json_dumps reread floats_print] in *.
    change (py "[") with [91]. change (py "]") with [93].
    rewrite <- !app_assoc. cbn [app].
    destruct l as [|v l].
    + exists 1%nat. intros [|fuel] ?; [lia|]. done.
    + destruct (parse_items_dumps (v :: l) rest ltac:(done) IHl Hf) as [n Hn].
      exists (S n). intros [|fuel] ?; [lia|].
      cbn [scan_once N.eqb Pos.eqb].
      cbn [forallb] in Hf. apply andb_true_iff in Hf as [Hfv _].
      destruct (json_dumps_head v Hfv) as (c & s & E & Hws & Hc & _).
      assert (exists s', join (py ", ") (List.map (json_dumps fr) (v :: l)) ++ 93 :: rest
                         = c :: s') as [s' E'].
      { cbn [List.map]. destruct l; cbn [List.map join]; rewrite E; by eexists. }
      specialize (Hn fuel ltac:(lia)). rewrite E' in Hn |- *.
      rewrite skip_ws_head by done. settle. by rewrite Hn.
  - cbn [json_dumps reread floats_print] in *.
    change (py "{") with [123]. change (py "}") with [125].
    rewrite <- !app_assoc. cbn [app].
    destruct d as [|[k v] d].
    + exists 1%nat. intros [|fuel] ?; [lia|]. done.
    + destruct (parse_members_dumps ((k, v) :: d) rest ltac:(done) IHd Hf) as [n Hn].
      exists (S n). intros [|fuel] ?; [lia|].
      cbn [scan_once N.eqb Pos.eqb].
      match type of Hn with
      | context [parse_members _ ?Y] =>
          assert (exists s', Y = 34 :: s') as [s' E']
            by (cbn [List.map fst snd]; unfold encode_string;
                destruct d; cbn [List.map join app]; by eexists)
      end.
      specialize (Hn fuel ltac:(lia)). rewrite E' in Hn |- *.
      cbn [skip_ws is_ws N.eqb Pos.eqb orb]. by rewrite Hn.
Qed.
End ReadBack.

(** ** The fuel of the decoder *)

Lemma skip_ws_length s : (length (skip_ws s) <= length s)%nat.
Proof. induction s as [|c s IH]; simpl; [lia|]. destruct (is_ws c); simpl; lia. Qed.

Lemma push_Some_inv c r t rest :
  push c r = Some (t, rest) -> exists t', r = Some (t', rest).
Proof. destruct r as [[t' rest']|]; [|done]. intros [= <- <-]. by eexists. Qed.

Lemma read_hex4_inv {T} s (k : N -> pystr -> T) bad res :
  read_hex4 s k bad = res ->
  res = bad \/ exists h1 h2 h3 h4 r u, s = h1 :: h2 :: h3 :: h4 :: r /\ res = k u r.
Proof.
  unfold read_hex4. destruct s as [|h1 [|h2 [|h3 [|h4 r]]]]; auto.
  destruct (hex4_val h1 h2 h3 h4); auto. intros <-. right. by repeat eexists.
Qed.

(** Every scanner consumes at least one character. *)
Lemma scanstring_shrink s t r :
  scanstring s = Some (t, r) -> (length r < length s)%nat.
Proof.
  remember (length s) as n eqn:Hn. revert s Hn t r.
  induction n as [n IH] using lt_wf_ind. intros s -> t r.
  assert (forall s' c t r, (length s' < length s)%nat ->
            push c (scanstring s') = Some (t, r) -> (length r < length s)%nat) as Hpush.
  { intros s' c t' r' Hlt [t'' H]%push_Some_inv.
    eapply IH in H; [|exact Hlt|done]. lia. }
  destruct s as [|c s]; [done|]. cbn [scanstring].
  destruct (c =? 34); [intros [= <- <-]; simpl; lia|].
  destruct (c =? 92); [|destruct (c <? 32); [done|]; apply Hpush; simpl; lia].
  destruct s as [|e s]; [done|].
  destruct (e =? 117).
  2:{ destruct (simple_escape e); [|done]. apply Hpush; simpl; lia. }
  intros [H|(h1 & h2 & h3 & h4 & r2 & u & -> & H)]%read_hex4_inv; [done|].
  symmetry in H.
  destruct (is_high_surrogate u); [|revert H; apply Hpush; simpl; lia].
  destruct r2 as [|b [|u' r2']]; try (revert H; apply Hpush; simpl; lia).
  destruct ((b =? 92) && (u' =? 117)); [|revert H; apply Hpush; simpl; lia].
  apply read_hex4_inv in H as [H|(g1 & g2 & g3 & g4 & r3 & u2 & -> & H)]; [done|].
  symmetry in H.
  destruct (is_low_surrogate u2); revert H; apply Hpush; simpl; lia.
Qed.

Lemma scan_literal_shrink s v r :
  scan_literal s = Some (v, r) -> (length r < length s)%nat.
Proof.
  unfold scan_literal.
  repeat match goal with
  | |- context [match_at ?p s] =>
      let E := fresh "E" in
      destruct (match_at p s) eqn:E;
      [apply match_at_Some in E as ->; intros [= <- <-];
       rewrite length_app; simpl; lia|]
  end.
  done.
Qed.

Lemma scan_integer_nonempty s ds r : scan_integer s = Some (ds, r) -> ds <> [].
Proof.
  destruct s as [|c s]; [done|]. cbn [scan_integer].
  destruct (c =? 45).
  - destruct (scan_unsigned s) as [[]|]; [|done]. by intros [= <- <-].
  - simpl. destruct (c =? 48); [by intros [= <- <-]|].
    destruct (is_digit c); [|done]. destruct (span_digits s). by intros [= <- <-].
Qed.

Lemma scan_number_shrink s v r :
  scan_number s = Some (v, r) -> (length r < length s)%nat.
Proof.
  unfold scan_number.
  destruct (scan_integer s) as [[ip r0]|] eqn:Ei; [|done].
  destruct (scan_frac r0) as [fp r1] eqn:Ef.
  destruct (scan_exp r1) as [ep r2] eqn:Ee.
  pose proof (scan_integer_nonempty _ _ _ Ei) as Hne.
  apply scan_integer_split in Ei as ->. apply scan_frac_split in Ef as ->.
  apply scan_exp_split in Ee as ->.
  intros H. assert (r = r2) as -> by (destruct fp, ep; by simplify_eq).
  rewrite !length_app. destruct ip; [done|]. simpl. lia.
Qed.

Lemma decoder_shrink fuel :
  (forall s v r, scan_once fuel s = Some (v, r) -> (length r < length s)%nat) /\
  (forall s vs r, parse_items fuel s = Some (vs, r) -> (length r < length s)%nat) /\
  (forall s ms r, parse_members fuel s = Some (ms, r) -> (length r < length s)%nat).
Proof.
  induction fuel as [|fuel (IHs & IHi & IHm)]; [done|]. split; [|split].
  - intros [|c s] v r; [done|]. cbn [scan_once].
    destruct (c =? 34).
    { destruct (scanstring s) as [[str rest]|] eqn:E; [|done].
      intros [= <- <-]. apply scanstring_shrink in E. simpl; lia. }
    pose proof (skip_ws_length s) as Hws.
    destruct (c =? 123).
    { destruct (skip_ws s) as [|c1 r1] eqn:E; [done|].
      destruct (c1 =? 125); [intros [= <- <-]; simpl in *; lia|].
      destruct (parse_members fuel (c1 :: r1)) as [[items rest]|] eqn:Em; [|done].
      intros [= <- <-]. apply IHm in Em. simpl in *. lia. }
    destruct (c =? 91).
    { destruct (skip_ws s) as [|c1 r1] eqn:E; [done|].
      destruct (c1 =? 93); [intros [= <- <-]; simpl in *; lia|].
      destruct (parse_items fuel (c1 :: r1)) as [[items rest]|] eqn:Em; [|done].
      intros [= <- <-]. apply IHi in Em. simpl in *. lia. }
    destruct (scan_literal (c :: s)) as [[v' r']|] eqn:El.
    { intros [= <- <-]. by apply scan_literal_shrink in El. }
    apply scan_number_shrink.
  - intros s vs r. cbn [parse_items].
    destruct (scan_once fuel s) as [[v r0]|] eqn:E; [|done]. apply IHs in E.
    pose proof (skip_ws_length r0) as Hws.
    destruct (skip_ws r0) as [|c r1] eqn:E1; [done|].
    destruct (c =? 93); [intros [= <- <-]; simpl in *; lia|].
    destruct (c =? 44); [|done].
    pose proof (skip_ws_length r1) as Hws1.
    destruct (parse_items fuel (skip_ws r1)) as [[vs' rest]|] eqn:Ei; [|done].
    intros [= <- <-]. apply IHi in Ei. simpl in *. lia.
  - intros [|q s] ms r; [done|]. cbn [parse_members].
    destruct (q =? 34); [|done].
    destruct (scanstring s) as [[k r0]|] eqn:Ek; [|done].
    apply scanstring_shrink in Ek.
    pose proof (skip_ws_length r0) as Hws0.
    destruct (skip_ws r0) as [|c0 r1] eqn:E0; [done|].
    destruct (c0 =? 58); [|done].
    pose proof (skip_ws_length r1) as Hws1.
    destruct (scan_once fuel (skip_ws r1)) as [[v r2]|] eqn:Ev; [|done].
    apply IHs in Ev.
    pose proof (skip_ws_length r2) as Hws2.
    destruct (skip_ws r2) as [|c r3] eqn:E2; [done|].
    destruct (c =? 125); [intros [= <- <-]; simpl in *; lia|].
    destruct (c =? 44); [|done].
    pose proof (skip_ws_length r3) as Hws3.
    destruct (parse_members fuel (skip_ws r3)) as [[ms' rest]|] eqn:Em; [|done].
    intros [= <- <-]. apply IHm in Em. simpl in *. lia.
Qed.

(** Fuel beyond twice the length of the text changes nothing: a text
    the decoder refuses is refused with any amount of fuel. *)
Lemma decoder_fuel_stable f1 : forall f2,
  (forall s, (2 * length s < f1)%nat -> (2 * length s < f2)%nat ->
             scan_once f1 s = scan_once f2 s) /\
  (forall s, (2 * length s + 1 < f1)%nat -> (2 * length s + 1 < f2)%nat ->
             parse_items f1 s = parse_items f2 s) /\
  (forall s, (2 * length s + 1 < f1)%nat -> (2 * length s + 1 < f2)%nat ->
             parse_members f1 s = parse_members f2 s).
Proof.
  induction f1 as [|f1 IH]; intros f2.
  { repeat split; intros; lia. }
  destruct f2 as [|f2]; [repeat split; intros; lia|].
  destruct (IH f2) as (IHs & IHi & IHm). clear IH.
  destruct (decoder_shrink f2) as (Shs & _ & _).
  split; [|split].
  - intros [|c s] H1 H2; [done|]. cbn [scan_once length] in *.
    pose proof (skip_ws_length s) as Hws.
    destruct (skip_ws s) as [|c1 r1] eqn:E; [done|].
    simpl in Hws. by rewrite IHi, IHm by (simpl in *; lia).
  - intros s H1 H2. cbn [parse_items]. rewrite IHs by (simpl in *; lia).
    destruct (scan_once f2 s) as [[v r0]|] eqn:E; [|done]. apply Shs in E.
    pose proof (skip_ws_length r0) as Hws.
    destruct (skip_ws r0) as [|c r1] eqn:E1; [done|].
    pose proof (skip_ws_length r1) as Hws1. simpl in Hws.
    by rewrite IHi by (simpl in *; lia).
  - intros [|q s] H1 H2; [done|]. cbn [parse_members length] in *.
    destruct (q =? 34); [|done].
    destruct (scanstring s) as [[k r0]|] eqn:Ek; [|done].
    apply scanstring_shrink in Ek.
    pose proof (skip_ws_length r0) as Hws0.
    destruct (skip_ws r0) as [|c0 r1] eqn:E0; [done|].
    destruct (c0 =? 58); [|done].
    pose proof (skip_ws_length r1) as Hws1. simpl in Hws0.
    rewrite IHs by (simpl in *; lia).
    destruct (scan_once f2 (skip_ws r1)) as [[v r2]|] eqn:Ev; [|done].
    apply Shs in Ev.
    pose proof (skip_ws_length r2) as Hws2.
    destruct (skip_ws r2) as [|c r3] eqn:E2; [done|].
    pose proof (skip_ws_length r3) as Hws3. simpl in Hws2.
    by rewrite IHm by (simpl in *; lia).
Qed.

(** The fuel [json_decode] runs with is enough: more fuel gives the
    same answer. *)
Lemma json_decode_fuel_adequate s fuel :
  (decode_fuel s <= fuel)%nat ->
  scan_once fuel (skip_ws s) = scan_once (decode_fuel s) (skip_ws s).
Proof.
  intros Hfuel. pose proof (skip_ws_length s). unfold decode_fuel in *.
  apply decoder_fuel_stable; lia.
Qed.

(** Decoding the text of a value gives the value back, strings and
    floats as they are read back. *)
Lemma json_decode_dumps fr v :
  floats_print fr v = true ->
  json_decode (json_dumps fr v) = Some (reread fr v).
Proof.
  intros Hf. unfold json_decode.
  destruct (json_dumps_head fr v Hf) as (c & s & E & Hws & _ & _ & Hc).
  assert (has_bom (json_dumps fr v) = false) as ->.
  { rewrite E. simpl. apply N.eqb_neq. lia. }
  destruct (scan_once_dumps fr v Hf [] eq_refl) as [n Hn].
  rewrite app_nil_r in Hn.
  rewrite <- (json_decode_fuel_adequate _ (max n (decode_fuel (json_dumps fr v))))
    by lia.
  rewrite <- (app_nil_r (json_dumps fr v)) at 2.
  rewrite skip_ws_json_dumps by done. rewrite app_nil_r.
  by rewrite Hn by lia.
Qed.

Lemma floats_print_all fr v :
  (forall x, is_float_token (fr x) = true) -> floats_print fr v = true.
Proof.
  intros Hfr. induction v as [|b|z|x|s|l IHl|d IHd] using pyval_ind;
    cbn [floats_print]; try done.
  - by apply forallb_forall, Forall_forall.
  - apply forallb_forall. rewrite Forall_forall in IHd. intros kv Hkv.
    by apply IHd.
Qed.

(** ** [json.loads] within the limits, and the value a text denotes *)

Lemma scan_number_l_refines maxd s :
  match scan_number_l maxd s with
  | Done v r => scan_number s = Some (v, r)
  | Stop => scan_number s = None
  | Failed e => exn_cls e = JSONDecodeError -> scan_number s = None
  end.
Proof.
  unfold scan_number_l. destruct (scan_number s) as [[v r]|]; [|done].
  destruct v; try done. by destruct (over_int_limit maxd (int_digits s)).
Qed.

Lemma scan_literal_l_refines room s :
  match scan_literal_l room s with
  | Some (Done v r) => scan_literal s = Some (v, r)
  | Some Stop => False
  | Some (Failed e) => exn_cls e <> JSONDecodeError
  | None => scan_literal s = None
  end.
Proof.
  unfold scan_literal_l. destruct (scan_literal s) as [[v r]|]; [|done].
  destruct v; try done. by destruct room.
Qed.

(** What [json.loads] returns within the limits is what the text
    denotes, and what it refuses with a [JSONDecodeError] denotes
    nothing. *)
Lemma limited_refines maxd fuel : forall room,
  (forall s,
     match scan_once_l fuel room maxd s with
     | Done v r => scan_once fuel s = Some (v, r)
     | Stop => scan_once fuel s = None
     | Failed e => exn_cls e = JSONDecodeError -> scan_once fuel s = None
     end) /\
  (forall s,
     match parse_items_l fuel room maxd s with
     | Done vs r => parse_items fuel s = Some (vs, r)
     | Stop => parse_items fuel s = None
     | Failed e => exn_cls e = JSONDecodeError -> parse_items fuel s = None
     end) /\
  (forall s,
     match parse_members_l fuel room maxd s with
     | Done ms r => parse_members fuel s = Some (ms, r)
     | Stop => parse_members fuel s = None
     | Failed e => exn_cls e = JSONDecodeError -> parse_members fuel s = None
     end).
Proof.
  induction fuel as [|fuel IH]; [done|]. intros room. split; [|split].
  - intros [|c s]; [done|]. cbn [scan_once_l scan_once].
    destruct (c =? 34).
    { by destruct (scanstring s) as [[str rest]|]. }
    destruct (c =? 123).
    { destruct room as [|room]; [done|].
      destruct (skip_ws s) as [|c1 r1]; [done|].
      destruct (c1 =? 125); [done|].
      destruct (IH room) as (_ & _ & IHm). specialize (IHm (c1 :: r1)).
      destruct (parse_members_l fuel room maxd (c1 :: r1)) as [items rest| |e].
      - by rewrite IHm.
      - by rewrite IHm.
      - intros He. by rewrite IHm. }
    destruct (c =? 91).
    { destruct room as [|room]; [done|].
      destruct (skip_ws s) as [|c1 r1]; [done|].
      destruct (c1 =? 93); [done|].
      destruct (IH room) as (_ & IHi & _). specialize (IHi (c1 :: r1)).
      destruct (parse_items_l fuel room maxd (c1 :: r1)) as [items rest| |e].
      - by rewrite IHi.
      - by rewrite IHi.
      - intros He. by rewrite IHi. }
    pose proof (scan_literal_l_refines room (c :: s)) as Hl.
    destruct (scan_literal_l room (c :: s)) as [[v r| |e]|].
    + by rewrite Hl.
    + done.
    + done.
    + rewrite Hl. apply scan_number_l_refines.
  - intros s. cbn [parse_items_l parse_items].
    destruct (IH room) as (IHs & IHi & _). specialize (IHs s).
    destruct (scan_once_l fuel room maxd s) as [v r| |e].
    + rewrite IHs. destruct (skip_ws r) as [|c r1]; [done|].
      destruct (c =? 93); [done|]. destruct (c =? 44); [|done].
      specialize (IHi (skip_ws r1)).
      destruct (parse_items_l fuel room maxd (skip_ws r1)) as [vs rest| |e].
      * by rewrite IHi.
      * by rewrite IHi.
      * intros He. by rewrite IHi.
    + by rewrite IHs.
    + intros He. by rewrite IHs.
  - intros [|q s]; [done|]. cbn [parse_members_l parse_members].
    destruct (q =? 34); [|done].
    destruct (scanstring s) as [[k r0]|]; [|done].
    destruct (skip_ws r0) as [|c0 r1]; [done|].
    destruct (c0 =? 58); [|done].
    destruct (IH room) as (IHs & _ & IHm). specialize (IHs (skip_ws r1)).
    destruct (scan_once_l fuel room maxd (skip_ws r1)) as [v r2| |e].
    + rewrite IHs. destruct (skip_ws r2) as [|c r3]; [done|].
      destruct (c =? 125); [done|]. destruct (c =? 44); [|done].
      specialize (IHm (skip_ws r3)).
      destruct (parse_members_l fuel room maxd (skip_ws r3)) as [ms rest| |e].
      * by rewrite IHm.
      * by rewrite IHm.
      * intros He. by rewrite IHm.
    + by rewrite IHs.
    + intros He. by rewrite IHs.
Qed.

Lemma json_loads_returns room maxd s v :
  json_loads room maxd s = Ok v -> json_decode s = Some v.
Proof.
  unfold json_loads, json_decode. destruct (has_bom s); [done|].
  destruct (limited_refines maxd (decode_fuel s) room) as (Hs & _).
  specialize (Hs (skip_ws s)).
  destruct (scan_once_l (decode_fuel s) room maxd (skip_ws s)) as [v' r| |e];
    [|done..].
  rewrite Hs. destruct (skip_ws r); [|done]. by intros [= ->].
Qed.

Lemma json_loads_refuses room maxd s e :
  json_loads room maxd s = Raise e -> is_JSONDecodeError e = true ->
  json_decode s = None.
Proof.
  unfold json_loads, json_decode, is_JSONDecodeError.
  destruct (has_bom s); [done|].
  destruct (limited_refines maxd (decode_fuel s) room) as (Hs & _).
  specialize (Hs (skip_ws s)).
  destruct (scan_once_l (decode_fuel s) room maxd (skip_ws s)) as [v' r| |e'].
  - rewrite Hs. by destruct (skip_ws r).
  - by rewrite Hs.
  - intros [= ->] He. rewrite Hs; [done|]. by destruct (exn_cls e).
Qed.

(** On a text that denotes a value, [json.loads] returns that value
    or runs into one of the limits. *)
Lemma json_loads_of_json room maxd s v :
  json_decode s = Some v ->
  json_loads room maxd s = Ok v \/
  exists e, json_loads room maxd s = Raise e /\ is_JSONDecodeError e = false.
Proof.
  intros Hd. destruct (json_loads room maxd s) as [v'|e] eqn:E.
  - left. apply json_loads_returns in E. congruence.
  - right. exists e. split; [done|].
    destruct (is_JSONDecodeError e) eqn:He; [|done].
    pose proof (json_loads_refuses _ _ _ _ E He). congruence.
Qed.

(** The fuel of [json_loads] is enough: more changes nothing. *)
Lemma scan_once_l_shrink maxd fuel room s v r :
  scan_once_l fuel room maxd s = Done v r -> (length r < length s)%nat.
Proof.
  intros H. destruct (limited_refines maxd fuel room) as (Hs & _).
  specialize (Hs s). rewrite H in Hs.
  by destruct (decoder_shrink fuel) as (Sh & _); apply Sh in Hs.
Qed.

Lemma limited_fuel_stable maxd f1 : forall f2 room,
  (forall s, (2 * length s < f1)%nat -> (2 * length s < f2)%nat ->
             scan_once_l f1 room maxd s = scan_once_l f2 room maxd s) /\
  (forall s, (2 * length s + 1 < f1)%nat -> (2 * length s + 1 < f2)%nat ->
             parse_items_l f1 room maxd s = parse_items_l f2 room maxd s) /\
  (forall s, (2 * length s + 1 < f1)%nat -> (2 * length s + 1 < f2)%nat ->
             parse_members_l f1 room maxd s = parse_members_l f2 room maxd s).
Proof.
  induction f1 as [|f1 IH]; intros f2 room.
  { repeat split; intros; lia. }
  destruct f2 as [|f2]; [repeat split; intros; lia|].
  split; [|split].
  - intros [|c s] H1 H2; [done|]. cbn [scan_once_l length] in *.
    pose proof (skip_ws_length s) as Hws.
    destruct room as [|room]; [done|].
    destruct (IH f2 room) as (_ & IHi & IHm).
    destruct (skip_ws s) as [|c1 r1] eqn:E; [done|].
    simpl in Hws. by rewrite IHi, IHm by (simpl in *; lia).
  - intros s H1 H2. cbn [parse_items_l].
    destruct (IH f2 room) as (IHs & IHi & _).
    rewrite IHs by (simpl in *; lia).
    destruct (scan_once_l f2 room maxd s) as [v r0| |e] eqn:E; [|done..].
    apply scan_once_l_shrink in E.
    pose proof (skip_ws_length r0) as Hws.
    destruct (skip_ws r0) as [|c r1] eqn:E1; [done|].
    pose proof (skip_ws_length r1) as Hws1. simpl in Hws.
    by rewrite IHi by (simpl in *; lia).
  - intros [|q s] H1 H2; [done|]. cbn [parse_members_l length] in *.
    destruct (IH f2 room) as (IHs & _ & IHm).
    destruct (q =? 34); [|done].
    destruct (scanstring s) as [[k r0]|] eqn:Ek; [|done].
    apply scanstring_shrink in Ek.
    pose proof (skip_ws_length r0) as Hws0.
    destruct (skip_ws r0) as [|c0 r1] eqn:E0; [done|].
    destruct (c0 =? 58); [|done].
    pose proof (skip_ws_length r1) as Hws1. simpl in Hws0.
    rewrite IHs by (simpl in *; lia).
    destruct (scan_once_l f2 room maxd (skip_ws r1)) as [v r2| |e] eqn:Ev;
      [|done..].
    apply scan_once_l_shrink in Ev.
    pose proof (skip_ws_length r2) as Hws2.
    destruct (skip_ws r2) as [|c r3] eqn:E2; [done|].
    pose proof (skip_ws_length r3) as Hws3. simpl in Hws2.
    by rewrite IHm by (simpl in *; lia).
Qed.

Lemma json_loads_fuel_adequate room maxd s fuel :
  (decode_fuel s <= fuel)%nat ->
  scan_once_l fuel room maxd (skip_ws s)
  = scan_once_l (decode_fuel s) room maxd (skip_ws s).
Proof.
  intros Hfuel. pose proof (skip_ws_length s). unfold decode_fuel in *.
  apply limited_fuel_stable; lia.
Qed.

(** ** Texts within the limits

    A text shorter than the room for nesting, less three, and of at
    most 640 characters meets no limit: [json.loads] returns what it
    denotes, or refuses it with a [JSONDecodeError]. *)

Lemma fail_here_room room : (3 <= room)%nat -> fail_here room = decode_error.
Proof. destruct room as [|[|[|room]]]; [lia..|done]. Qed.

Lemma int_digits_length s : (int_digits s <= length s)%nat.
Proof.
  unfold int_digits. destruct (scan_integer s) as [[ip r]|] eqn:E; [|lia].
  apply scan_integer_split in E as ->. rewrite length_app.
  pose proof (filter_length_le is_digit ip). lia.
Qed.

Lemma scan_number_l_within maxd s :
  (length s <= 640)%nat ->
  match scan_number_l maxd s with
  | Failed e => e = decode_error
  | _ => True
  end.
Proof.
  intros H. unfold scan_number_l.
  destruct (scan_number s) as [[v r]|]; [|done]. destruct v; try done.
  unfold over_int_limit. pose proof (int_digits_length s).
  assert ((640 <? int_digits s)%nat = false) as -> by (apply Nat.ltb_ge; lia).
  done.
Qed.

Lemma limited_within maxd fuel : forall room,
  (forall s, (length s + 3 <= room)%nat -> (length s <= 640)%nat ->
     match scan_once_l fuel room maxd s with
     | Failed e => e = decode_error
     | _ => True
     end) /\
  (forall s, (length s + 3 <= room)%nat -> (length s <= 640)%nat ->
     match parse_items_l fuel room maxd s with
     | Failed e => e = decode_error
     | _ => True
     end) /\
  (forall s, (length s + 3 <= room)%nat -> (length s <= 640)%nat ->
     match parse_members_l fuel room maxd s with
     | Failed e => e = decode_error
     | _ => True
     end).
Proof.
  induction fuel as [|fuel IH]; [done|]. intros room. split; [|split].
  - intros [|c s] Hr Hl; [done|]. cbn [scan_once_l length] in *.
    destruct (c =? 34).
    { destruct (scanstring s) as [[str rest]|]; [done|].
      apply fail_here_room. lia. }
    pose proof (skip_ws_length s) as Hws.
    destruct (c =? 123).
    { destruct room as [|room]; [lia|].
      destruct (skip_ws s) as [|c1 r1] eqn:E; [apply fail_here_room; lia|].
      destruct (c1 =? 125); [done|].
      destruct (IH room) as (_ & _ & IHm).
      specialize (IHm (c1 :: r1) ltac:(simpl in *; lia) ltac:(simpl in *; lia)).
      by destruct (parse_members_l fuel room maxd (c1 :: r1)). }
    destruct (c =? 91).
    { destruct room as [|room]; [lia|].
      destruct (skip_ws s) as [|c1 r1] eqn:E; [done|].
      destruct (c1 =? 93); [done|].
      destruct (IH room) as (_ & IHi & _).
      specialize (IHi (c1 :: r1) ltac:(simpl in *; lia) ltac:(simpl in *; lia)).
      by destruct (parse_items_l fuel room maxd (c1 :: r1)). }
    unfold scan_literal_l.
    destruct (scan_literal (c :: s)) as [[v r]|].
    { destruct v; try done. destruct room; [lia|done]. }
    apply scan_number_l_within. simpl; lia.
  - intros s Hr Hl. cbn [parse_items_l].
    destruct (IH room) as (IHs & IHi & _).
    specialize (IHs s Hr Hl).
    destruct (scan_once_l fuel room maxd s) as [v r| |e] eqn:E; [|done..].
    apply scan_once_l_shrink in E.
    pose proof (skip_ws_length r) as Hws.
    destruct (skip_ws r) as [|c r1] eqn:E1; [apply fail_here_room; lia|].
    destruct (c =? 93); [done|].
    destruct (c =? 44); [|apply fail_here_room; lia].
    pose proof (skip_ws_length r1) as Hws1. simpl in Hws.
    specialize (IHi (skip_ws r1) ltac:(lia) ltac:(lia)).
    by destruct (parse_items_l fuel room maxd (skip_ws r1)).
  - intros [|q s] Hr Hl; [apply fail_here_room; simpl in *; lia|].
    cbn [parse_members_l length] in *.
    destruct (IH room) as (IHs & _ & IHm).
    destruct (q =? 34); [|apply fail_here_room; lia].
    destruct (scanstring s) as [[k r0]|] eqn:Ek; [|apply fail_here_room; lia].
    apply scanstring_shrink in Ek.
    pose proof (skip_ws_length r0) as Hws0.
    destruct (skip_ws r0) as [|c0 r1] eqn:E0; [apply fail_here_room; lia|].
    destruct (c0 =? 58); [|apply fail_here_room; lia].
    pose proof (skip_ws_length r1) as Hws1. simpl in Hws0.
    specialize (IHs (skip_ws r1) ltac:(lia) ltac:(lia)).
    destruct (scan_once_l fuel room maxd (skip_ws r1)) as [v r2| |e] eqn:Ev;
      [|done..].
    apply scan_once_l_shrink in Ev.
    pose proof (skip_ws_length r2) as Hws2.
    destruct (skip_ws r2) as [|c r3] eqn:E2; [apply fail_here_room; lia|].
    destruct (c =? 125); [done|].
    destruct (c =? 44); [|apply fail_here_room; lia].
    pose proof (skip_ws_length r3) as Hws3. simpl in Hws2.
    specialize (IHm (skip_ws r3) ltac:(lia) ltac:(lia)).
    by destruct (parse_members_l fuel room maxd (skip_ws r3)).
Qed.

Lemma json_loads_within_limits room maxd s :
  (length s + 3 <= room)%nat -> (length s <= 640)%nat ->
  json_loads room maxd s
  = match json_decode s with
    | Some v => Ok v
    | None => Raise decode_error
    end.
Proof.
  intros Hr Hl. pose proof (skip_ws_length s) as Hws.
  destruct (limited_within maxd (decode_fuel s) room) as (Hw & _).
  specialize (Hw (skip_ws s) ltac:(lia) ltac:(lia)).
  destruct (limited_refines maxd (decode_fuel s) room) as (Hs & _).
  specialize (Hs (skip_ws s)).
  unfold json_loads, json_decode. destruct (has_bom s); [done|].
  destruct (scan_once_l (decode_fuel s) room maxd (skip_ws s)) as [v r| |e].
  - rewrite Hs. by destruct (skip_ws r).
  - by rewrite Hs.
  - subst e. by rewrite Hs.
Qed.

(** ** Values that are read back as they are *)

Lemma has_key_app k d1 d2 : has_key k (d1 ++ d2) = has_key k d1 || has_key k d2.
Proof.
  induction d1 as [|[k' v'] d1 IH]; [done|]. simpl. by rewrite IH, orb_assoc.
Qed.

Lemma dict_set_new k v d : has_key k d = false -> dict_set k v d = d ++ [(k, v)].
Proof.
  induction d as [|[k' v'] d IH]; [done|]. simpl.
  intros [-> H]%orb_false_iff. by rewrite IH.
Qed.

Lemma str_eqb_sym s t : str_eqb s t = str_eqb t s.
Proof.
  destruct (str_eqb s t) eqn:E1, (str_eqb t s) eqn:E2; try done.
  - apply str_eqb_eq in E1 as ->.
    assert (str_eqb t t = true) by (by apply str_eqb_eq). congruence.
  - apply str_eqb_eq in E2 as ->.
    assert (str_eqb s s = true) by (by apply str_eqb_eq). congruence.
Qed.

Lemma has_key_false_each k d :
  has_key k d = false ->
  forallb (fun kv => negb (str_eqb (fst kv) k)) d = true.
Proof.
  induction d as [|[k' v'] d IH]; [done|]. cbn [has_key forallb fst].
  intros [H1 H2]%orb_false_iff. rewrite IH by done.
  by rewrite str_eqb_sym, H1.
Qed.

(** Items with distinct keys are stored as they come. *)
Lemma fold_dict_set_distinct items acc :
  distinct_keys items = true ->
  forallb (fun kv => negb (has_key (fst kv) acc)) items = true ->
  fold_left (fun d kv => dict_set (fst kv) (snd kv) d) items acc = acc ++ items.
Proof.
  revert acc. induction items as [|[k v] items IH]; intros acc Hd Ha.
  - by rewrite app_nil_r.
  - simpl in *. apply andb_true_iff in Hd as [Hk Hd].
    apply andb_true_iff in Ha as [Hka Ha].
    apply negb_true_iff in Hk, Hka.
    rewrite dict_set_new by done. rewrite IH; [by rewrite <- app_assoc|done|].
    apply has_key_false_each in Hk.
    rewrite forallb_forall in *. intros kv Hkv.
    rewrite has_key_app.
    specialize (Ha kv Hkv). specialize (Hk kv Hkv).
    apply negb_true_iff in Ha, Hk. cbn [has_key]. by rewrite Ha, Hk.
Qed.

Lemma dict_of_items_distinct d : distinct_keys d = true -> dict_of_items d = d.
Proof.
  intros H. unfold dict_of_items. rewrite fold_dict_set_distinct; [done|done|].
  by apply forallb_forall.
Qed.

(** A stable value is read back as it is. *)
Lemma reread_stable fr v : stable fr v = true -> reread fr v = v.
Proof.
  induction v as [|b|z|x|s|l IHl|d IHd] using pyval_ind;
    cbn [stable reread]; intros H; try done.
  - apply andb_true_iff in H as [_ H]. apply str_eqb_eq in H. by rewrite H.
  - by rewrite restring_scalar.
  - f_equal. rewrite forallb_forall in H. rewrite Forall_forall in IHl.
    induction l as [|v l IH]; [done|]. simpl. f_equal.
    + apply IHl; [by left|]. apply H. by left.
    + apply IH; intros x Hx; [apply IHl|apply H]; by right.
  - apply andb_true_iff in H as [H Hd]. f_equal.
    rewrite <- (dict_of_items_distinct d) at 2 by done. f_equal.
    rewrite forallb_forall in H. rewrite Forall_forall in IHd.
    clear Hd. induction d as [|[k v] d IH]; [done|]. simpl. f_equal.
    + specialize (H (k, v) ltac:(by left)). cbn [fst snd] in H.
      apply andb_true_iff in H as [Hk Hv]. rewrite restring_scalar by done.
      f_equal. by apply (IHd (k, v)); [left|].
    + apply IH; intros x Hx; [apply IHd|apply H]; by right.
Qed.

Lemma stable_floats_print fr v : stable fr v = true -> floats_print fr v = true.
Proof.
  induction v as [|b|z|x|s|l IHl|d IHd] using pyval_ind;
    cbn [stable floats_print]; intros H; try done.
  - apply andb_true_iff in H as [Ht H]. apply str_eqb_eq in H. by rewrite H.
  - rewrite forallb_forall in *. rewrite Forall_forall in IHl.
    intros x Hx. apply IHl; [done|]. by apply H.
  - apply andb_true_iff in H as [H _].
    rewrite forallb_forall in *. rewrite Forall_forall in IHd.
    intros x Hx. apply IHd; [done|].
    specialize (H x Hx). by apply andb_true_iff in H as [_ H].
Qed.

(** The text of a stable value denotes that value. *)
Lemma json_decode_dumps_stable fr v :
  stable fr v = true -> json_decode (json_dumps fr v) = Some v.
Proof.
  intros H. rewrite json_decode_dumps by by apply stable_floats_print.
  by rewrite reread_stable.
Qed.

(** ** Strict JSON *)

Lemma dict_set_forallb (P : pyval -> bool) k v d :
  forallb (fun kv => P (snd kv)) d = true -> P v = true ->
  forallb (fun kv => P (snd kv)) (dict_set k v d) = true.
Proof.
  intros Hd Hv. induction d as [|[k' v'] d IH]; simpl.
  - by rewrite Hv.
  - simpl in Hd. apply andb_true_iff in Hd as [Hv' Hd].
    destruct (str_eqb k k'); simpl; [by rewrite Hv, Hd|].
    by rewrite Hv', IH.
Qed.

Lemma dict_of_items_forallb (P : pyval -> bool) items :
  forallb (fun kv => P (snd kv)) items = true ->
  forallb (fun kv => P (snd kv)) (dict_of_items items) = true.
Proof.
  unfold dict_of_items.
  assert (forall acc,
    forallb (fun kv => P (snd kv)) acc = true ->
    forallb (fun kv => P (snd kv)) items = true ->
    forallb (fun kv => P (snd kv))
      (fold_left (fun d kv => dict_set (fst kv) (snd kv) d) items acc) = true)
    as H; [|by apply H].
  induction items as [|[k v] items IH]; intros acc Hacc Hi; [done|].
  simpl in *. apply andb_true_iff in Hi as [Hv Hi].
  apply IH; [|done]. by apply dict_set_forallb.
Qed.

(** A value whose floats print as numbers is read back as a value of
    strict JSON. *)
Lemma strict_reread fr v :
  prints_numbers fr v = true -> strict_value (reread fr v) = true.
Proof.
  induction v as [|b|z|x|s|l IHl|d IHd] using pyval_ind;
    cbn [prints_numbers reread strict_value]; intros H; try done.
  - rewrite forallb_forall in *. rewrite Forall_forall in IHl.
    intros y Hy. apply in_map_iff in Hy as (x & <- & Hx).
    apply IHl; [done|]. by apply H.
  - apply dict_of_items_forallb.
    rewrite forallb_forall in *. rewrite Forall_forall in IHd.
    intros y Hy. apply in_map_iff in Hy as (x & <- & Hx). cbn [snd].
    apply IHd; [done|]. by apply H.
Qed.

(** ** The handler *)

Section Handler.
Context (rt : runtime).
Implicit Types (st : state rt) (command audio shop_domain text : pystr).

Lemma predict_body_unfold command audio st :
  predict_body rt command audio st
  = match run_model rt command audio st with
    | (Ok response, st') => (respond rt response, st')
    | (Raise e, st') => (Raise e, st')
    end.
Proof. done. Qed.

(** What the parsing block makes of a segment, by what [json.loads]
    makes of it. *)
Lemma parse_fields_not_json seg e :
  loads rt seg = Raise e -> is_JSONDecodeError e = true ->
  parse_fields rt seg = Ok (PStr seg, PStr (py "none"), PNone, PNone).
Proof.
  intros H He. unfold parse_fields. rewrite H. cbn [bind try_except].
  by rewrite He.
Qed.

Lemma parse_fields_limit seg e :
  loads rt seg = Raise e -> is_JSONDecodeError e = false ->
  parse_fields rt seg = Raise e.
Proof.
  intros H He. unfold parse_fields. rewrite H. cbn [bind try_except].
  by rewrite He.
Qed.

Lemma parse_fields_object seg d :
  loads rt seg = Ok (PDict d) ->
  parse_fields rt seg
  = Ok (default (PStr seg) (dict_lookup (py "message") d),
        default (PStr (py "none")) (dict_lookup (py "action") d),
        default PNone (dict_lookup (py "query") d),
        default PNone (dict_lookup (py "handle") d)).
Proof.
  intros H. unfold parse_fields. rewrite H.
  cbn [bind py_get try_except].
  by destruct (dict_lookup (py "message") d), (dict_lookup (py "action") d),
    (dict_lookup (py "query") d), (dict_lookup (py "handle") d).
Qed.

Lemma parse_fields_not_object seg v :
  loads rt seg = Ok v -> (forall d, v <> PDict d) ->
  parse_fields rt seg = Raise (no_attribute v "get").
Proof.
  intros H Hv. unfold parse_fields. rewrite H.
  destruct v; try done. by destruct (Hv d).
Qed.

(** The answer to a generated text, by what [json.loads] makes of its
    candidate answer. *)
Lemma respond_not_json text e :
  loads rt (candidate_answer text) = Raise e -> is_JSONDecodeError e = true ->
  respond rt (PStr text)
  = Ok (json_dumps (float_repr rt)
          (response_dict (PStr (candidate_answer text)) (PStr (py "none"))
             PNone PNone)).
Proof.
  intros H He. unfold respond. rewrite assistant_segment_candidate.
  cbn [bind]. by rewrite (parse_fields_not_json _ e).
Qed.

Lemma respond_limit text e :
  loads rt (candidate_answer text) = Raise e -> is_JSONDecodeError e = false ->
  respond rt (PStr text) = Raise e.
Proof.
  intros H He. unfold respond. rewrite assistant_segment_candidate.
  cbn [bind]. by rewrite (parse_fields_limit _ e).
Qed.

Lemma respond_object text d :
  loads rt (candidate_answer text) = Ok (PDict d) ->
  respond rt (PStr text)
  = Ok (json_dumps (float_repr rt)
          (response_dict
             (default (PStr (candidate_answer text)) (dict_lookup (py "message") d))
             (default (PStr (py "none")) (dict_lookup (py "action") d))
             (default PNone (dict_lookup (py "query") d))
             (default PNone (dict_lookup (py "handle") d)))).
Proof.
  intros H. unfold respond. rewrite assistant_segment_candidate.
  cbn [bind]. by rewrite (parse_fields_object _ d).
Qed.

Lemma respond_not_object text v :
  loads rt (candidate_answer text) = Ok v -> (forall d, v <> PDict d) ->
  respond rt (PStr text) = Raise (no_attribute v "get").
Proof.
  intros H Hv. unfold respond. rewrite assistant_segment_candidate.
  cbn [bind]. by rewrite (parse_fields_not_object _ v).
Qed.

Lemma predict_of_response command audio shop_domain st text st' :
  run_model rt command audio st = (Ok (PStr text), st') ->
  predict rt st command audio shop_domain
  = match respond rt (PStr text) with
    | Ok out => (out, st')
    | Raise e => (json_dumps (float_repr rt) (error_dict e), st')
    end.
Proof.
  intros H. unfold predict. rewrite predict_body_unfold, H.
  by destruct (respond rt (PStr text)).
Qed.

(** Whatever happens, the answer is the text of one of two
    dictionaries. *)
Lemma predict_cases command audio shop_domain st :
  (exists m a q h,
     fst (predict rt st command audio shop_domain)
     = json_dumps (float_repr rt) (response_dict m a q h)) \/
  (exists e,
     fst (predict rt st command audio shop_domain)
     = json_dumps (float_repr rt) (error_dict e)).
Proof.
  unfold predict. rewrite predict_body_unfold.
  destruct (run_model rt command audio st) as [[response|e] st'];
    [|right; by eexists].
  unfold respond.
  destruct (assistant_segment response) as [seg|e]; [|right; by eexists].
  cbn [bind]. destruct (parse_fields rt seg) as [[[[m a] q] h]|e];
    [|right; by eexists].
  left. by exists m, a, q, h.
Qed.

(** Reading the two dictionaries back. *)
Lemma decode_error_dict e :
  json_decode (json_dumps (float_repr rt) (error_dict e))
  = Some (PDict [(py "message", PStr (py "Error: " ++ restring (exn_text e)))]).
Proof.
  rewrite json_decode_dumps by done. unfold error_dict.
  cbn [reread List.map fst snd]. by rewrite restring_app_ascii.
Qed.

Lemma decode_response_dict m a q h :
  (forall x, is_float_token (float_repr rt x) = true) ->
  json_decode (json_dumps (float_repr rt) (response_dict m a q h))
  = Some (PDict [(py "message", reread (float_repr rt) m);
                 (py "action", reread (float_repr rt) a);
                 (py "query", reread (float_repr rt) q);
                 (py "handle", reread (float_repr rt) h)]).
Proof.
  intros Hfr. rewrite json_decode_dumps by by apply floats_print_all. done.
Qed.

(** The same for the printing of floats of the runtime. *)
Lemma decode_response m a q h :
  json_decode (json_dumps (float_repr rt) (response_dict m a q h))
  = Some (PDict [(py "message", reread (float_repr rt) m);
                 (py "action", reread (float_repr rt) a);
                 (py "query", reread (float_repr rt) q);
                 (py "handle", reread (float_repr rt) h)]).
Proof. apply decode_response_dict, float_repr_token. Qed.
End Handler.

(** ** The claims of the specification *)

(** C1: when the body of [predict] raises an exception [e], the call
    returns the text of the dictionary with the single key "message";
    that text is valid JSON, its only key is "message", and the value
    of the key is "Error: " followed by the text of the exception (by
    the text as it is whenever it holds no surrogate code points). *)
Theorem error_path_payload (rt : runtime) (st st' : state rt)
    (command audio shop_domain : pystr) (e : pyexn) :
  predict_body rt command audio st = (Raise e, st') ->
  predict rt st command audio shop_domain
  = (json_dumps (float_repr rt) (error_dict e), st') /\
  json_keys (json_dumps (float_repr rt) (error_dict e)) = Some [py "message"] /\
  json_field (json_dumps (float_repr rt) (error_dict e)) "message"
  = Some (PStr (py "Error: " ++ restring (exn_text e))) /\
  (forallb is_scalar (exn_text e) = true ->
   json_field (json_dumps (float_repr rt) (error_dict e)) "message"
   = Some (PStr (py "Error: " ++ exn_text e))).
Proof.
  intros H. split; [by unfold predict; rewrite H|].
  unfold json_keys, json_field. rewrite decode_error_dict.
  split; [done|]. split; [done|]. intros Hs. by rewrite restring_scalar.
Qed.

Lemma error_path_payload_witness :
  predict echo start (py "hello") (py "not-base64!!!") (py "shop")
  = (json_dumps (float_repr echo)
       (error_dict (mk_exn ValueError (py "Incorrect padding"))), start) /\
  json_keys (json_dumps (float_repr echo)
               (error_dict (mk_exn ValueError (py "Incorrect padding"))))
  = Some [py "message"] /\
  json_field (json_dumps (float_repr echo)
                (error_dict (mk_exn ValueError (py "Incorrect padding")))) "message"
  = Some (PStr (py "Error: " ++ restring (py "Incorrect padding"))) /\
  (forallb is_scalar (py "Incorrect padding") = true ->
   json_field (json_dumps (float_repr echo)
                 (error_dict (mk_exn ValueError (py "Incorrect padding")))) "message"
   = Some (PStr (py "Error: " ++ py "Incorrect padding"))).
Proof.
  apply (error_path_payload echo start start (py "hello") (py "not-base64!!!")
           (py "shop") (mk_exn ValueError (py "Incorrect padding"))).
  vm_compute. reflexivity.
Defined.

(** C2, as the specification states it, fails in three ways.  An
    answer that holds the constant NaN is returned with that
    constant, which is not JSON in the strict sense.  For a generated
    text that is not JSON the returned object does hold the keys
    "query" and "handle" (with the value null); they are not absent.
    And a text that is not JSON for being nested without end, beyond
    the recursion limit, is answered with the error payload, which
    has no "action" at all. *)
Lemma stated_response_invariant_fails :
  ~ (strict_json
       (fst (predict echo start (js "{`message`: NaN}") (py "QUJD") [])) = true) /\
  ~ (json_decode (candidate_answer (py "hello")) = None ->
     json_field (fst (predict echo start (py "hello") (py "QUJD") [])) "action"
     = Some (PStr (py "none")) /\
     json_field (fst (predict echo start (py "hello") (py "QUJD") [])) "query"
     = None /\
     json_field (fst (predict echo start (py "hello") (py "QUJD") [])) "handle"
     = None) /\
  ~ (json_decode (candidate_answer (repeat 91 1000)) = None ->
     json_field (fst (predict echo start (repeat 91 1000) (py "QUJD") [])) "action"
     = Some (PStr (py "none"))).
Proof.
  split; [|split].
  - intros H. vm_compute in H. discriminate H.
  - intros H. destruct H as (_ & Hq & _); [vm_compute; reflexivity|].
    vm_compute in Hq. discriminate Hq.
  - intros H. assert (json_decode (candidate_answer (repeat 91 1000)) = None) as Hn
      by (vm_compute; reflexivity).
    specialize (H Hn). vm_compute in H. discriminate H.
Qed.

(** C2, amended: every text that [predict] returns is read by the
    JSON decoder of Python as an object with a "message" field; it is
    JSON in the strict sense unless the four fields, read from the
    candidate answer, hold a float that is printed as NaN, Infinity or
    -Infinity; and when [json.loads] refuses the candidate answer of
    the generated text with a [JSONDecodeError], the field "action" is
    "none" and the fields "query" and "handle" are null. *)
Theorem response_is_json_with_message (rt : runtime) (st : state rt)
    (command audio shop_domain : pystr) :
  (exists m, json_field (fst (predict rt st command audio shop_domain)) "message"
             = Some m) /\
  (strict_json (fst (predict rt st command audio shop_domain)) = true \/
   exists text st' m a q h,
     run_model rt command audio st = (Ok (PStr text), st') /\
     parse_fields rt (candidate_answer text) = Ok (m, a, q, h) /\
     prints_numbers (float_repr rt) (response_dict m a q h) = false) /\
  (forall text st' e,
     run_model rt command audio st = (Ok (PStr text), st') ->
     loads rt (candidate_answer text) = Raise e ->
     is_JSONDecodeError e = true ->
     json_field (fst (predict rt st command audio shop_domain)) "action"
     = Some (PStr (py "none")) /\
     json_field (fst (predict rt st command audio shop_domain)) "query"
     = Some PNone /\
     json_field (fst (predict rt st command audio shop_domain)) "handle"
     = Some PNone).
Proof.
  split; [|split].
  - destruct (predict_cases rt command audio shop_domain st)
      as [(m & a & q & h & ->)|(e & ->)]; unfold json_field.
    + rewrite decode_response. by eexists.
    + rewrite decode_error_dict. by eexists.
  - unfold predict. rewrite predict_body_unfold.
    destruct (run_model rt command audio st) as [[response|e] st1] eqn:Hrun;
      cbn [fst].
    2:{ left. unfold strict_json. by rewrite decode_error_dict. }
    assert ((exists text, response = PStr text) \/
            (exists e, respond rt response = Raise e)) as [[text ->]|[e He]]
      by (destruct response; try (right; by eexists); left; by eexists).
    2:{ rewrite He. cbn [fst]. left. unfold strict_json.
        by rewrite decode_error_dict. }
    unfold respond. rewrite assistant_segment_candidate. cbn [bind].
    destruct (parse_fields rt (candidate_answer text)) as [[[[m a] q] h]|e] eqn:Hp;
      cbn [bind fst].
    2:{ left. unfold strict_json. by rewrite decode_error_dict. }
    destruct (prints_numbers (float_repr rt) (response_dict m a q h)) eqn:Hn.
    + left. unfold strict_json.
      rewrite json_decode_dumps
        by apply floats_print_all, float_repr_token.
      by apply strict_reread.
    + right. by exists text, st1, m, a, q, h.
  - intros text st' e Hrun Hl He.
    rewrite (predict_of_response rt _ _ _ _ _ _ Hrun),
      (respond_not_json rt _ e) by done.
    unfold json_field. cbn [fst]. by rewrite decode_response.
Qed.

Lemma response_is_json_with_message_witness :
  (exists m, json_field (fst (predict echo start (py "hello") (py "QUJD") [])) "message"
             = Some m) /\
  (strict_json (fst (predict echo start (py "hello") (py "QUJD") [])) = true \/
   exists text st' m a q h,
     run_model echo (py "hello") (py "QUJD") start = (Ok (PStr text), st') /\
     parse_fields echo (candidate_answer text) = Ok (m, a, q, h) /\
     prints_numbers (float_repr echo) (response_dict m a q h) = false) /\
  (forall text st' e,
     run_model echo (py "hello") (py "QUJD") start = (Ok (PStr text), st') ->
     loads echo (candidate_answer text) = Raise e ->
     is_JSONDecodeError e = true ->
     json_field (fst (predict echo start (py "hello") (py "QUJD") [])) "action"
     = Some (PStr (py "none")) /\
     json_field (fst (predict echo start (py "hello") (py "QUJD") [])) "query"
     = Some PNone /\
     json_field (fst (predict echo start (py "hello") (py "QUJD") [])) "handle"
     = Some PNone).
Proof.
  apply (response_is_json_with_message echo start (py "hello") (py "QUJD") []).
Defined.

(** C3, as the specification states it, fails: a candidate answer
    that is a JSON object with the key "message" and that holds an
    integer of more digits than the interpreter converts is answered
    with the error payload, whose "message" is not the value of that
    key. *)
Lemma valid_object_beyond_limits_is_an_error :
  exists d,
    json_decode
      (candidate_answer (js "{`message`: `Hi`, `query`: " ++ long_integer 4301 ++ py "}"))
    = Some (PDict d) /\
    dict_lookup (py "message") d = Some (PStr (py "Hi")) /\
    json_field
      (fst (predict echo start
              (js "{`message`: `Hi`, `query`: " ++ long_integer 4301 ++ py "}")
              (py "QUJD") [])) "message"
    <> Some (PStr (py "Hi")) /\
    json_keys
      (fst (predict echo start
              (js "{`message`: `Hi`, `query`: " ++ long_integer 4301 ++ py "}")
              (py "QUJD") []))
    = Some [py "message"].
Proof.
  eexists. split; [vm_compute; reflexivity|].
  split; [vm_compute; reflexivity|].
  split; [|vm_compute; reflexivity].
  intros H. vm_compute in H. discriminate H.
Qed.

(** C3, amended: when [json.loads] reads the candidate answer of the
    generated text as an object, the text [predict] returns denotes
    the object with the four keys "message", "action", "query" and
    "handle", whose values are those of these keys in the object read,
    as they are read back; a missing "action" is "none", a missing
    "query" or "handle" is null (and a missing "message" is the
    candidate answer itself).  A value that is stable is read back as
    it is. *)
Theorem parsed_fields_are_returned (rt : runtime) (st st' : state rt)
    (command audio shop_domain text : pystr) (d : list (pystr * pyval)) :
  run_model rt command audio st = (Ok (PStr text), st') ->
  loads rt (candidate_answer text) = Ok (PDict d) ->
  json_keys (fst (predict rt st command audio shop_domain))
  = Some [py "message"; py "action"; py "query"; py "handle"] /\
  json_field (fst (predict rt st command audio shop_domain)) "message"
  = Some (reread (float_repr rt)
            (default (PStr (candidate_answer text)) (dict_lookup (py "message") d))) /\
  json_field (fst (predict rt st command audio shop_domain)) "action"
  = Some (reread (float_repr rt)
            (default (PStr (py "none")) (dict_lookup (py "action") d))) /\
  json_field (fst (predict rt st command audio shop_domain)) "query"
  = Some (reread (float_repr rt) (default PNone (dict_lookup (py "query") d))) /\
  json_field (fst (predict rt st command audio shop_domain)) "handle"
  = Some (reread (float_repr rt) (default PNone (dict_lookup (py "handle") d))) /\
  (forall (k : string) v,
     In k ["message"; "action"; "query"; "handle"]%string ->
     dict_lookup (py k) d = Some v -> stable (float_repr rt) v = true ->
     json_field (fst (predict rt st command audio shop_domain)) k = Some v).
Proof.
  intros Hrun Hseg.
  rewrite (predict_of_response rt _ _ _ _ _ _ Hrun), (respond_object rt _ d)
    by done.
  unfold json_keys, json_field. cbn [fst]. rewrite decode_response.
  do 5 (split; [done|]).
  intros k v Hk Hv Hs. simpl in Hk.
  destruct Hk as [<-|[<-|[<-|[<-|[]]]]];
    rewrite Hv; simpl; by rewrite reread_stable.
Qed.

Lemma parsed_fields_are_returned_witness :
  json_keys
    (fst (predict echo start
            (js "<|assistant|>{`message`: `Hi`, `action`: `search`, `query`: `red`}")
            (py "QUJD") []))
  = Some [py "message"; py "action"; py "query"; py "handle"] /\
  json_field
    (fst (predict echo start
            (js "<|assistant|>{`message`: `Hi`, `action`: `search`, `query`: `red`}")
            (py "QUJD") [])) "message"
  = Some (reread (float_repr echo)
            (default
               (PStr (candidate_answer
                        (js "<|assistant|>{`message`: `Hi`, `action`: `search`, `query`: `red`}")))
               (dict_lookup (py "message")
                  [(py "message", PStr (py "Hi")); (py "action", PStr (py "search"));
                   (py "query", PStr (py "red"))]))) /\
  json_field
    (fst (predict echo start
            (js "<|assistant|>{`message`: `Hi`, `action`: `search`, `query`: `red`}")
            (py "QUJD") [])) "action"
  = Some (reread (float_repr echo)
            (default (PStr (py "none"))
               (dict_lookup (py "action")
                  [(py "message", PStr (py "Hi")); (py "action", PStr (py "search"));
                   (py "query", PStr (py "red"))]))) /\
  json_field
    (fst (predict echo start
            (js "<|assistant|>{`message`: `Hi`, `action`: `search`, `query`: `red`}")
            (py "QUJD") [])) "query"
  = Some (reread (float_repr echo)
            (default PNone
               (dict_lookup (py "query")
                  [(py "message", PStr (py "Hi")); (py "action", PStr (py "search"));
                   (py "query", PStr (py "red"))]))) /\
  json_field
    (fst (predict echo start
            (js "<|assistant|>{`message`: `Hi`, `action`: `search`, `query`: `red`}")
            (py "QUJD") [])) "handle"
  = Some (reread (float_repr echo)
            (default PNone
               (dict_lookup (py "handle")
                  [(py "message", PStr (py "Hi")); (py "action", PStr (py "search"));
                   (py "query", PStr (py "red"))]))) /\
  (forall (k : string) v,
     In k ["message"; "action"; "query"; "handle"]%string ->
     dict_lookup (py k)
       [(py "message", PStr (py "Hi")); (py "action", PStr (py "search"));
        (py "query", PStr (py "red"))] = Some v ->
     stable (float_repr echo) v = true ->
     json_field
       (fst (predict echo start
               (js "<|assistant|>{`message`: `Hi`, `action`: `search`, `query`: `red`}")
               (py "QUJD") [])) k = Some v).
Proof.
  apply (parsed_fields_are_returned echo start
           (Build_state echo 1%nat
              [({| audio := py "QUJD";
                   turns := conversation
                     (js "<|assistant|>{`message`: `Hi`, `action`: `search`, `query`: `red`}");
                   sampling_rate := 16000 |}, generation)])
           (js "<|assistant|>{`message`: `Hi`, `action`: `search`, `query`: `red`}")
           (py "QUJD") []
           (js "<|assistant|>{`message`: `Hi`, `action`: `search`, `query`: `red`}")
           [(py "message", PStr (py "Hi")); (py "action", PStr (py "search"));
            (py "query", PStr (py "red"))]).
  - vm_compute. reflexivity.
  - vm_compute. reflexivity.
Defined.

(** C4, as the specification states it, fails: a candidate answer
    that is not JSON for being nested without end, beyond the
    recursion limit, makes [json.loads] raise a [RecursionError],
    which the inner handler does not catch: the call returns the
    error payload, not the candidate answer as the message. *)
Lemma unterminated_nesting_takes_error_path :
  ~ (json_decode (candidate_answer (repeat 91 1000)) = None ->
     json_field (fst (predict echo start (repeat 91 1000) (py "QUJD") [])) "message"
     = Some (PStr (candidate_answer (repeat 91 1000))) /\
     json_field (fst (predict echo start (repeat 91 1000) (py "QUJD") [])) "action"
     = Some (PStr (py "none")) /\
     json_field (fst (predict echo start (repeat 91 1000) (py "QUJD") [])) "query"
     = Some PNone /\
     json_field (fst (predict echo start (repeat 91 1000) (py "QUJD") [])) "handle"
     = Some PNone).
Proof.
  intros H. destruct H as (Hm & _); [vm_compute; reflexivity|].
  vm_compute in Hm. discriminate Hm.
Qed.

(** C4, amended: when [json.loads] refuses the candidate answer of
    the generated text with a [JSONDecodeError], the body of
    [predict] does not raise: the call returns the text of the object
    whose "message" is the candidate answer (as it is read back, which
    is as it is when it holds no surrogate code points), whose
    "action" is "none" and whose "query" and "handle" are null. *)
Theorem plain_text_is_not_an_error (rt : runtime) (st st' : state rt)
    (command audio shop_domain text : pystr) (e : pyexn) :
  run_model rt command audio st = (Ok (PStr text), st') ->
  loads rt (candidate_answer text) = Raise e ->
  is_JSONDecodeError e = true ->
  predict_body rt command audio st
  = (Ok (fst (predict rt st command audio shop_domain)), st') /\
  json_keys (fst (predict rt st command audio shop_domain))
  = Some [py "message"; py "action"; py "query"; py "handle"] /\
  json_field (fst (predict rt st command audio shop_domain)) "message"
  = Some (PStr (restring (candidate_answer text))) /\
  (forallb is_scalar (candidate_answer text) = true ->
   json_field (fst (predict rt st command audio shop_domain)) "message"
   = Some (PStr (candidate_answer text))) /\
  json_field (fst (predict rt st command audio shop_domain)) "action"
  = Some (PStr (py "none")) /\
  json_field (fst (predict rt st command audio shop_domain)) "query"
  = Some PNone /\
  json_field (fst (predict rt st command audio shop_domain)) "handle"
  = Some PNone.
Proof.
  intros Hrun Hl He.
  rewrite (predict_of_response rt _ _ _ _ _ _ Hrun), (respond_not_json rt _ e)
    by done.
  split; [by rewrite predict_body_unfold, Hrun, (respond_not_json rt _ e)|].
  unfold json_keys, json_field. cbn [fst]. rewrite decode_response.
  do 2 (split; [done|]). split; [|done].
  intros Hs. cbn [reread dict_lookup]. simpl. by rewrite restring_scalar.
Qed.

Lemma plain_text_is_not_an_error_witness :
  predict_body echo (js "<|assistant|> I'm not sure. ") (py "QUJD") start
  = (Ok (fst (predict echo start (js "<|assistant|> I'm not sure. ") (py "QUJD") [])),
     Build_state echo 1%nat
       [({| audio := py "QUJD";
            turns := conversation (js "<|assistant|> I'm not sure. ");
            sampling_rate := 16000 |}, generation)]) /\
  json_keys (fst (predict echo start (js "<|assistant|> I'm not sure. ") (py "QUJD") []))
  = Some [py "message"; py "action"; py "query"; py "handle"] /\
  json_field (fst (predict echo start (js "<|assistant|> I'm not sure. ") (py "QUJD") []))
    "message"
  = Some (PStr (restring (candidate_answer (js "<|assistant|> I'm not sure. ")))) /\
  (forallb is_scalar (candidate_answer (js "<|assistant|> I'm not sure. ")) = true ->
   json_field (fst (predict echo start (js "<|assistant|> I'm not sure. ") (py "QUJD") []))
     "message"
   = Some (PStr (candidate_answer (js "<|assistant|> I'm not sure. ")))) /\
  json_field (fst (predict echo start (js "<|assistant|> I'm not sure. ") (py "QUJD") []))
    "action"
  = Some (PStr (py "none")) /\
  json_field (fst (predict echo start (js "<|assistant|> I'm not sure. ") (py "QUJD") []))
    "query"
  = Some PNone /\
  json_field (fst (predict echo start (js "<|assistant|> I'm not sure. ") (py "QUJD") []))
    "handle"
  = Some PNone.
Proof.
  apply (plain_text_is_not_an_error echo start _
           (js "<|assistant|> I'm not sure. ") (py "QUJD") []
           (js "<|assistant|> I'm not sure. ") decode_error).
  - vm_compute. reflexivity.
  - vm_compute. reflexivity.
  - reflexivity.
Defined.

(** The white space of [str.strip], character by character. *)
Lemma isspace_spec c : isspace c = true <-> In c white_space.
Proof.
  unfold isspace, white_space. split.
  - intros H. simpl.
    repeat match type of H with
    | (_ || _) = true => apply orb_true_iff in H as [H|H]
    | (_ && _) = true => apply andb_true_iff in H as [? ?]
    end;
    repeat match goal with
    | H : (_ =? _) = true |- _ => apply N.eqb_eq in H
    | H : (_ <=? _) = true |- _ => apply N.leb_le in H
    | H : (_ <? _) = true |- _ => apply N.ltb_lt in H
    end; lia.
  - intros H. simpl in H.
    repeat destruct H as [<-|H]; try done.
Qed.

Lemma forallb_isspace l : forallb isspace l = true -> Forall (fun c => In c white_space) l.
Proof.
  intros H. apply Forall_forall. intros c Hc. apply isspace_spec.
  rewrite forallb_forall in H. by apply H.
Qed.

(** C5: the candidate answer that [predict] goes on to parse is what
    follows the last occurrence of the assistant marker in the
    generated text, or the whole generated text when the marker does
    not occur, without the white space around it: that text is the
    candidate answer with white-space characters only before and
    after it, and the candidate answer neither starts nor ends with a
    white-space character. *)
Theorem candidate_is_text_after_last_marker (text : pystr) :
  exists seg l r,
    assistant_segment (PStr text) = Ok seg /\
    default text (after_last_occurrence assistant_marker text) = l ++ seg ++ r /\
    Forall (fun c => In c white_space) l /\
    Forall (fun c => In c white_space) r /\
    (forall c s, seg = c :: s -> ~ In c white_space) /\
    (forall c s, seg = s ++ [c] -> ~ In c white_space).
Proof.
  rewrite assistant_segment_candidate. unfold candidate_answer.
  set (tail := match after_last_occurrence assistant_marker text with
               | Some t => t
               | None => text
               end).
  assert (default text (after_last_occurrence assistant_marker text) = tail) as ->
    by (subst tail; by destruct (after_last_occurrence assistant_marker text)).
  destruct (str_strip_spec tail) as (l & r & Ht & Hl & Hr & Hh & Hlast).
  exists (str_strip tail), l, r. split; [done|]. split; [done|].
  split; [by apply forallb_isspace|]. split; [by apply forallb_isspace|].
  split.
  - intros c s Hs Hc. rewrite Hs in Hh. apply isspace_spec in Hc. congruence.
  - intros c s Hs Hc. rewrite Hs, rev_app_distr in Hlast. simpl in Hlast.
    apply isspace_spec in Hc. congruence.
Qed.

Lemma candidate_is_text_after_last_marker_witness :
  exists seg l r,
    assistant_segment
      (PStr (js "<|user|>hi<|assistant|>no<|assistant|>  {`message`: `Hi`} "))
    = Ok seg /\
    default (js "<|user|>hi<|assistant|>no<|assistant|>  {`message`: `Hi`} ")
      (after_last_occurrence assistant_marker
         (js "<|user|>hi<|assistant|>no<|assistant|>  {`message`: `Hi`} "))
    = l ++ seg ++ r /\
    Forall (fun c => In c white_space) l /\
    Forall (fun c => In c white_space) r /\
    (forall c s, seg = c :: s -> ~ In c white_space) /\
    (forall c s, seg = s ++ [c] -> ~ In c white_space).
Proof.
  apply (candidate_is_text_after_last_marker
           (js "<|user|>hi<|assistant|>no<|assistant|>  {`message`: `Hi`} ")).
Defined.

(** C6: two calls that differ in the shop domain only return the same
    text (and leave the same state). *)
Theorem shop_domain_is_ignored (rt : runtime) (st : state rt)
    (command audio shop_domain1 shop_domain2 : pystr) :
  predict rt st command audio shop_domain1
  = predict rt st command audio shop_domain2.
Proof. reflexivity. Qed.

(** Without sampling, the answer does not depend on the state the
    call starts in. *)
Lemma predict_state_independent (rt : runtime) (st1 st2 : state rt)
    (command audio shop_domain : pystr) :
  (forall h1 h2 inp kw, fst (pipeline rt h1 inp kw) = fst (pipeline rt h2 inp kw)) ->
  fst (predict rt st1 command audio shop_domain)
  = fst (predict rt st2 command audio shop_domain).
Proof.
  intros Hdet. unfold predict, predict_body, run_model, mbind_M, lift, call_pipeline.
  destruct (b64decode rt audio) as [data|e]; [|done].
  destruct (librosa_load rt data 16000) as [loaded|e]; [|done].
  match goal with
  | |- context [pipeline rt (hidden st1) ?inp ?kw] =>
      specialize (Hdet (hidden st1) (hidden st2) inp kw);
      destruct (pipeline rt (hidden st1) inp kw) as [r1 h1];
      destruct (pipeline rt (hidden st2) inp kw) as [r2 h2]
  end.
  cbn [fst] in Hdet. subst r2. destruct r1 as [out|e]; [|done].
  destruct (getitem_0 out) as [first|e]; [|done].
  destruct (getitem_generated_text first) as [response|e]; [|done].
  by destruct (respond rt response).
Qed.

(** With a pipeline whose answer depends on its hidden state, two
    calls with the same inputs may return different texts: the handler
    does nothing to make the pipeline deterministic. *)
Example sampling_answers_differ :
  fst (predict counting
         (snd (predict counting (Build_state counting 0%nat [])
                 (py "hello") (py "QUJD") []))
         (py "hello") (py "QUJD") [])
  <> fst (predict counting (Build_state counting 0%nat [])
            (py "hello") (py "QUJD") []).
Proof. vm_compute. intros H. discriminate H. Qed.

(** C7: when the pipeline is deterministic, that is when its answer
    does not depend on its hidden state, a second call with the same
    inputs returns the same text as the first. *)
Theorem predict_is_repeatable (rt : runtime) (st : state rt)
    (command audio shop_domain : pystr) :
  (forall h1 h2 inp kw, fst (pipeline rt h1 inp kw) = fst (pipeline rt h2 inp kw)) ->
  fst (predict rt (snd (predict rt st command audio shop_domain))
         command audio shop_domain)
  = fst (predict rt st command audio shop_domain).
Proof. intros Hdet. by apply predict_state_independent. Qed.

Lemma echo_deterministic (h1 h2 : world echo) inp kw :
  fst (pipeline echo h1 inp kw) = fst (pipeline echo h2 inp kw).
Proof.
  destruct inp as [a t sr]. cbn. unfold echo_pipeline. cbn.
  by destruct t as [|? [|? [|? ?]]].
Qed.

Lemma predict_is_repeatable_witness :
  fst (predict echo (snd (predict echo start (py "hello") (py "QUJD") []))
         (py "hello") (py "QUJD") [])
  = fst (predict echo start (py "hello") (py "QUJD") []).
Proof.
  apply (predict_is_repeatable echo start (py "hello") (py "QUJD") []).
  exact echo_deterministic.
Defined.

(** C8: a call whose audio decodes and loads invokes the pipeline
    exactly once, with the conversation of the command and the fixed
    generation parameters. *)
Theorem pipeline_called_once_with_fixed_parameters (rt : runtime)
    (st : state rt) (command audio shop_domain : pystr)
    (data : list N) (loaded : waveform rt * Z) :
  b64decode rt audio = Ok data ->
  librosa_load rt data 16000 = Ok loaded ->
  calls (snd (predict rt st command audio shop_domain))
  = calls st
      ++ [({| audio := fst loaded;
              turns := conversation command;
              sampling_rate := snd loaded |},
           {| max_new_tokens := 100;
              do_sample := true;
              top_k := 50;
              top_p := py "0.95";
              num_return_sequences := 1;
              batch_size := 1 |})].
Proof.
  intros Hdec Hload.
  unfold predict, predict_body, run_model, mbind_M, lift, call_pipeline.
  rewrite Hdec, Hload.
  match goal with
  | |- context [pipeline rt (hidden st) ?inp ?kw] =>
      destruct (pipeline rt (hidden st) inp kw) as [r h]
  end.
  destruct r as [out|e]; [|done].
  destruct (getitem_0 out) as [first|e]; [|done].
  destruct (getitem_generated_text first) as [response|e]; [|done].
  by destruct (respond rt response).
Qed.

Lemma pipeline_called_once_with_fixed_parameters_witness :
  calls (snd (predict echo start (py "hello") (py "QUJD") []))
  = calls start
      ++ [({| audio := fst (py "QUJD", 16000%Z);
              turns := conversation (py "hello");
              sampling_rate := snd (py "QUJD", 16000%Z) |},
           {| max_new_tokens := 100;
              do_sample := true;
              top_k := 50;
              top_p := py "0.95";
              num_return_sequences := 1;
              batch_size := 1 |})].
Proof.
  apply (pipeline_called_once_with_fixed_parameters echo start (py "hello")
           (py "QUJD") [] (py "QUJD") (py "QUJD", 16000%Z)).
  - vm_compute. reflexivity.
  - reflexivity.
Defined.

(** A call whose audio does not decode, or does not load, does not
    invoke the pipeline. *)
Lemma pipeline_not_called_without_audio (rt : runtime) (st : state rt)
    (command audio shop_domain : pystr) :
  (forall data loaded, b64decode rt audio = Ok data ->
                       librosa_load rt data 16000 <> Ok loaded) ->
  calls (snd (predict rt st command audio shop_domain)) = calls st.
Proof.
  intros Hno. unfold predict, predict_body, run_model, mbind_M, lift.
  destruct (b64decode rt audio) as [data|e]; [|done].
  destruct (librosa_load rt data 16000) as [loaded|e] eqn:E; [|done].
  by destruct (Hno data loaded).
Qed.

(** C9: when the candidate answer of the generated text is JSON but
    not an object, the call returns the error payload, the text of a
    dictionary with the single key "message", not the four-field
    response: when [json.loads] returns the value, the lookup of the
    fields raises the [AttributeError] whose text the payload
    carries, and otherwise [json.loads] itself has raised, at one of
    the limits of the interpreter. *)
Theorem non_object_json_is_an_error (rt : runtime) (st st' : state rt)
    (command audio shop_domain text : pystr) (v : pyval) :
  run_model rt command audio st = (Ok (PStr text), st') ->
  json_decode (candidate_answer text) = Some v ->
  (forall d, v <> PDict d) ->
  (exists e,
     predict rt st command audio shop_domain
     = (json_dumps (float_repr rt) (error_dict e), st') /\
     (loads rt (candidate_answer text) = Ok v -> e = no_attribute v "get") /\
     (forall e', loads rt (candidate_answer text) = Raise e' -> e = e')) /\
  json_keys (fst (predict rt st command audio shop_domain))
  = Some [py "message"].
Proof.
  intros Hrun Hseg Hv.
  rewrite (predict_of_response rt _ _ _ _ _ _ Hrun).
  destruct (json_loads_of_json (json_nesting rt + 4) (int_max_str_digits rt)
              _ _ Hseg) as [Hl|(e & Hl & He)]; fold (loads rt (candidate_answer text)) in Hl.
  - rewrite (respond_not_object rt _ v) by done. split.
    + eexists. split; [done|]. split; [done|]. intros e'. by rewrite Hl.
    + unfold json_keys. cbn [fst]. by rewrite decode_error_dict.
  - rewrite (respond_limit rt _ e) by done. split.
    + exists e. split; [done|]. rewrite Hl. split; [done|]. by intros e' [= ->].
    + unfold json_keys. cbn [fst]. by rewrite decode_error_dict.
Qed.

Lemma non_object_json_is_an_error_witness :
  (exists e,
     predict echo start (js "<|assistant|> 42 ") (py "QUJD") []
     = (json_dumps (float_repr echo) (error_dict e),
        Build_state echo 1%nat
          [({| audio := py "QUJD";
               turns := conversation (js "<|assistant|> 42 ");
               sampling_rate := 16000 |}, generation)]) /\
     (loads echo (candidate_answer (js "<|assistant|> 42 ")) = Ok (PInt 42) ->
      e = no_attribute (PInt 42) "get") /\
     (forall e', loads echo (candidate_answer (js "<|assistant|> 42 ")) = Raise e' ->
                 e = e')) /\
  json_keys (fst (predict echo start (js "<|assistant|> 42 ") (py "QUJD") []))
  = Some [py "message"].
Proof.
  apply (non_object_json_is_an_error echo start _ (js "<|assistant|> 42 ")
           (py "QUJD") [] (js "<|assistant|> 42 ") (PInt 42)).
  - vm_compute. reflexivity.
  - vm_compute. reflexivity.
  - intros d. discriminate.
Defined.

(** C10, as stated, fails: a candidate answer that is a JSON object
    without the key "message" and that is nested deeper than the
    recursion limit allows is answered with the error payload, whose
    "message" is not the candidate answer. *)
Lemma deep_object_without_message_is_an_error :
  exists d,
    json_decode
      (candidate_answer (js "{`action`: `search`, `query`: " ++ nested_arrays 1000 ++ py "}"))
    = Some (PDict d) /\
    dict_lookup (py "message") d = None /\
    json_field
      (fst (predict echo start
              (js "{`action`: `search`, `query`: " ++ nested_arrays 1000 ++ py "}")
              (py "QUJD") [])) "message"
    <> Some (PStr (candidate_answer
                     (js "{`action`: `search`, `query`: " ++ nested_arrays 1000 ++ py "}"))).
Proof.
  eexists. split; [vm_compute; reflexivity|].
  split; [vm_compute; reflexivity|].
  intros H. vm_compute in H. discriminate H.
Qed.

(** C10, amended: when [json.loads] reads the candidate answer of the
    generated text as an object without the key "message", the
    "message" of the response is the whole candidate answer, the text
    of the object itself (as it is read back, which is as it is when
    it holds no surrogate code points). *)
Theorem missing_message_is_whole_segment (rt : runtime) (st st' : state rt)
    (command audio shop_domain text : pystr) (d : list (pystr * pyval)) :
  run_model rt command audio st = (Ok (PStr text), st') ->
  loads rt (candidate_answer text) = Ok (PDict d) ->
  dict_lookup (py "message") d = None ->
  json_keys (fst (predict rt st command audio shop_domain))
  = Some [py "message"; py "action"; py "query"; py "handle"] /\
  json_field (fst (predict rt st command audio shop_domain)) "message"
  = Some (PStr (restring (candidate_answer text))) /\
  (forallb is_scalar (candidate_answer text) = true ->
   json_field (fst (predict rt st command audio shop_domain)) "message"
   = Some (PStr (candidate_answer text))).
Proof.
  intros Hrun Hseg Hm.
  rewrite (predict_of_response rt _ _ _ _ _ _ Hrun), (respond_object rt _ d)
    by done.
  rewrite Hm. unfold json_keys, json_field. cbn [fst default].
  rewrite decode_response. do 2 (split; [done|]).
  intros Hs. cbn [reread dict_lookup]. simpl. by rewrite restring_scalar.
Qed.

Lemma missing_message_is_whole_segment_witness :
  json_keys (fst (predict echo start (js "<|assistant|> {`action`: `search`} ")
                    (py "QUJD") []))
  = Some [py "message"; py "action"; py "query"; py "handle"] /\
  json_field (fst (predict echo start (js "<|assistant|> {`action`: `search`} ")
                     (py "QUJD") [])) "message"
  = Some (PStr (restring (candidate_answer (js "<|assistant|> {`action`: `search`} ")))) /\
  (forallb is_scalar (candidate_answer (js "<|assistant|> {`action`: `search`} ")) = true ->
   json_field (fst (predict echo start (js "<|assistant|> {`action`: `search`} ")
                      (py "QUJD") [])) "message"
   = Some (PStr (candidate_answer (js "<|assistant|> {`action`: `search`} ")))).
Proof.
  apply (missing_message_is_whole_segment echo start
           (Build_state echo 1%nat
              [({| audio := py "QUJD";
                   turns := conversation (js "<|assistant|> {`action`: `search`} ");
                   sampling_rate := 16000 |}, generation)])
           (js "<|assistant|> {`action`: `search`} ") (py "QUJD") []
           (js "<|assistant|> {`action`: `search`} ")
           [(py "action", PStr (py "search"))]).
  - vm_compute. reflexivity.
  - vm_compute. reflexivity.
  - vm_compute. reflexivity.
Defined.

(** ** More about the handler: failures and the pipeline call *)

(** The input and the state of the one pipeline call of [predict]. *)
Lemma predict_body_audio_ok (rt : runtime) (st : state rt)
    (command audio : pystr) (data : list N) (loaded : waveform rt * Z) :
  b64decode rt audio = Ok data ->
  librosa_load rt data 16000 = Ok loaded ->
  predict_body rt command audio st
  = let inp := {| audio := fst loaded;
                  turns := conversation command;
                  sampling_rate := snd loaded |} in
    let st' := {| hidden := snd (pipeline rt (hidden st) inp generation);
                  calls := calls st ++ [(inp, generation)] |} in
    match fst (pipeline rt (hidden st) inp generation) with
    | Ok out =>
        (first <~ getitem_0 out ;;
         response <~ getitem_generated_text first ;;
         respond rt response, st')
    | Raise e => (Raise e, st')
    end.
Proof.
  intros Hdec Hload.
  unfold predict_body, run_model, mbind_M, lift, call_pipeline.
  rewrite Hdec, Hload. cbn zeta.
  match goal with
  | |- context [pipeline rt (hidden st) ?inp ?kw] =>
      destruct (pipeline rt (hidden st) inp kw) as [[out|e] h]
  end; [|done].
  cbn [fst snd].
  destruct (getitem_0 out) as [first|e]; [|done]. cbn [bind].
  by destruct (getitem_generated_text first).
Qed.

Lemma predict_body_audio_fails (rt : runtime) (st : state rt)
    (command audio : pystr) (e : pyexn) :
  b64decode rt audio = Raise e \/
  (exists data, b64decode rt audio = Ok data /\
                librosa_load rt data 16000 = Raise e) ->
  predict_body rt command audio st = (Raise e, st).
Proof.
  unfold predict_body, run_model, mbind_M, lift.
  intros [->|(data & -> & ->)]; done.
Qed.

(** X1: when the audio does not decode from base64, or the decoded
    bytes do not load as audio, with the exception [e], [predict]
    returns the error payload of [e] and leaves the state as it was:
    the pipeline is not called and its hidden state does not change.
    The payload is the object whose only key is "message", with
    "Error: " and the text of [e] as its value. *)
Theorem undecodable_audio_is_reported (rt : runtime) (st : state rt)
    (command audio shop_domain : pystr) (e : pyexn) :
  b64decode rt audio = Raise e \/
  (exists data, b64decode rt audio = Ok data /\
                librosa_load rt data 16000 = Raise e) ->
  predict rt st command audio shop_domain
  = (json_dumps (float_repr rt) (error_dict e), st) /\
  json_keys (fst (predict rt st command audio shop_domain))
  = Some [py "message"] /\
  json_field (fst (predict rt st command audio shop_domain)) "message"
  = Some (PStr (py "Error: " ++ restring (exn_text e))).
Proof.
  intros H. unfold predict, json_keys, json_field.
  rewrite (predict_body_audio_fails rt st _ _ e) by done. cbn [fst].
  by rewrite decode_error_dict.
Qed.

Lemma undecodable_audio_is_reported_witness :
  predict echo start (py "find a jacket") (py "abc") (py "shop")
  = (json_dumps (float_repr echo)
       (error_dict (mk_exn ValueError (py "Incorrect padding"))), start) /\
  json_keys (fst (predict echo start (py "find a jacket") (py "abc") (py "shop")))
  = Some [py "message"] /\
  json_field (fst (predict echo start (py "find a jacket") (py "abc") (py "shop")))
    "message"
  = Some (PStr (py "Error: "
                  ++ restring (exn_text (mk_exn ValueError (py "Incorrect padding"))))).
Proof.
  apply (undecodable_audio_is_reported echo start (py "find a jacket")
           (py "abc") (py "shop") (mk_exn ValueError (py "Incorrect padding"))).
  left. vm_compute. reflexivity.
Defined.

(** X2: whatever the inputs and whatever the collaborators do,
    [predict] calls the pipeline at most once (nothing is retried),
    after the calls made before, and a call it makes has the
    conversation of the command and the fixed generation parameters. *)
Theorem pipeline_called_at_most_once (rt : runtime) (st : state rt)
    (command audio shop_domain : pystr) :
  exists l,
    calls (snd (predict rt st command audio shop_domain)) = calls st ++ l /\
    (length l <= 1)%nat /\
    Forall (fun call => turns (fst call) = conversation command /\
                        snd call = generation) l.
Proof.
  unfold predict.
  destruct (b64decode rt audio) as [data|e] eqn:Hdec.
  2:{ rewrite (predict_body_audio_fails rt st _ _ e) by by left.
      exists []. rewrite app_nil_r. split; [done|]. split; [simpl; lia|constructor]. }
  destruct (librosa_load rt data 16000) as [loaded|e] eqn:Hload.
  2:{ rewrite (predict_body_audio_fails rt st _ _ e) by (right; by exists data).
      exists []. rewrite app_nil_r. split; [done|]. split; [simpl; lia|constructor]. }
  rewrite (predict_body_audio_ok rt st _ _ data loaded) by done. cbn zeta.
  match goal with
  | |- context [pipeline rt (hidden st) ?inp ?kw] =>
      exists [(inp, kw)]; split; [|split; [simpl; lia|by repeat constructor]];
      destruct (pipeline rt (hidden st) inp kw) as [[out|e] h]
  end; [|done].
  cbn [fst snd].
  by destruct (first <~ getitem_0 out;;
               response <~ getitem_generated_text first;; respond rt response).
Qed.

(** X4: with floats printed as float tokens, the keys of the returned
    object tell whether the body of [predict] returned or raised: the
    four keys of the response in the first case, the key "message"
    alone in the second. *)
Theorem keys_tell_response_from_error (rt : runtime) (st : state rt)
    (command audio shop_domain : pystr) :
  (forall x, is_float_token (float_repr rt x) = true) ->
  json_keys (fst (predict rt st command audio shop_domain))
  = match fst (predict_body rt command audio st) with
    | Ok _ => Some [py "message"; py "action"; py "query"; py "handle"]
    | Raise _ => Some [py "message"]
    end.
Proof.
  intros Hfr. unfold predict, json_keys. rewrite predict_body_unfold.
  destruct (run_model rt command audio st) as [[response|e] st1]; cbn [fst].
  2:{ by rewrite decode_error_dict. }
  unfold respond.
  destruct (assistant_segment response) as [seg|e]; cbn [bind fst].
  2:{ by rewrite decode_error_dict. }
  destruct (parse_fields rt seg) as [[[[m a] q] h]|e]; cbn [bind fst].
  - by rewrite decode_response_dict.
  - by rewrite decode_error_dict.
Qed.

Lemma keys_tell_response_from_error_witness :
  json_keys (fst (predict echo start (py "hello") (py "QUJD") []))
  = match fst (predict_body echo (py "hello") (py "QUJD") start) with
    | Ok _ => Some [py "message"; py "action"; py "query"; py "handle"]
    | Raise _ => Some [py "message"]
    end.
Proof.
  apply (keys_tell_response_from_error echo start (py "hello") (py "QUJD") []).
  exact (float_repr_token echo).
Defined.

(** ** More about the candidate answer *)

(** A marker in front of a text is its last occurrence unless the text
    holds one itself. *)
Lemma after_last_occurrence_prefix m pre t :
  m <> [] -> unbordered m = true ->
  after_last_occurrence m (pre ++ m ++ t)
  = Some (default t (after_last_occurrence m t)).
Proof.
  intros Hne Hub. destruct (after_last_occurrence m t) as [t2|] eqn:E; simpl.
  - apply after_last_occurrence_Some in E as (b2 & -> & Hmax).
    apply (after_last_occurrence_complete _ _ (pre ++ m ++ b2) t2);
      [by rewrite <- !app_assoc|].
    intros b' t' Heq. rewrite !length_app.
    destruct (decide (length pre + length m <= length b')%nat) as [Hge|]; [|lia].
    rewrite !(app_assoc pre) in Heq.
    apply app_eq_app_le in Heq as (l & -> & Heq); [|by rewrite length_app].
    apply Hmax in Heq. rewrite !length_app. lia.
  - apply (after_last_occurrence_complete _ _ pre t); [done|].
    intros b' t' Heq.
    destruct (decide (length b' <= length pre)%nat) as [|Hgt]; [done|exfalso].
    destruct (decide (length pre + length m <= length b')%nat) as [Hge|Hov].
    + rewrite (app_assoc pre) in Heq.
      apply app_eq_app_le in Heq as (l & -> & Heq); [|by rewrite length_app].
      by eapply after_last_occurrence_None in E.
    + pose proof (overlap_border _ _ _ _ _ Heq ltac:(lia) ltac:(lia)) as Hb.
      rewrite unbordered_no_border in Hb; [done|done|lia|lia].
Qed.

Lemma candidate_answer_prefix pre t :
  candidate_answer (pre ++ assistant_marker ++ t) = candidate_answer t.
Proof.
  unfold candidate_answer.
  rewrite after_last_occurrence_prefix
    by (apply assistant_marker_nonempty || apply assistant_marker_unbordered).
  by destruct (after_last_occurrence assistant_marker t).
Qed.

(** X5: what the generated text holds up to and including an
    assistant marker has no influence on the answer: lines 73 to 93
    give for it what they give for the text after that marker alone. *)
Theorem text_before_marker_is_ignored (rt : runtime) (pre t : pystr) :
  assistant_segment (PStr (pre ++ assistant_marker ++ t))
  = assistant_segment (PStr t) /\
  respond rt (PStr (pre ++ assistant_marker ++ t)) = respond rt (PStr t).
Proof.
  assert (assistant_segment (PStr (pre ++ assistant_marker ++ t))
          = assistant_segment (PStr t)) as H
    by (by rewrite !assistant_segment_candidate, candidate_answer_prefix).
  split; [done|]. unfold respond. by rewrite H.
Qed.

Lemma lstrip_fixed s :
  match s with [] => True | c :: _ => isspace c = false end -> lstrip s = s.
Proof. destruct s as [|c s]; [done|]. simpl. by intros ->. Qed.

Lemma str_strip_fixed s :
  match s with [] => True | c :: _ => isspace c = false end ->
  match rev s with [] => True | c :: _ => isspace c = false end ->
  str_strip s = s.
Proof.
  intros H1 H2. unfold str_strip, rstrip.
  by rewrite (lstrip_fixed s), (lstrip_fixed (rev s)), rev_involutive.
Qed.

(** X6: the candidate answer is a piece of the generated text that is
    followed by white space only up to the end of it; it neither
    starts nor ends with a white-space character, and trimming it
    again does not change it. *)
Theorem candidate_answer_is_trimmed (text : pystr) :
  exists seg p r,
    assistant_segment (PStr text) = Ok seg /\
    text = p ++ seg ++ r /\ forallb isspace r = true /\
    match seg with [] => True | c :: _ => isspace c = false end /\
    match rev seg with [] => True | c :: _ => isspace c = false end /\
    str_strip seg = seg.
Proof.
  rewrite assistant_segment_candidate. unfold candidate_answer.
  destruct (after_last_occurrence assistant_marker text) as [t|] eqn:E; simpl.
  - apply after_last_occurrence_Some in E as (b & Heq & _).
    destruct (str_strip_spec t) as (l & r & Ht & Hl & Hr & Hh & Hlast).
    exists (str_strip t), (b ++ assistant_marker ++ l), r.
    split; [done|]. split; [by rewrite <- !app_assoc, <- Ht|].
    split; [done|]. split; [done|]. split; [done|].
    by apply str_strip_fixed.
  - destruct (str_strip_spec text) as (l & r & Ht & Hl & Hr & Hh & Hlast).
    exists (str_strip text), l, r.
    split; [done|]. split; [done|].
    split; [done|]. split; [done|]. split; [done|].
    by apply str_strip_fixed.
Qed.

Lemma lstrip_blank ws : forallb isspace ws = true -> lstrip ws = [].
Proof.
  induction ws as [|c ws IH]; [done|]. simpl.
  intros [-> H]%andb_true_iff. by apply IH.
Qed.

Lemma str_strip_blank ws : forallb isspace ws = true -> str_strip ws = [].
Proof. intros H. unfold str_strip. by rewrite lstrip_blank. Qed.

Lemma candidate_answer_blank ws :
  forallb isspace ws = true -> candidate_answer ws = [].
Proof.
  intros H. unfold candidate_answer.
  destruct (after_last_occurrence assistant_marker ws) as [t|] eqn:E;
    [|by apply str_strip_blank].
  apply after_last_occurrence_Some in E as (b & -> & _).
  rewrite !forallb_app in H.
  by apply andb_true_iff in H as [_ [? _]%andb_true_iff].
Qed.

(** X7: when nothing but white space follows the last assistant
    marker of the generated text, or the generated text is white space
    only, the answer is not an error: it is the response with the
    empty message, the action "none" and no query or handle. *)
Theorem blank_answer_gives_empty_message (rt : runtime) (pre ws : pystr) :
  forallb isspace ws = true ->
  respond rt (PStr ws)
  = Ok (js "{`message`: ``, `action`: `none`, `query`: null, `handle`: null}") /\
  respond rt (PStr (pre ++ assistant_marker ++ ws))
  = Ok (js "{`message`: ``, `action`: `none`, `query`: null, `handle`: null}").
Proof.
  intros H.
  assert (respond rt (PStr ws)
          = Ok (js "{`message`: ``, `action`: `none`, `query`: null, `handle`: null}")) as Hr.
  { rewrite (respond_not_json rt _ decode_error).
    - by rewrite candidate_answer_blank.
    - by rewrite candidate_answer_blank.
    - done. }
  split; [done|].
  unfold respond in *.
  by rewrite !assistant_segment_candidate, candidate_answer_prefix,
    <- assistant_segment_candidate.
Qed.

Lemma blank_answer_gives_empty_message_witness :
  respond echo (PStr (py "  "))
  = Ok (js "{`message`: ``, `action`: `none`, `query`: null, `handle`: null}") /\
  respond echo (PStr (py "<|user|>hi" ++ assistant_marker ++ py "  "))
  = Ok (js "{`message`: ``, `action`: `none`, `query`: null, `handle`: null}").
Proof.
  apply (blank_answer_gives_empty_message echo (py "<|user|>hi") (py "  ")).
  reflexivity.
Defined.

(** An object whose first key does not open with a quotation mark is
    not JSON, and [json.loads] refuses it as such. *)
Lemma json_decode_unquoted_key ws c s :
  forallb is_ws ws = true -> is_ws c = false -> c <> 34 -> c <> 125 ->
  json_decode (123 :: ws ++ c :: s) = None.
Proof.
  intros Hws Hc H34 H125. unfold json_decode, decode_fuel.
  cbn [has_bom length]. change (123 =? 65279) with false. cbv iota.
  replace (2 * S (length (ws ++ c :: s)) + 2)%nat
    with (S (S (2 * length (ws ++ c :: s) + 2)))%nat by lia.
  cbn [skip_ws]. change (is_ws 123) with false. cbv iota.
  cbn [scan_once]. change (123 =? 34) with false. change (123 =? 123) with true.
  cbv iota.
  assert (skip_ws (ws ++ c :: s) = c :: s) as ->.
  { induction ws as [|w ws IH]; simpl.
    - by rewrite Hc.
    - simpl in Hws. apply andb_true_iff in Hws as [-> Hws]. by apply IH. }
  apply N.eqb_neq in H34, H125. rewrite H125.
  cbn [parse_members]. by rewrite H34.
Qed.

Lemma json_loads_unquoted_key n maxd ws c s :
  forallb is_ws ws = true -> is_ws c = false -> c <> 34 -> c <> 125 ->
  json_loads (n + 4) maxd (123 :: ws ++ c :: s) = Raise decode_error.
Proof.
  intros Hws Hc H34 H125. unfold json_loads, decode_fuel.
  cbn [has_bom length]. change (123 =? 65279) with false. cbv iota.
  replace (2 * S (length (ws ++ c :: s)) + 2)%nat
    with (S (S (2 * length (ws ++ c :: s) + 2)))%nat by lia.
  replace (n + 4)%nat with (S (S (S (S n)))) by lia.
  cbn [skip_ws]. change (is_ws 123) with false. cbv iota.
  cbn [scan_once_l]. change (123 =? 34) with false. change (123 =? 123) with true.
  cbv iota.
  assert (skip_ws (ws ++ c :: s) = c :: s) as ->.
  { induction ws as [|w ws IH]; simpl.
    - by rewrite Hc.
    - simpl in Hws. apply andb_true_iff in Hws as [-> Hws]. by apply IH. }
  apply N.eqb_neq in H34, H125. rewrite H125.
  cbn [parse_members_l]. by rewrite H34.
Qed.

(** X8: an answer in the notation the system prompt itself shows, an
    object whose keys stand in apostrophes, is not JSON: its fields
    are not read, the whole candidate answer is returned as the
    message, with the action "none" and no query or handle. *)
Theorem apostrophe_keys_are_not_parsed (rt : runtime) (text ws s : pystr) :
  candidate_answer text = py "{" ++ ws ++ py "'" ++ s ->
  forallb is_ws ws = true ->
  respond rt (PStr text)
  = Ok (json_dumps (float_repr rt)
          (response_dict (PStr (candidate_answer text)) (PStr (py "none"))
             PNone PNone)) /\
  json_keys (json_dumps (float_repr rt)
               (response_dict (PStr (candidate_answer text)) (PStr (py "none"))
                  PNone PNone))
  = Some [py "message"; py "action"; py "query"; py "handle"] /\
  json_field (json_dumps (float_repr rt)
                (response_dict (PStr (candidate_answer text)) (PStr (py "none"))
                   PNone PNone)) "message"
  = Some (PStr (restring (candidate_answer text))) /\
  json_field (json_dumps (float_repr rt)
                (response_dict (PStr (candidate_answer text)) (PStr (py "none"))
                   PNone PNone)) "action"
  = Some (PStr (py "none")) /\
  json_field (json_dumps (float_repr rt)
                (response_dict (PStr (candidate_answer text)) (PStr (py "none"))
                   PNone PNone)) "query"
  = Some PNone /\
  json_field (json_dumps (float_repr rt)
                (response_dict (PStr (candidate_answer text)) (PStr (py "none"))
                   PNone PNone)) "handle"
  = Some PNone.
Proof.
  intros Hc Hws. split.
  - apply (respond_not_json rt _ decode_error); [|done].
    rewrite Hc. by apply (json_loads_unquoted_key _ _ ws 39 s).
  - unfold json_keys, json_field. by rewrite decode_response.
Qed.

Lemma apostrophe_keys_are_not_parsed_witness :
  respond echo
    (PStr (py "<|assistant|> {'message': 'Here you go', 'action': 'search'}"))
  = Ok (json_dumps (float_repr echo)
          (response_dict
             (PStr (candidate_answer
                      (py "<|assistant|> {'message': 'Here you go', 'action': 'search'}")))
             (PStr (py "none")) PNone PNone)) /\
  json_keys (json_dumps (float_repr echo)
               (response_dict
                  (PStr (candidate_answer
                           (py "<|assistant|> {'message': 'Here you go', 'action': 'search'}")))
                  (PStr (py "none")) PNone PNone))
  = Some [py "message"; py "action"; py "query"; py "handle"] /\
  json_field (json_dumps (float_repr echo)
                (response_dict
                   (PStr (candidate_answer
                            (py "<|assistant|> {'message': 'Here you go', 'action': 'search'}")))
                   (PStr (py "none")) PNone PNone)) "message"
  = Some (PStr (restring
                  (candidate_answer
                     (py "<|assistant|> {'message': 'Here you go', 'action': 'search'}")))) /\
  json_field (json_dumps (float_repr echo)
                (response_dict
                   (PStr (candidate_answer
                            (py "<|assistant|> {'message': 'Here you go', 'action': 'search'}")))
                   (PStr (py "none")) PNone PNone)) "action"
  = Some (PStr (py "none")) /\
  json_field (json_dumps (float_repr echo)
                (response_dict
                   (PStr (candidate_answer
                            (py "<|assistant|> {'message': 'Here you go', 'action': 'search'}")))
                   (PStr (py "none")) PNone PNone)) "query"
  = Some PNone /\
  json_field (json_dumps (float_repr echo)
                (response_dict
                   (PStr (candidate_answer
                            (py "<|assistant|> {'message': 'Here you go', 'action': 'search'}")))
                   (PStr (py "none")) PNone PNone)) "handle"
  = Some PNone.
Proof.
  apply (apostrophe_keys_are_not_parsed echo
           (py "<|assistant|> {'message': 'Here you go', 'action': 'search'}")
           [] (py "message': 'Here you go', 'action': 'search'}")).
  - vm_compute. reflexivity.
  - reflexivity.
Defined.

(** ** The returned text is plain ASCII *)

Lemma printable_range c : printable c = true <-> 32 <= c <= 126.
Proof.
  unfold printable. rewrite andb_true_iff, N.leb_le, N.leb_le. done.
Qed.

Lemma hex_digit_printable d : d < 16 -> printable (hex_digit d) = true.
Proof.
  intros H. apply printable_range. unfold hex_digit.
  destruct (d <? 10) eqn:E; lia.
Qed.

Lemma u_escape_printable n : forallb printable (u_escape n) = true.
Proof.
  unfold u_escape, hex4. cbn [app forallb].
  rewrite !hex_digit_printable; [done|apply N.mod_lt; lia..].
Qed.

Lemma escape_char_printable c : forallb printable (escape_char c) = true.
Proof.
  unfold escape_char.
  repeat (match goal with |- context [if ?b then _ else _] => destruct b eqn:? end;
          [try done|]).
  - cbn [forallb]. unfold printable. by rewrite Heqb6.
  - apply u_escape_printable.
  - rewrite forallb_app, !u_escape_printable. done.
Qed.

Lemma escape_string_printable s : forallb printable (escape_string s) = true.
Proof.
  unfold escape_string. induction s as [|c s IH]; [done|].
  cbn [flat_map]. by rewrite forallb_app, escape_char_printable.
Qed.

Lemma encode_string_printable s : forallb printable (encode_string s) = true.
Proof.
  unfold encode_string. by rewrite !forallb_app, escape_string_printable.
Qed.

Lemma digits_printable ds :
  forallb is_digit ds = true -> forallb printable ds = true.
Proof.
  induction ds as [|c ds IH]; [done|]. cbn [forallb].
  intros [Hc H]%andb_true_iff. rewrite IH by done.
  unfold is_digit in Hc. apply andb_true_iff in Hc as [?%N.leb_le ?%N.leb_le].
  rewrite andb_true_r. apply printable_range. lia.
Qed.

Lemma int_repr_printable z : forallb printable (int_repr z) = true.
Proof.
  destruct z as [|p|p]; [done| |]; cbn [int_repr forallb];
    by rewrite digits_printable by apply uint_chars_digits.
Qed.

Lemma span_digits_digits s ds r :
  span_digits s = (ds, r) -> forallb is_digit ds = true.
Proof.
  revert ds r. induction s as [|c s IH]; intros ds r; simpl.
  - by intros [= <- <-].
  - destruct (is_digit c) eqn:E; [|by intros [= <- <-]].
    destruct (span_digits s) as [ds' r'] eqn:F. intros [= <- <-].
    simpl. by rewrite E, (IH _ _ eq_refl).
Qed.

Lemma scan_unsigned_printable s ds r :
  scan_unsigned s = Some (ds, r) -> forallb printable ds = true.
Proof.
  destruct s as [|c s]; [done|]. simpl.
  destruct (c =? 48) eqn:E0.
  { intros [= <- <-]. apply N.eqb_eq in E0 as ->. done. }
  destruct (is_digit c) eqn:Ed; [|done].
  destruct (span_digits s) as [ds' r'] eqn:E. intros [= <- <-].
  apply digits_printable. simpl. by rewrite Ed, (span_digits_digits _ _ _ E).
Qed.

Lemma scan_integer_printable s ds r :
  scan_integer s = Some (ds, r) -> forallb printable ds = true.
Proof.
  destruct s as [|c s]; [done|]. cbn [scan_integer].
  destruct (c =? 45) eqn:E.
  - destruct (scan_unsigned s) as [[ds' r']|] eqn:F; [|done].
    intros [= <- <-]. apply N.eqb_eq in E as ->. simpl.
    by apply scan_unsigned_printable in F.
  - apply scan_unsigned_printable.
Qed.

Lemma scan_frac_printable s fp r :
  scan_frac s = (fp, r) -> forallb printable fp = true.
Proof.
  destruct s as [|c s]; [by intros [= <- <-]|]. cbn [scan_frac].
  destruct (c =? 46) eqn:E; [|by intros [= <- <-]].
  destruct (span_digits s) as [ds' r'] eqn:F.
  apply span_digits_digits, digits_printable in F.
  destruct ds'; intros [= <- <-]; [done|].
  apply N.eqb_eq in E as ->. cbn [forallb] in *. by rewrite F.
Qed.

Lemma scan_exp_printable s ep r :
  scan_exp s = (ep, r) -> forallb printable ep = true.
Proof.
  destruct s as [|c s]; [by intros [= <- <-]|]. cbn [scan_exp].
  destruct ((c =? 101) || (c =? 69)) eqn:E; [|by intros [= <- <-]].
  assert (printable c = true) as Hc.
  { apply orb_true_iff in E as [->%N.eqb_eq| ->%N.eqb_eq]; done. }
  destruct s as [|sg s]; [by intros [= <- <-]|].
  destruct ((sg =? 45) || (sg =? 43)) eqn:Es.
  - assert (printable sg = true) as Hsg.
    { apply orb_true_iff in Es as [->%N.eqb_eq| ->%N.eqb_eq]; done. }
    destruct (span_digits s) as [ds' r'] eqn:F.
    apply span_digits_digits, digits_printable in F.
    destruct ds'; intros [= <- <-]; [done|].
    cbn [forallb] in *. by rewrite Hc, Hsg, F.
  - destruct (span_digits (sg :: s)) as [ds' r'] eqn:F.
    apply span_digits_digits, digits_printable in F.
    destruct ds'; intros [= <- <-]; [done|].
    cbn [forallb] in *. by rewrite Hc, F.
Qed.

(** The text of one float is plain ASCII. *)
Lemma float_token_printable t :
  is_float_token t = true -> forallb printable t = true.
Proof.
  unfold is_float_token. intros Ht.
  destruct (scan_literal t) as [[v r]|] eqn:El.
  - destruct v; try done. destruct r; [|done].
    apply scan_literal_full in El
      as [[_ [=]]|[[_ [=]]|[[_ [=]]|[[->|[->| ->]] _]]]]; done.
  - destruct (scan_number t) as [[v r]|] eqn:En; [|done].
    destruct v; try done. destruct r; [|done].
    unfold scan_number in En.
    destruct (scan_integer t) as [[ip r0]|] eqn:Ei; [|done].
    destruct (scan_frac r0) as [fp r1] eqn:Ef.
    destruct (scan_exp r1) as [ep r2] eqn:Ee.
    pose proof (scan_integer_printable _ _ _ Ei) as Hi.
    pose proof (scan_frac_printable _ _ _ Ef) as Hf.
    pose proof (scan_exp_printable _ _ _ Ee) as He.
    apply scan_integer_split in Ei as ->. apply scan_frac_split in Ef as ->.
    apply scan_exp_split in Ee as ->.
    assert (r2 = []) as -> by (destruct fp, ep; by simplify_eq).
    by rewrite !forallb_app, Hi, Hf, He.
Qed.

Lemma join_printable sep parts :
  forallb printable sep = true ->
  Forall (fun p => forallb printable p = true) parts ->
  forallb printable (join sep parts) = true.
Proof.
  intros Hsep. induction 1 as [|x l Hx Hl IH]; [done|].
  destruct l as [|y l]; [done|].
  change (join sep (x :: y :: l)) with (x ++ sep ++ join sep (y :: l)).
  by rewrite !forallb_app, Hx, Hsep, IH.
Qed.

Lemma json_dumps_printable fr v :
  floats_print fr v = true -> forallb printable (json_dumps fr v) = true.
Proof.
  induction v as [|b|z|x|s|l IHl|d IHd] using pyval_ind;
    cbn [json_dumps floats_print]; intros Hf.
  - done.
  - by destruct b.
  - apply int_repr_printable.
  - by apply float_token_printable.
  - apply encode_string_printable.
  - rewrite !forallb_app, join_printable; [done|done|].
    apply Forall_map. rewrite forallb_forall in Hf.
    rewrite Forall_forall in *. intros v Hv. simpl.
    apply IHl; [done|]. by apply Hf.
  - rewrite !forallb_app, join_printable; [done|done|].
    apply Forall_map. rewrite forallb_forall in Hf.
    rewrite Forall_forall in *. intros [k v] Hv. cbn [fst snd].
    rewrite !forallb_app, encode_string_printable.
    pose proof (IHd (k, v) Hv (Hf (k, v) Hv)) as Hkv. cbn [snd] in Hkv.
    by rewrite Hkv.
Qed.

(** X9: with floats printed as float tokens, whatever [predict]
    returns is plain ASCII: every character of the text lies between
    the space and the tilde, whatever characters the generated text or
    the text of an exception holds. *)
Theorem response_is_plain_ascii (rt : runtime) (st : state rt)
    (command audio shop_domain : pystr) :
  (forall x, is_float_token (float_repr rt x) = true) ->
  forallb printable (fst (predict rt st command audio shop_domain)) = true.
Proof.
  intros Hfr.
  destruct (predict_cases rt command audio shop_domain st)
    as [(m & a & q & h & ->)|(e & ->)];
    by apply json_dumps_printable, floats_print_all.
Qed.

Lemma response_is_plain_ascii_witness :
  forallb printable
    (fst (predict echo start (241 :: py " caf" ++ [233; 128512]) (py "QUJD") []))
  = true.
Proof.
  apply (response_is_plain_ascii echo start
           (241 :: py " caf" ++ [233; 128512]) (py "QUJD") []).
  exact (float_repr_token echo).
Defined.

(** ** Reading the response back *)

(** X10: when lines 76 to 86 give the four fields of the answer, read
    from the candidate answer or defaulted, and these values are
    stable (their strings hold no surrogate code points, their floats
    print as the tokens they were read from, their objects repeat no
    key), then lines 73 to 93 return, and the text returned denotes
    exactly the object of these four fields, each key with its value:
    what a client decodes is what the model wrote. *)
Theorem returned_text_denotes_the_fields (rt : runtime) (text : pystr)
    (message action query handle : pyval) :
  parse_fields rt (candidate_answer text) = Ok (message, action, query, handle) ->
  stable (float_repr rt) (response_dict message action query handle) = true ->
  exists out,
    respond rt (PStr text) = Ok out /\
    json_decode out = Some (response_dict message action query handle) /\
    json_keys out = Some [py "message"; py "action"; py "query"; py "handle"] /\
    json_field out "message" = Some message /\
    json_field out "action" = Some action /\
    json_field out "query" = Some query /\
    json_field out "handle" = Some handle.
Proof.
  intros Hp Hs. eexists. split.
  - unfold respond. rewrite assistant_segment_candidate. cbn [bind].
    by rewrite Hp.
  - assert (stable (float_repr rt) message = true /\
            stable (float_repr rt) action = true /\
            stable (float_repr rt) query = true /\
            stable (float_repr rt) handle = true) as (Hm & Ha & Hq & Hh).
    { cbn [stable response_dict forallb fst snd] in Hs.
      repeat match type of Hs with
      | (_ && _) = true => apply andb_true_iff in Hs as [Hs ?]
      end.
      repeat match goal with
      | H : (_ && _) = true |- _ => apply andb_true_iff in H as [? ?]
      end. done. }
    split; [by apply json_decode_dumps_stable|].
    unfold json_keys, json_field. rewrite decode_response.
    split; [done|]. simpl. by rewrite !reread_stable.
Qed.

Lemma returned_text_denotes_the_fields_witness :
  exists out,
    respond echo
      (PStr (js "<|assistant|>{`message`: `Hi`, `action`: `search`, `query`: [1.5, {`a`: null}]}"))
    = Ok out /\
    json_decode out
    = Some (response_dict (PStr (py "Hi")) (PStr (py "search"))
              (PList [PFloat (py "1.5"); PDict [(py "a", PNone)]]) PNone) /\
    json_keys out = Some [py "message"; py "action"; py "query"; py "handle"] /\
    json_field out "message" = Some (PStr (py "Hi")) /\
    json_field out "action" = Some (PStr (py "search")) /\
    json_field out "query"
    = Some (PList [PFloat (py "1.5"); PDict [(py "a", PNone)]]) /\
    json_field out "handle" = Some PNone.
Proof.
  apply (returned_text_denotes_the_fields echo
           (js "<|assistant|>{`message`: `Hi`, `action`: `search`, `query`: [1.5, {`a`: null}]}")
           (PStr (py "Hi")) (PStr (py "search"))
           (PList [PFloat (py "1.5"); PDict [(py "a", PNone)]]) PNone).
  - vm_compute. reflexivity.
  - vm_compute. reflexivity.
Defined.

(** ** The predictor object: [setup], then [predict] *)

(** [predict] as a method of an object that holds the pipeline of the
    runtime is the handler over that runtime. *)
Lemma method_predict_with_pipeline (rt : runtime) (Tok : Type)
    (self : predictor rt Tok) (st : state rt)
    (command audio shop_domain : pystr) :
  attr_pipeline self = Some (pipeline rt) ->
  method_predict self st command audio shop_domain
  = predict rt st command audio shop_domain.
Proof.
  intros H.
  unfold method_predict, predict, predict_body, method_run_model, run_model,
    getattr_pipeline, mbind_M, lift, call_with, call_pipeline.
  rewrite H.
  destruct (b64decode rt audio) as [data|e]; [|done].
  by destruct (librosa_load rt data 16000) as [loaded|e].
Qed.

(** X11: on a predictor without a pipeline (one [setup] was never run
    on, or did not complete on) [predict] does not raise: it returns
    an error payload, the object whose only key is "message", and
    leaves the state as it was.  The audio is decoded before the
    pipeline is looked up: the error is that of the audio when it does
    not decode or load, and otherwise the missing attribute. *)
Theorem predict_without_pipeline (rt : runtime) (Tok : Type)
    (self : predictor rt Tok) (st : state rt)
    (command audio shop_domain : pystr) :
  attr_pipeline self = None ->
  exists e,
    method_predict self st command audio shop_domain
    = (json_dumps (float_repr rt) (error_dict e), st) /\
    json_keys (fst (method_predict self st command audio shop_domain))
    = Some [py "message"] /\
    json_field (fst (method_predict self st command audio shop_domain)) "message"
    = Some (PStr (py "Error: " ++ restring (exn_text e))) /\
    (b64decode rt audio = Raise e \/
     (exists data, b64decode rt audio = Ok data /\
        (librosa_load rt data 16000 = Raise e \/
         (exists loaded, librosa_load rt data 16000 = Ok loaded) /\
         e = mk_exn AttributeError
               (py "'Predictor' object has no attribute 'pipeline'")))).
Proof.
  intros H.
  assert (exists e,
    method_predict self st command audio shop_domain
    = (json_dumps (float_repr rt) (error_dict e), st) /\
    (b64decode rt audio = Raise e \/
     (exists data, b64decode rt audio = Ok data /\
        (librosa_load rt data 16000 = Raise e \/
         (exists loaded, librosa_load rt data 16000 = Ok loaded) /\
         e = mk_exn AttributeError
               (py "'Predictor' object has no attribute 'pipeline'")))))
    as (e & He & Hwhy).
  { unfold method_predict, method_run_model, getattr_pipeline, mbind_M, lift.
    rewrite H.
    destruct (b64decode rt audio) as [data|e] eqn:Hd; [|exists e; by auto].
    destruct (librosa_load rt data 16000) as [loaded|e] eqn:Hl.
    - eexists. split; [reflexivity|]. right. exists data. split; [done|]. right.
      split; [by exists loaded|done].
    - exists e. split; [done|]. right. exists data. by auto. }
  exists e. split; [done|]. rewrite He. cbn [fst].
  unfold json_keys, json_field. by rewrite decode_error_dict.
Qed.

Lemma predict_without_pipeline_witness :
  exists e,
    method_predict (fresh echo unit) start (py "hello") (py "QUJD") []
    = (json_dumps (float_repr echo) (error_dict e), start) /\
    json_keys (fst (method_predict (fresh echo unit) start (py "hello") (py "QUJD") []))
    = Some [py "message"] /\
    json_field (fst (method_predict (fresh echo unit) start (py "hello") (py "QUJD") []))
      "message"
    = Some (PStr (py "Error: " ++ restring (exn_text e))) /\
    (b64decode echo (py "QUJD") = Raise e \/
     (exists data, b64decode echo (py "QUJD") = Ok data /\
        (librosa_load echo data 16000 = Raise e \/
         (exists loaded, librosa_load echo data 16000 = Ok loaded) /\
         e = mk_exn AttributeError
               (py "'Predictor' object has no attribute 'pipeline'")))).
Proof.
  apply (predict_without_pipeline echo unit (fresh echo unit) start
           (py "hello") (py "QUJD") []).
  reflexivity.
Defined.

(** X12: when the tokenizer loads and the pipeline loads with it,
    [setup] returns, whatever the predictor held before, and [predict]
    on the predictor it leaves is the handler over the loaded
    pipeline. *)
Theorem predict_after_setup (rt : runtime) (Tok : Type)
    (ld : loaders rt Tok) (self : predictor rt Tok) (tok : Tok)
    (st : state rt) (command audio shop_domain : pystr) :
  from_pretrained ld MODEL true = Ok tok ->
  make_pipeline ld
    {| pk_model := MODEL;
       pk_tokenizer := tok;
       pk_torch_dtype := bfloat16;
       pk_trust_remote_code := true;
       pk_device_map := py "auto";
       pk_quantization_config :=
         {| load_in_4bit := true;
            bnb_4bit_use_double_quant := true;
            bnb_4bit_quant_type := py "nf4";
            bnb_4bit_compute_dtype := bfloat16 |} |}
  = Ok (pipeline rt) ->
  setup ld self
  = (Ok tt, {| attr_tokenizer := Some tok;
               attr_pipeline := Some (pipeline rt) |}) /\
  method_predict (snd (setup ld self)) st command audio shop_domain
  = predict rt st command audio shop_domain.
Proof.
  intros Ht Hp.
  assert (setup ld self
          = (Ok tt, {| attr_tokenizer := Some tok;
                       attr_pipeline := Some (pipeline rt) |})) as Hs.
  { unfold setup. rewrite Ht. unfold setup_kwargs, bnb_config. by rewrite Hp. }
  split; [done|]. rewrite Hs. by apply method_predict_with_pipeline.
Qed.

Lemma predict_after_setup_witness :
  setup echo_loaders (fresh echo unit)
  = (Ok tt, {| attr_tokenizer := Some tt;
               attr_pipeline := Some (pipeline echo) |}) /\
  method_predict (snd (setup echo_loaders (fresh echo unit))) start
    (py "hello") (py "QUJD") []
  = predict echo start (py "hello") (py "QUJD") [].
Proof.
  apply (predict_after_setup echo unit echo_loaders (fresh echo unit) tt start
           (py "hello") (py "QUJD") []).
  - reflexivity.
  - reflexivity.
Defined.


